(** * Environment detection (page.27005089.js): a shallow embedding

    The module classifies the browsing environment from the user-agent
    string, the host's touch-point count, the device pixel ratio and the
    measured viewport.  This development embeds

    - the regular expressions of the source, with a backtracking matcher
      that follows the ECMAScript matcher (continuations, greedy
      quantifiers, capture groups, leftmost search);
    - the ordered rule tables [commonOperatingSystems], [androidVersions]
      and the version extractors [operatingSystemVersions];
    - the memoised predicates over the shared [cache] object;
    - the viewport tracker, the size predicates and [getBreakpoints].

    Strings are sequences of 8-bit characters; the patterns of the source
    are ASCII, so that case folding only ever relates ASCII letters. *)

From Stdlib Require Import ZArith Ascii String SpecFloat.
From stdpp Require Import base option list strings gmap.

Local Open Scope string_scope.
Local Open Scope Z_scope.

(** ** Characters and strings, as the JavaScript string methods see them *)

Module JsString.

Definition code (c : ascii) : N := N_of_ascii c.

Definition is_upper (c : ascii) : bool :=
  ((65 <=? code c) && (code c <=? 90))%N.

Definition is_lower (c : ascii) : bool :=
  ((97 <=? code c) && (code c <=? 122))%N.

Definition toUpperCaseChar (c : ascii) : ascii :=
  if is_lower c then ascii_of_N (code c - 32) else c.

Definition toLowerCaseChar (c : ascii) : ascii :=
  if is_upper c then ascii_of_N (code c + 32) else c.

(** [String.prototype.toLowerCase] *)
Fixpoint toLowerCase (s : string) : string :=
  match s with
  | EmptyString => EmptyString
  | String c s' => String (toLowerCaseChar c) (toLowerCase s')
  end.

Fixpoint startsWith (p s : string) : bool :=
  match p, s with
  | EmptyString, _ => true
  | String a p', String b s' => if Ascii.eqb a b then startsWith p' s' else false
  | String _ _, EmptyString => false
  end.

(** [s.indexOf(p)], counted from [from]; [-1] when [p] does not occur. *)
Fixpoint indexOf_from (p s : string) (from : Z) : Z :=
  if startsWith p s then from
  else match s with
       | EmptyString => -1
       | String _ s' => indexOf_from p s' (from + 1)
       end.

Definition indexOf (s p : string) : Z := indexOf_from p s 0.

(** [s.replace(p, q)] with a string pattern: the first occurrence only. *)
Fixpoint replace (s p q : string) : string :=
  if startsWith p s then q +:+ String.substring (String.length p) (String.length s) s
  else match s with
       | EmptyString => EmptyString
       | String c s' => String c (replace s' p q)
       end.

(** [s.split(c)] for a one-character separator. *)
Fixpoint split (c : ascii) (s : string) : list string :=
  match s with
  | EmptyString => [EmptyString]
  | String a s' =>
      if Ascii.eqb a c then EmptyString :: split c s'
      else match split c s' with
           | [] => [String a EmptyString]
           | w :: ws => String a w :: ws
           end
  end.

(** [l.join(sep)] *)
Fixpoint join (sep : string) (l : list string) : string :=
  match l with
  | [] => EmptyString
  | [w] => w
  | w :: ws => w +:+ sep +:+ join sep ws
  end.

End JsString.

(** ** Regular expressions

    The abstract syntax covers what the patterns of the source use.  The
    matcher is the backtracking matcher of the language definition: a
    pattern is run against a state (end index, rest of the input,
    captures) and a continuation; a disjunction tries its alternatives
    from left to right; a greedy quantifier first tries one more
    iteration and rejects an iteration that consumed nothing. *)

Module Regex.

Inductive regex : Type :=
| Empty
| Char (c : ascii)
| Dot
| Class (invert : bool) (ranges : list (ascii * ascii))
| Seq (r1 r2 : regex)
| Alt (r1 r2 : regex)
| Star (r : regex)
| Opt (r : regex)
| Group (n : nat) (r : regex).

(** [r+] and [r{n,}] unrolled: [n] mandatory iterations, then [r*].  The
    quantified atoms of the source contain no capture group, so that
    nothing has to be cleared before the mandatory iterations. *)
Definition Plus (r : regex) : regex := Seq r (Star r).

Fixpoint AtLeast (n : nat) (r : regex) : regex :=
  match n with
  | O => Star r
  | S n' => Seq r (AtLeast n' r)
  end.

(** A run of literal characters. *)
Fixpoint lit (s : string) : regex :=
  match s with
  | EmptyString => Empty
  | String c EmptyString => Char c
  | String c s' => Seq (Char c) (lit s')
  end.

(** [\d] and single-character class members. *)
Definition digit : regex := Class false [("0", "9")]%char.
Definition one (c : ascii) : ascii * ascii := (c, c).

(** The capture groups a pattern contains.  Group [n] is entry [n - 1]
    of the capture array. *)
Fixpoint groups (r : regex) : list nat :=
  match r with
  | Empty | Char _ | Dot | Class _ _ => []
  | Seq r1 r2 | Alt r1 r2 => groups r1 ++ groups r2
  | Star r1 | Opt r1 => groups r1
  | Group n r1 => n :: groups r1
  end.

Abbreviation captures := (list (option string)).

Definition clear (ns : list nat) (caps : captures) : captures :=
  foldr (λ n acc, <[Nat.pred n := None]> acc) caps ns.

(** Canonicalize of the language definition, for patterns without the
    unicode flag: upper-casing when [ignoreCase] is set. *)
Definition canonicalize (ignoreCase : bool) (c : ascii) : ascii :=
  if ignoreCase then JsString.toUpperCaseChar c else c.

Definition char_matches (ignoreCase : bool) (p a : ascii) : bool :=
  Ascii.eqb (canonicalize ignoreCase p) (canonicalize ignoreCase a).

Definition in_range (a : ascii) (rg : ascii * ascii) : bool :=
  ((JsString.code rg.1 <=? JsString.code a) && (JsString.code a <=? JsString.code rg.2))%N.

(** A character belongs to a class when some member of the class has the
    same canonical form; over ASCII the candidates are the character and
    its two case variants. *)
Definition class_matches (ignoreCase : bool) (ranges : list (ascii * ascii)) (a : ascii) : bool :=
  existsb (in_range a) ranges
  || (ignoreCase
      && (existsb (in_range (JsString.toUpperCaseChar a)) ranges
          || existsb (in_range (JsString.toLowerCaseChar a)) ranges)).

Definition line_terminator (a : ascii) : bool :=
  Ascii.eqb a "010" || Ascii.eqb a "013".

Section Matcher.
Context {A : Type}.
Variable ignoreCase : bool.
(** the subject, from the index at which this attempt starts *)
Variable input : string.

Definition continuation := nat → string → captures → option A.

Definition step (ok : ascii → bool) (k : continuation)
    (pos : nat) (rest : string) (caps : captures) : option A :=
  match rest with
  | String a rest' => if ok a then k (S pos) rest' caps else None
  | EmptyString => None
  end.

(** The loop of a greedy [r*].  [m] runs one iteration of the body and
    hands the state it reaches to its continuation; an iteration that did
    not advance is rejected, so that every iteration consumes a character
    and [fuel] = the length of the rest is never exhausted (lemma
    [star_loop_fuel] below). *)
Fixpoint star_loop (m : continuation → nat → string → captures → option A)
    (k : continuation) (fuel pos : nat) (rest : string) (caps : captures)
    {struct fuel} : option A :=
  match fuel with
  | O => k pos rest caps
  | S fuel' =>
      match m (λ pos' rest' caps',
                 if Nat.eqb pos' pos then None else star_loop m k fuel' pos' rest' caps')
              pos rest caps with
      | Some x => Some x
      | None => k pos rest caps
      end
  end.

Fixpoint rmatch (r : regex) (k : continuation)
    (pos : nat) (rest : string) (caps : captures) {struct r} : option A :=
  match r with
  | Empty => k pos rest caps
  | Char c => step (char_matches ignoreCase c) k pos rest caps
  | Dot => step (λ a, negb (line_terminator a)) k pos rest caps
  | Class invert ranges =>
      step (λ a, xorb invert (class_matches ignoreCase ranges a)) k pos rest caps
  | Seq r1 r2 => rmatch r1 (rmatch r2 k) pos rest caps
  | Alt r1 r2 =>
      match rmatch r1 k pos rest caps with
      | Some x => Some x
      | None => rmatch r2 k pos rest caps
      end
  | Star r1 =>
      star_loop
        (λ k' pos' rest' caps', rmatch r1 k' pos' rest' (clear (groups r1) caps'))
        k (String.length rest) pos rest caps
  | Opt r1 =>
      match rmatch r1
              (λ pos' rest' caps', if Nat.eqb pos' pos then None else k pos' rest' caps')
              pos rest (clear (groups r1) caps) with
      | Some x => Some x
      | None => k pos rest caps
      end
  | Group n r1 =>
      rmatch r1
        (λ pos' rest' caps',
           k pos' rest'
             (<[Nat.pred n := Some (String.substring pos (pos' - pos) input)]> caps'))
        pos rest caps
  end.
End Matcher.

(** A regular expression object: the pattern and its [i] flag.  The
    result of a match is the array of the language: the matched text,
    then one entry per capture group ([None] is [undefined]). *)
Record RegExp : Type := mkRegExp { source : regex; ignoreCase : bool }.

Abbreviation match_array := (list (option string)).

Definition match_at (re : RegExp) (s : string) : option match_array :=
  rmatch (ignoreCase re) s (source re)
    (λ pos _ caps, Some (Some (String.substring 0 pos s) :: caps))
    0%nat s (replicate (length (groups (source re))) None).

(** [RegExp.prototype.exec] from index 0: the leftmost start index at
    which the pattern matches. *)
Fixpoint exec (re : RegExp) (s : string) : option match_array :=
  match match_at re s with
  | Some m => Some m
  | None =>
      match s with
      | EmptyString => None
      | String _ s' => exec re s'
      end
  end.

(** [regexp.test(s)] *)
Definition test (re : RegExp) (s : string) : bool :=
  match exec re s with
  | Some _ => true
  | None => false
  end.

End Regex.

(** ** The rule tables of the source *)

Module Tables.
Import Regex.

Declare Scope regex_scope.
Delimit Scope regex_scope with re.
Bind Scope regex_scope with regex.
Notation "r1 ⋅ r2" := (Seq r1 r2) (at level 40, left associativity) : regex_scope.
Notation "r1 ∣ r2" := (Alt r1 r2) (at level 60, right associativity) : regex_scope.

(** [/pattern/i] and [/pattern/] *)
Definition ci (r : regex) : RegExp := mkRegExp r true.
Definition cs (r : regex) : RegExp := mkRegExp r false.

Definition commonOperatingSystems : list (string * RegExp) :=
  [ ("iOS", ci (lit "iP" ⋅ Group 1 (lit "hone" ∣ lit "od" ∣ lit "ad")));
    ("Android", ci (lit "Android"));
    ("BlackBerry OS", ci (lit "BlackBerry" ∣ lit "BB10"));
    ("Windows Mobile", ci (lit "IEMobile"));
    ("Fire OS", ci (lit "Kindle Fire" ∣ lit "Silk"
                    ∣ (lit "Android" ∣ lit "Linux") ⋅ Plus Dot ⋅ lit "KF"
                      ⋅ AtLeast 2 (Class false [("A", "Z")]%char)));
    ("Amazon OS", ci (lit "Kindle"));
    ("Windows 3.11", ci (lit "Win16"));
    ("Windows 95", ci (Group 1 (lit "Windows 95") ∣ Group 2 (lit "Win95")
                       ∣ Group 3 (lit "Windows_95")));
    ("Windows 98", ci (Group 1 (lit "Windows 98") ∣ Group 2 (lit "Win98")));
    ("Windows 2000", ci (Group 1 (lit "Windows NT 5" ⋅ Dot ⋅ lit "0")
                         ∣ Group 2 (lit "Windows 2000")));
    ("Windows XP", ci (Group 1 (lit "Windows NT 5" ⋅ Dot ⋅ lit "1")
                       ∣ Group 2 (lit "Windows XP")));
    ("Windows Server 2003", ci (Group 1 (lit "Windows NT 5" ⋅ Dot ⋅ lit "2")));
    ("Windows Vista", ci (Group 1 (lit "Windows NT 6" ⋅ Dot ⋅ lit "0")));
    ("Windows 7", ci (Group 1 (lit "Windows NT 6" ⋅ Dot ⋅ lit "1")));
    ("Windows 8", ci (Group 1 (lit "Windows NT 6" ⋅ Dot ⋅ lit "2")));
    ("Windows 8.1", ci (Group 1 (lit "Windows NT 6" ⋅ Dot ⋅ lit "3")));
    ("Windows 10", ci (Group 1 (lit "Windows NT 10" ⋅ Dot ⋅ lit "0")));
    ("Windows ME", ci (lit "Windows ME"));
    ("Open BSD", ci (lit "OpenBSD"));
    ("Free BSD", ci (lit "FreeBSD"));
    ("Sun OS", ci (lit "SunOS"));
    ("Chrome OS", ci (lit "CrOS"));
    ("webOS", ci (lit "webOS"));
    ("Linux", ci (Group 1 (lit "Linux") ∣ Group 2 (lit "X11")));
    ("Mac OS", ci (Group 1 (lit "Mac_PowerPC") ∣ Group 2 (lit "Macintosh"))) ]%re.

Definition androidVersions : list (string * RegExp) :=
  [ ("Legacy", ci (lit "android " ⋅ Group 1 (Class false [one "2"; one ","; one "3"]%char)));
    ("Ice Cream Sandwich", ci (lit "android " ⋅ Group 1 (lit "4" ⋅ Dot ⋅ lit "0")));
    ("Jellybean",
      ci (lit "android "
          ⋅ Group 1 (lit "4" ⋅ Dot
                     ⋅ Class false [one "1"; one "|"; one "2"; one "|"; one "3"]%char)));
    ("KitKat", ci (lit "android " ⋅ Group 1 (lit "4" ⋅ Dot ⋅ lit "4")));
    ("Lollipop", ci (lit "android " ⋅ Group 1 (lit "5")));
    ("Marshmallow", ci (lit "android " ⋅ Group 1 (lit "6")));
    ("Nougat",
      ci (lit "android "
          ⋅ Group 1 (lit "7" ⋅ Dot ⋅ Class false [one "0"; one ","; one "1"]%char)));
    ("Oreo",
      ci (lit "android "
          ⋅ Group 1 (lit "8" ⋅ Dot ⋅ Class false [one "0"; one ","; one "1"]%char)));
    ("Pie", ci (lit "android " ⋅ Group 1 (lit "9")));
    ("Q", ci (lit "android " ⋅ Group 1 (lit "10"))) ]%re.

(** The pattern of [operatingSystemVersions.ios]:
    CPU, an optional " iPhone", " OS ", then group 1: digits followed
    by any number of "_digits". *)
Definition ios_regex : RegExp :=
  cs (lit "CPU" ⋅ Opt (lit " iPhone") ⋅ lit " OS "
      ⋅ Group 1 (Plus digit ⋅ Star (lit "_" ⋅ Plus digit)))%re.

(** The pattern of [operatingSystemVersions.chrome_os]:
    "(X11; CrOS ", then "x86_digits" or "armv7l", a space, group 1: any
    number of digits and dots, then ")". *)
Definition chrome_os_regex : RegExp :=
  cs (lit "(X11; CrOS " ⋅ (lit "x86_" ⋅ Plus digit ∣ lit "armv7l") ⋅ lit " "
      ⋅ Group 1 (Star (Class false [("0", "9"); one "."]%char)) ⋅ lit ")")%re.

(** The pattern of [operatingSystemVersions.mac_os]:
    [/\(Macintosh(?:.)+Mac OS X (10(?:_\d+)+|10+\.\d+)/] *)
Definition mac_os_regex : RegExp :=
  cs (lit "(Macintosh" ⋅ Plus Dot ⋅ lit "Mac OS X "
      ⋅ Group 1 (lit "10" ⋅ Plus (lit "_" ⋅ Plus digit)
                 ∣ lit "1" ⋅ Plus (lit "0") ⋅ lit "." ⋅ Plus digit))%re.

(** The patterns of the device predicates. *)
Definition isIos_regex : RegExp :=
  cs (lit "iP" ⋅ Group 1 (lit "hone" ∣ lit "od" ∣ lit "ad"))%re.
Definition isIphone_regex : RegExp := cs (lit "iPhone").
Definition isAndroid_regex : RegExp := cs (lit "Android").
Definition isWebOS_regex : RegExp := cs (lit "webOS").
Definition isBlackberry_regex : RegExp := cs (lit "Blackberry" ∣ lit "BB10")%re.
Definition isWindowsMobile_regex : RegExp := cs (lit "IEMobile").
(** [/(iPad|iPhone|iPod)/g]: the literal is evaluated afresh at each
    call, so that the search always starts at index 0. *)
Definition isRetina_regex : RegExp :=
  cs (Group 1 (lit "iPad" ∣ lit "iPhone" ∣ lit "iPod"))%re.

Record Breakpoints : Type := mkBreakpoints {
  xxsmall : Z; xsmall : Z; small : Z; medium : Z; large : Z; xlarge : Z; xxlarge : Z
}.

Definition breakpoints : Breakpoints :=
  {| xxsmall := 320; xsmall := 480; small := 600; medium := 740;
     large := 1024; xlarge := 1150; xxlarge := 1440 |}.

(** The property names with their values, in the order of
    [Object.keys(breakpoints)]. *)
Definition entries (b : Breakpoints) : list (string * Z) :=
  [ ("xxsmall", xxsmall b); ("xsmall", xsmall b); ("small", small b);
    ("medium", medium b); ("large", large b); ("xlarge", xlarge b);
    ("xxlarge", xxlarge b) ].

End Tables.

Import Regex Tables.

(** ** Values, host and program state *)

(** The JavaScript values that the cache holds and the predicates return:
    [undefined], booleans, strings and the operating-system object
    [{name, version}]. *)
Inductive value : Type :=
| VUndefined
| VBool (b : bool)
| VStr (s : string)
| VOs (name version : value).

(** ToBoolean *)
Definition truthy (v : value) : bool :=
  match v with
  | VUndefined => false
  | VBool b => b
  | VStr s => negb (String.eqb s EmptyString)
  | VOs _ _ => true
  end.

(** IEEE 754 double precision, for the numbers that are not integers. *)
Module Number.
Definition prec : Z := 53.
Definition emax : Z := 1024.
Definition of_Z (z : Z) : spec_float := binary_normalize prec emax z 0 false.
Definition div (x y : spec_float) : spec_float := SFdiv prec emax x y.
Definition ltb (x y : spec_float) : bool := SFltb x y.
Definition leb (x y : spec_float) : bool := SFleb x y.
(** ToBoolean of a number: false for zeros and NaN. *)
Definition truthy (x : spec_float) : bool :=
  match x with
  | S754_zero _ | S754_nan => false
  | _ => true
  end.
End Number.

Module Viewport.
Record t : Type := mk { width : Z; height : Z; aspectRatio : spec_float }.
End Viewport.

(** What the browser provides.  The user agent is read once when the
    module loads; the geometry is read at each [setViewport]. *)
Record Host : Type := mkHost {
  userAgent : string;                    (* window.navigator.userAgent *)
  maxTouchPoints : option Z;             (* navigator.maxTouchPoints *)
  devicePixelRatio : option spec_float;  (* window.devicePixelRatio *)
  matchMedia : option (string → bool);   (* window.matchMedia(q).matches *)
  clientWidth : Z;                       (* html.clientWidth *)
  clientHeight : Z;
  innerWidth : Z;                        (* window.innerWidth *)
  innerHeight : Z
}.

(** The two mutable variables of the module: [const cache = {}] and
    [let cachedViewport]. *)
Record State : Type := mkState {
  cache : gmap string value;
  cachedViewport : option Viewport.t
}.

Definition initial : State := mkState ∅ None.

(** ** Computations: host reader, state, and TypeError

    A call reads the host, updates the state and either returns or
    raises a TypeError; the writes made before an exception persist. *)

Inductive result (A : Type) : Type :=
| Ok (a : A)
| TypeError.
Arguments Ok {A} a.
Arguments TypeError {A}.

Inductive outcome (A : Type) : Type :=
| Return (a : A) (s : State)
| Raise (s : State).
Arguments Return {A} a s.
Arguments Raise {A} s.

Definition M (A : Type) : Type := Host → State → outcome A.

Definition ret {A} (a : A) : M A := λ _ s, Return a s.

Definition bind {A B} (m : M A) (f : A → M B) : M B :=
  λ h s, match m h s with
         | Return a s' => f a h s'
         | Raise s' => Raise s'
         end.

Definition lift {A} (f : Host → result A) : M A :=
  λ h s, match f h with
         | Ok a => Return a s
         | TypeError => Raise s
         end.

Definition throw {A} : M A := λ _ s, Raise s.

Definition final_state {A} (o : outcome A) : State :=
  match o with
  | Return _ s => s
  | Raise s => s
  end.

Declare Scope js_scope.
Delimit Scope js_scope with js.
Notation "'let*' x := m 'in' k" := (bind m (λ x, k))
  (at level 10, x name, m at level 100, k at level 200) : js_scope.
Notation "m ;;; k" := (bind m (λ _, k))
  (at level 100, k at level 200, right associativity) : js_scope.
Local Open Scope js_scope.

(** [cache.k] *)
Definition cache_get (k : string) : M value :=
  λ _ s, Return (default VUndefined (cache s !! k)) s.

(** [cache.k = v] *)
Definition cache_set (k : string) (v : value) : M unit :=
  λ _ s, Return tt (mkState (<[k := v]> (cache s)) (cachedViewport s)).

(** The shape every cached function has:
    [if (!cache.k) { cache.k = e; } return cache.k;] *)
Definition memo (k : string) (compute : M value) : M value :=
  let* c := cache_get k in
  (if truthy c then ret tt
   else let* v := compute in cache_set k v) ;;;
  cache_get k.

(** [a || b] and [a && b] on computations: the right operand is only
    evaluated when the left one does not decide. *)
Definition or_else (a b : M value) : M value :=
  let* v := a in if truthy v then ret v else b.

Definition and_then (a b : M value) : M value :=
  let* v := a in if truthy v then b else ret v.

(** ** The classifier *)

Definition getUserAgent (h : Host) : string := userAgent h.

(** source lines 121-136; [None] is the [false] of the source *)
Definition testUserAgent (h : Host) (rules : list (string * RegExp)) (ua : option string)
    : option (match_array * string) :=
  let ua := match ua with
            | Some u => if String.eqb u EmptyString then getUserAgent h else u
            | None => getUserAgent h
            end in
  (fix loop (l : list (string * RegExp)) :=
     match l with
     | [] => None
     | entry :: l' =>
         match exec entry.2 ua with
         | Some m => Some (m, entry.1)
         | None => loop l'
         end
     end) rules.

(** [s.split('_').join('.')] on an array element; the method call on
    [undefined] is a TypeError. *)
Definition split_join (cap : option (option string)) : result value :=
  match cap with
  | Some (Some s) => Ok (VStr (JsString.join "." (JsString.split "_" s)))
  | _ => TypeError
  end.

(** An array element inside a template literal. *)
Definition interpolate (cap : option (option string)) : string :=
  match cap with
  | Some (Some s) => s
  | _ => "undefined"
  end.

Module operatingSystemVersions.

Definition android (h : Host) : result value :=
  let r := testUserAgent h androidVersions None in
  match r with
  | Some (releaseMatch, releaseName) =>
      if String.eqb releaseName EmptyString then Ok (VStr EmptyString)
      else if (length releaseMatch =? 2)%nat
           then Ok (VStr (interpolate (releaseMatch !! 1%nat) +:+ " (" +:+ releaseName +:+ ")"))
           else Ok (VStr releaseName)
  | None => Ok (VStr EmptyString)
  end.

Definition ios (h : Host) : result value :=
  match exec ios_regex (userAgent h) with
  | Some m => if (length m =? 2)%nat then split_join (m !! 1%nat) else Ok (VStr EmptyString)
  | None => Ok (VStr EmptyString)
  end.

Definition chrome_os (h : Host) : result value :=
  match exec chrome_os_regex (userAgent h) with
  | Some m =>
      if (length m =? 2)%nat
      then Ok (match m !! 1%nat with Some (Some s) => VStr s | _ => VUndefined end)
      else Ok (VStr EmptyString)
  | None => Ok (VStr EmptyString)
  end.

Definition mac_os (h : Host) : result value :=
  match exec mac_os_regex (userAgent h) with
  | Some m => if (length m =? 2)%nat then split_join (m !! 1%nat) else Ok (VStr EmptyString)
  | None => Ok (VStr EmptyString)
  end.

(** [operatingSystemVersions[osSlug]] *)
Definition lookup (osSlug : string) : option (Host → result value) :=
  if String.eqb osSlug "android" then Some android
  else if String.eqb osSlug "ios" then Some ios
  else if String.eqb osSlug "chrome_os" then Some chrome_os
  else if String.eqb osSlug "mac_os" then Some mac_os
  else None.

End operatingSystemVersions.

Definition slugify (s : string) : string :=
  JsString.replace (JsString.toLowerCase s) " " "_".

(** The body of [getOperatingSystem] under its cache test. *)
Definition identifyOperatingSystem (h : Host) : result value :=
  let name := match testUserAgent h commonOperatingSystems None with
              | Some (_, name) => if String.eqb name EmptyString then "unknown" else name
              | None => "unknown"
              end in
  let osSlug := slugify name in
  match operatingSystemVersions.lookup osSlug with
  | Some osVersionTest =>
      match osVersionTest h with
      | Ok version => Ok (VOs (VStr name) version)
      | TypeError => TypeError
      end
  | None => Ok (VOs (VStr name) (VStr EmptyString))
  end.

Definition getOperatingSystem : M value :=
  memo "getOperatingSystem" (lift identifyOperatingSystem).

(** [const { name: os } = v]: destructuring [undefined] is a TypeError,
    a value without the property gives [undefined]. *)
Definition destructure_name (v : value) : M value :=
  match v with
  | VUndefined => throw
  | VOs name _ => ret name
  | _ => ret VUndefined
  end.

(** [os.indexOf(p) > -1]; the method only exists on strings. *)
Definition indexOf_gt_minus1 (os : value) (p : string) : M value :=
  match os with
  | VStr s => ret (VBool (-1 <? JsString.indexOf s p))
  | _ => throw
  end.

Definition regex_test (re : RegExp) : M value :=
  λ h s, Return (VBool (test re (userAgent h))) s.

Definition isIos : M value := memo "isIos" (regex_test isIos_regex).
Definition isIphone : M value := memo "isIphone" (regex_test isIphone_regex).
Definition isAndroid : M value := memo "isAndroid" (regex_test isAndroid_regex).
Definition isWebOS : M value := memo "isWebOS" (regex_test isWebOS_regex).
Definition isBlackberry : M value := memo "isBlackberry" (regex_test isBlackberry_regex).
Definition isWindowsMobile : M value :=
  memo "isWindowsMobile" (regex_test isWindowsMobile_regex).

Definition isKindle : M value :=
  memo "isKindle"
    (let* v := getOperatingSystem in
     let* os := destructure_name v in
     indexOf_gt_minus1 os "Amazon OS").

Definition isKindleFire : M value :=
  memo "isKindleFire"
    (let* v := getOperatingSystem in
     let* os := destructure_name v in
     indexOf_gt_minus1 os "Fire OS").

Definition isMacOs : M value :=
  memo "isMacOs"
    (let* v := getOperatingSystem in
     let* os := destructure_name v in
     indexOf_gt_minus1 os "Mac").

(** [!!navigator.maxTouchPoints && navigator.maxTouchPoints === 5] *)
Definition has_five_touch_points (h : Host) : bool :=
  match maxTouchPoints h with
  | Some n => negb (n =? 0) && (n =? 5)
  | None => false
  end.

Definition five_touch_points : M value :=
  λ h s, Return (VBool (has_five_touch_points h)) s.

Definition isIpadOs : M value :=
  memo "isIpadOs" (and_then isMacOs five_touch_points).

Definition isMobile : M value :=
  memo "isMobile"
    (or_else isAndroid (or_else isIos (or_else isIpadOs (or_else isKindleFire
      (or_else isKindle (or_else isBlackberry (or_else isWindowsMobile isWebOS))))))).

(** [!v] *)
Definition not_ (m : M value) : M value :=
  let* v := m in ret (VBool (negb (truthy v))).

Definition isDesktop : M value := memo "isDesktop" (not_ isMobile).

(** ** Resolution *)

Definition pixelRatio (h : Host) : spec_float :=
  match devicePixelRatio h with
  | Some x => if Number.truthy x then x else Number.of_Z 1
  | None => Number.of_Z 1
  end.

Definition highDensity_query1 : string :=
  "only screen and (min-resolution: 124dpi), only screen and (min-resolution: 1.3dppx), only screen and (min-resolution: 48.8dpcm)".
Definition highDensity_query2 : string :=
  "only screen and (-webkit-min-device-pixel-ratio: 1.3), only screen and (-o-min-device-pixel-ratio: 2.6/2), only screen and (min--moz-device-pixel-ratio: 1.3), only screen and (min-device-pixel-ratio: 1.3)".
Definition retina_query1 : string :=
  "only screen and (min-resolution: 192dpi), only screen and (min-resolution: 2dppx), only screen and (min-resolution: 75.6dpcm)".
Definition retina_query2 : string :=
  "only screen and (-webkit-min-device-pixel-ratio: 2), only screen and (-o-min-device-pixel-ratio: 2/1), only screen and (min--moz-device-pixel-ratio: 2), only screen and (min-device-pixel-ratio: 2)".

(** [window.matchMedia && (window.matchMedia(q1).matches ||
    window.matchMedia(q2).matches)], as a truth value *)
Definition media_matches (h : Host) (q1 q2 : string) : bool :=
  match matchMedia h with
  | Some matches => matches q1 || matches q2
  | None => false
  end.

Definition isHighDensity (h : Host) : bool :=
  media_matches h highDensity_query1 highDensity_query2
  || Number.ltb (Number.div (Number.of_Z 13) (Number.of_Z 10)) (pixelRatio h).

Definition isRetina (h : Host) : bool :=
  (media_matches h retina_query1 retina_query2
   || Number.leb (Number.of_Z 2) (pixelRatio h))
  && test isRetina_regex (getUserAgent h).

(** ** Viewport, aspect and orientation *)

Definition setViewport : M unit :=
  λ h s,
    let width := Z.max (clientWidth h) (innerWidth h) in
    let height := Z.max (clientHeight h) (innerHeight h) in
    let aspectRatio := Number.div (Number.of_Z width) (Number.of_Z height) in
    Return tt (mkState (cache s) (Some (Viewport.mk width height aspectRatio))).

Definition getViewport : M (option Viewport.t) :=
  (λ h s, match cachedViewport s with
          | None => setViewport h s
          | Some _ => Return tt s
          end) ;;;
  (λ _ s, Return (cachedViewport s) s).

(** Reading a property of what [getViewport()] returned. *)
Definition member {A} (f : Viewport.t → A) (v : option Viewport.t) : M A :=
  match v with
  | Some vp => ret (f vp)
  | None => throw
  end.

Definition getAspectRatio : M spec_float :=
  let* v := getViewport in member Viewport.aspectRatio v.

Definition isLandscape : M bool :=
  let* a := getAspectRatio in ret (Number.ltb (Number.of_Z 1) a).

Definition isPortrait : M bool :=
  let* l := isLandscape in ret (negb l).

Definition isWideScreen : M bool :=
  let* a := getAspectRatio in
  ret (Number.ltb (Number.div (Number.of_Z (xxlarge breakpoints)) (Number.of_Z 1029)) a).

(** ** Size *)

Definition isSmallScreen : M bool :=
  let* v := getViewport in
  let* w := member Viewport.width v in
  ret (w <=? medium breakpoints).

Definition isLargeScreen : M bool :=
  let* v := getViewport in
  let* w := member Viewport.width v in
  ret (w >=? xlarge breakpoints).

Module Breakpoint.
Record t : Type := mk { width : Z; name : string; active : bool }.
End Breakpoint.

Definition getBreakpoints : M (list Breakpoint.t) :=
  let* v := getViewport in
  let* vw := member Viewport.width v in
  ret (map (λ entry : string * Z,
              let name := entry.1 in
              let width := entry.2 in
              Breakpoint.mk width name (vw >=? width))
           (entries breakpoints)).

(** ** Calls

    The functions a page can call, and the state a sequence of calls
    leaves behind.  Each call comes with the host as it is at that time. *)

Inductive query : Type :=
| GetOperatingSystem | IsMobile | IsDesktop | IsIpadOs | IsIos | IsIphone
| IsAndroid | IsWebOS | IsBlackberry | IsKindle | IsKindleFire
| IsWindowsMobile | IsMacOs
| GetViewport | IsLandscape | IsPortrait | IsWideScreen | IsSmallScreen
| IsLargeScreen | GetBreakpoints.

Definition ask (q : query) (h : Host) (s : State) : State :=
  match q with
  | GetOperatingSystem => final_state (getOperatingSystem h s)
  | IsMobile => final_state (isMobile h s)
  | IsDesktop => final_state (isDesktop h s)
  | IsIpadOs => final_state (isIpadOs h s)
  | IsIos => final_state (isIos h s)
  | IsIphone => final_state (isIphone h s)
  | IsAndroid => final_state (isAndroid h s)
  | IsWebOS => final_state (isWebOS h s)
  | IsBlackberry => final_state (isBlackberry h s)
  | IsKindle => final_state (isKindle h s)
  | IsKindleFire => final_state (isKindleFire h s)
  | IsWindowsMobile => final_state (isWindowsMobile h s)
  | IsMacOs => final_state (isMacOs h s)
  | GetViewport => final_state (getViewport h s)
  | IsLandscape => final_state (isLandscape h s)
  | IsPortrait => final_state (isPortrait h s)
  | IsWideScreen => final_state (isWideScreen h s)
  | IsSmallScreen => final_state (isSmallScreen h s)
  | IsLargeScreen => final_state (isLargeScreen h s)
  | GetBreakpoints => final_state (getBreakpoints h s)
  end.

Inductive call : Type :=
| Measure            (* setViewport() *)
| Ask (q : query).

Definition perform (c : call) (h : Host) (s : State) : State :=
  match c with
  | Measure => final_state (setViewport h s)
  | Ask q => ask q h s
  end.

Definition run (calls : list (Host * call)) (s : State) : State :=
  foldl (λ s hc, perform hc.2 hc.1 s) s calls.

Definition run_queries (qs : list (Host * query)) (s : State) : State :=
  foldl (λ s hq, ask hq.2 hq.1 s) s qs.

(** ** Environment *)

Module classNamePrefixes.
Definition env : string := "g-page".
Definition breakpoint : string := "g-viewport".
End classNamePrefixes.

(** [let debug = false], never assigned again. *)
Definition debug : value := VBool false.

(** [window.location] and [window.__HYBRID__]. *)
Record Location : Type := mkLocation {
  href : string;
  search : string;
  hostname : string;
  __HYBRID__ : value
}.

(** The two patterns of [isApp]; the group of the first does not
    capture. *)
Definition isApp_regex : RegExp :=
  ci (lit "nyt" ⋅ Opt (Class false [one "-"; one "_"]%char) ⋅ (lit "ios" ∣ lit "android"))%re.
Definition isApp_android_regex : RegExp := ci (lit "android").

(** ToBoolean of what [s.match(re)] returns, for a pattern without the g
    flag: the match array, or null. *)
Definition matched (m : option match_array) : bool :=
  match m with
  | Some _ => true
  | None => false
  end.

Definition isApp (l : Location) (h : Host) : bool :=
  (0 <? JsString.indexOf (href l) "app.html")
  || (-1 <? JsString.indexOf (search l) "nytapp")
  || matched (exec isApp_regex (getUserAgent h))
  || (matched (exec isApp_android_regex (getUserAgent h)) && truthy (__HYBRID__ l)).

Definition getEnvironment (l : Location) : string :=
  if -1 <? JsString.indexOf (hostname l) "localhost" then "development"
  else if String.eqb (hostname l) "preview.nyt.net" then "preview"
  else "production".

(** A call that only reads the host. *)
Definition read {A} (f : Host → A) : M A := λ h s, Return (f h) s.

(** The object literal of [getState]: its properties in the order they
    are written, which is the order of their evaluation and of
    [Object.keys]. *)
Definition getState (l : Location) : M (list (string * value)) :=
  let* app := read (isApp l) in
  let* ios := isIos in
  let* android := isAndroid in
  let* iphone := isIphone in
  let* mobile := isMobile in
  let* desktop := isDesktop in
  let* landscape := isLandscape in
  let* portrait := isPortrait in
  let* wideScreen := isWideScreen in
  let* smallScreen := isSmallScreen in
  let* largeScreen := isLargeScreen in
  let* highDensity := read isHighDensity in
  let* retina := read isRetina in
  ret [ ("isApp", VBool app); ("isIos", ios); ("isAndroid", android);
        ("isIphone", iphone); ("isMobile", mobile); ("isDesktop", desktop);
        ("isLandscape", VBool landscape); ("isPortrait", VBool portrait);
        ("isWideScreen", VBool wideScreen); ("isSmallScreen", VBool smallScreen);
        ("isLargeScreen", VBool largeScreen); ("isHighDensity", VBool highDensity);
        ("isRetina", VBool retina) ].

(** ** The document

    [html.classList] is a set of class names; the console keeps what
    [console.log] was called with, oldest first. *)
Record Document : Type := mkDocument {
  classList : gset string;
  console : list (string * value)
}.

Module classList.
Definition add (c : string) (d : Document) : Document :=
  mkDocument ({[ c ]} ∪ classList d) (console d).
Definition remove (c : string) (d : Document) : Document :=
  mkDocument (classList d ∖ {[ c ]}) (console d).
End classList.

Module console.
Definition log (a : string) (b : value) (d : Document) : Document :=
  mkDocument (classList d) (console d ++ [(a, b)])%list.
End console.

(** How a call of [prepEnvironment] ends: it returns, or an exception
    of [getState] ends it after the breakpoint classes are set. *)
Inductive page_outcome : Type :=
| Done (s : State) (d : Document)
| Failed (s : State) (d : Document).

Definition page_state (o : page_outcome) : State :=
  match o with
  | Done s _ | Failed s _ => s
  end.

Definition page_document (o : page_outcome) : Document :=
  match o with
  | Done _ d | Failed _ d => d
  end.

Definition prepEnvironment (_debug : value) (l : Location) (h : Host) (s : State)
    (d : Document) : page_outcome :=
  let _debug := if truthy _debug then _debug else debug in
  match (setViewport ;;; getBreakpoints) h s with
  | Raise s => Failed s d
  | Return bps s =>
      let d :=
        foldl (λ (d : Document) (breakpoint : Breakpoint.t),
                 let className :=
                   classNamePrefixes.breakpoint +:+ "-" +:+ Breakpoint.name breakpoint in
                 let d := if Breakpoint.active breakpoint
                          then classList.add className d
                          else classList.remove className d in
                 if truthy _debug
                 then console.log (Breakpoint.name breakpoint)
                        (VBool (Breakpoint.active breakpoint)) d
                 else d)
              d bps in
      match getState l h s with
      | Raise s => Failed s d
      | Return testResults s =>
          Done s
            (foldl (λ (d : Document) (entry : string * value),
                      let fnName := entry.1 in
                      let className :=
                        classNamePrefixes.env +:+ "-" +:+ JsString.toLowerCase fnName in
                      let result := entry.2 in
                      let d := if truthy result
                               then classList.add className d
                               else classList.remove className d in
                      if truthy _debug then console.log fnName result d else d)
                   d testResults)
      end
  end.

(** ** debounce

    The closure [debounce(func, wait, immediate)] returns, with the
    browser's timers.  A timer set at time [now] is due at [now + wait];
    the pending timers are kept in the order in which they are due, and a
    timer that is due runs before anything that happens later. *)

Module Debounce.

(** How a call of [func] ends: with a value, or with an exception. *)
Inductive completion (A : Type) : Type :=
| Normal (a : A)
| Abrupt.
Arguments Normal {A} a.
Arguments Abrupt {A}.

Section Debounce.
Variables World Arg Res : Type.
Variable func : Arg → World → World * completion Res.
Variable wait : Z.
Variable immediate : value.

(** A pending [setTimeout(later, wait)]; [later] closes over the
    arguments of the call that set it. *)
Record Timer : Type := mkTimer { id : nat; due : Z; args : Arg }.

Record t : Type := mk {
  world : World;
  result : option Res;       (* var result *)
  timeout : option nat;      (* var timeout = null *)
  timers : list Timer;       (* the timers that are pending *)
  next_id : nat
}.

Definition start (w : World) : t := mk w None None [] 1.

Definition clearTimeout (i : option nat) (x : t) : t :=
  match i with
  | Some i =>
      mk (world x) (result x) (timeout x)
         (filter (λ tm, id tm ≠ i) (timers x)) (next_id x)
  | None => x
  end.

Fixpoint enqueue (tm : Timer) (q : list Timer) : list Timer :=
  match q with
  | [] => [tm]
  | tm' :: q' => if due tm' <=? due tm then tm' :: enqueue tm q' else tm :: q
  end.

Definition setTimeout (now : Z) (a : Arg) (x : t) : nat * t :=
  (next_id x,
   mk (world x) (result x) (timeout x)
      (enqueue (mkTimer (next_id x) (now + wait) a) (timers x)) (S (next_id x))).

(** [func.apply(context, args)], and the assignment to [result] when
    it returns. *)
Definition apply (a : Arg) (x : t) : completion unit * t :=
  match func a (world x) with
  | (w, Normal r) => (Normal tt, mk w (Some r) (timeout x) (timers x) (next_id x))
  | (w, Abrupt) => (Abrupt, mk w (result x) (timeout x) (timers x) (next_id x))
  end.

Definition later (a : Arg) (x : t) : t :=
  let x := mk (world x) (result x) None (timers x) (next_id x) in
  if negb (truthy immediate) then (apply a x).2 else x.

(** The function [debounce] returns, called at time [now]. *)
Definition debounced (now : Z) (a : Arg) (x : t) : completion (option Res) * t :=
  let callNow := truthy immediate && negb (bool_decide (is_Some (timeout x))) in
  let x := clearTimeout (timeout x) x in
  let '(i, x) := setTimeout now a x in
  let x := mk (world x) (result x) (Some i) (timers x) (next_id x) in
  if callNow then
    match apply a x with
    | (Normal _, x) => (Normal (result x), x)
    | (Abrupt, x) => (Abrupt, x)
    end
  else (Normal (result x), x).

(** The timers of the queue that are due at [now], and the others. *)
Fixpoint split_due (now : Z) (q : list Timer) : list Timer * list Timer :=
  match q with
  | [] => ([], [])
  | tm :: q' =>
      if due tm <=? now
      then let '(due_now, pending) := split_due now q' in (tm :: due_now, pending)
      else ([], q)
  end.

(** Time passes until [now]: the timers due by then run, in order. *)
Definition advance (now : Z) (x : t) : t :=
  let '(due_now, pending) := split_due now (timers x) in
  foldl (λ x tm, later (args tm) x)
        (mk (world x) (result x) (timeout x) pending (next_id x)) due_now.

(** What happens on the page: the debounced function is called, or
    something else changes the world. *)
Inductive event : Type :=
| Call (a : Arg)
| Change (f : World → World).

Definition handle (x : t) (te : Z * event) : list (completion (option Res)) * t :=
  let x := advance te.1 x in
  match te.2 with
  | Call a => let '(r, x) := debounced te.1 a x in ([r], x)
  | Change f => ([], mk (f (world x)) (result x) (timeout x) (timers x) (next_id x))
  end.

(** A sequence of events with their times: what the calls returned, and
    the state at the end. *)
Fixpoint play (trace : list (Z * event)) (x : t) : list (completion (option Res)) * t :=
  match trace with
  | [] => ([], x)
  | te :: trace' =>
      let '(r, x) := handle x te in
      let '(rs, x) := play trace' x in
      (r ++ rs, x)%list
  end.

End Debounce.

Arguments mkTimer {Arg} id due args.
Arguments id {Arg} t.
Arguments due {Arg} t.
Arguments args {Arg} t.
Arguments mk {World Arg Res} world result timeout timers next_id.
Arguments world {World Arg Res} t.
Arguments result {World Arg Res} t.
Arguments timeout {World Arg Res} t.
Arguments timers {World Arg Res} t.
Arguments next_id {World Arg Res} t.
Arguments start {World Arg Res} w.
Arguments clearTimeout {World Arg Res} i x.
Arguments enqueue {Arg} tm q.
Arguments setTimeout {World Arg Res} wait now a x.
Arguments apply {World Arg Res} func a x.
Arguments later {World Arg Res} func immediate a x.
Arguments debounced {World Arg Res} func wait immediate now a x.
Arguments split_due {Arg} now q.
Arguments advance {World Arg Res} func immediate now x.
Arguments Call {World Arg} a.
Arguments Change {World Arg} f.
Arguments handle {World Arg Res} func wait immediate x te.
Arguments play {World Arg Res} func wait immediate trace x.

End Debounce.

(** ** Start

    What the module does when it is loaded, and on a resize. *)

(** What [prepEnvironment] reads and writes. *)
Definition Page : Type := Host * State * Document.

(** [prepEnvironment] as the function given to [debounce]; the listener
    calls it without arguments. *)
Definition prepEnvironment_func (l : Location) (_ : unit) (p : Page)
    : Page * Debounce.completion unit :=
  let '(h, s, d) := p in
  match prepEnvironment VUndefined l h s d with
  | Done s d => ((h, s, d), Debounce.Normal tt)
  | Failed s d => ((h, s, d), Debounce.Abrupt)
  end.

Definition debouncedPrepEnvironment (l : Location) :=
  Debounce.debounced (prepEnvironment_func l) 250 VUndefined.

(** Loading the module: the environment class, then [prepEnvironment()]. *)
Definition load (l : Location) (h : Host) (d : Document) : page_outcome :=
  let d := classList.add (classNamePrefixes.env +:+ "-" +:+ getEnvironment l) d in
  prepEnvironment VUndefined l h initial d.


(** * Definitions for the statements *)

(** ** Patterns *)

Module RegexSpec.
Import Regex.

(** [strip w s] removes the prefix [w] from [s]. *)
Fixpoint strip (w s : string) : option string :=
  match w with
  | EmptyString => Some s
  | String a w' =>
      match s with
      | String b s' => if Ascii.eqb a b then strip w' s' else None
      | EmptyString => None
      end
  end.

(** [w] occurs in [s] *)
Definition occurs (w s : string) : Prop := ∃ pre post, s = pre +:+ w +:+ post.

(** [refines p q]: [q] is [p] up to the case of its literal characters. *)
Fixpoint refines (p q : regex) : bool :=
  match p, q with
  | Empty, Empty => true
  | Char a, Char b =>
      Ascii.eqb (JsString.toUpperCaseChar a) (JsString.toUpperCaseChar b)
  | Dot, Dot => true
  | Seq p1 p2, Seq q1 q2 => refines p1 q1 && refines p2 q2
  | Alt p1 p2, Alt q1 q2 => refines p1 q1 && refines p2 q2
  | Star p1, Star q1 => refines p1 q1
  | Opt p1, Opt q1 => refines p1 q1
  | Group _ p1, Group _ q1 => refines p1 q1
  | _, _ => false
  end.

End RegexSpec.

(** ** The cache

    What each cached function stores depends on the user agent and on
    the touch-point count only.  [ideal h] is the cache with every entry
    filled in; a cache is consistent when what it holds agrees with it. *)

Module CacheSpec.
Import Regex.

Definition osValue (h : Host) : value :=
  match identifyOperatingSystem h with
  | Ok v => v
  | TypeError => VUndefined
  end.

Definition osName (h : Host) : string :=
  match osValue h with
  | VOs (VStr name) _ => name
  | _ => EmptyString
  end.

Definition nameHas (h : Host) (p : string) : bool :=
  -1 <? JsString.indexOf (osName h) p.

Definition uaTest (re : RegExp) (h : Host) : bool := test re (userAgent h).

Definition ipadOs (h : Host) : bool := nameHas h "Mac" && has_five_touch_points h.

Definition mobile (h : Host) : bool :=
  uaTest isAndroid_regex h || (uaTest isIos_regex h || (ipadOs h
  || (nameHas h "Fire OS" || (nameHas h "Amazon OS" || (uaTest isBlackberry_regex h
  || (uaTest isWindowsMobile_regex h || uaTest isWebOS_regex h)))))).

Definition ideal (h : Host) : gmap string value :=
  <["getOperatingSystem" := osValue h]>
  (<["isIos" := VBool (uaTest isIos_regex h)]>
  (<["isIphone" := VBool (uaTest isIphone_regex h)]>
  (<["isAndroid" := VBool (uaTest isAndroid_regex h)]>
  (<["isWebOS" := VBool (uaTest isWebOS_regex h)]>
  (<["isBlackberry" := VBool (uaTest isBlackberry_regex h)]>
  (<["isWindowsMobile" := VBool (uaTest isWindowsMobile_regex h)]>
  (<["isKindle" := VBool (nameHas h "Amazon OS")]>
  (<["isKindleFire" := VBool (nameHas h "Fire OS")]>
  (<["isMacOs" := VBool (nameHas h "Mac")]>
  (<["isIpadOs" := VBool (ipadOs h)]>
  (<["isMobile" := VBool (mobile h)]>
  (<["isDesktop" := VBool (negb (mobile h))]> ∅)))))))))))).

Definition consistent (h : Host) (s : State) : Prop := cache s ⊆ ideal h.

(** [good h v m]: from a consistent cache, [m] returns [v], keeps the
    cache consistent and leaves the viewport alone. *)
Definition good {A} (h : Host) (v : A) (m : M A) : Prop :=
  ∀ s, consistent h s →
       ∃ s', m h s = Return v s' ∧ consistent h s'
             ∧ cachedViewport s' = cachedViewport s.

End CacheSpec.

(** ** Calls and the two parts of the state *)

Module StateSpec.

(** The cached functions never touch the viewport, whatever the cache
    holds and whether they return or raise. *)
Definition frames {A} (m : M A) : Prop :=
  ∀ h s, cachedViewport (final_state (m h s)) = cachedViewport s.

(** What [setViewport] stores. *)
Definition measure (h : Host) : Viewport.t :=
  let width := Z.max (clientWidth h) (innerWidth h) in
  let height := Z.max (clientHeight h) (innerHeight h) in
  Viewport.mk width height (Number.div (Number.of_Z width) (Number.of_Z height)).

(** The viewport a read sees: the stored one, or a first measurement. *)
Definition current (h : Host) (s : State) : Viewport.t :=
  match cachedViewport s with
  | Some v => v
  | None => measure h
  end.

Definition seen (h : Host) (s : State) : State :=
  mkState (cache s) (Some (current h s)).

(** Two hosts that are the same device: the user agent and the
    touch-point count do not change while the page lives. *)
Definition same_device (h h' : Host) : Prop :=
  userAgent h' = userAgent h ∧ maxTouchPoints h' = maxTouchPoints h.

End StateSpec.

(** ** Scenarios *)

Module Scenario.
Import Regex RegexSpec.

(** The name [getOperatingSystem] settles on. *)
Definition tableName (h : Host) : string :=
  match testUserAgent h commonOperatingSystems None with
  | Some (_, name) => if String.eqb name EmptyString then "unknown" else name
  | None => "unknown"
  end.

(** The pattern of the [i]-th rule of the table. *)
Definition nth_rule (i : nat) : RegExp :=
  match commonOperatingSystems !! i with
  | Some entry => entry.2
  | None => cs Empty
  end.

(** In every pattern the capture groups are numbered from 1, in the order
    of their opening parentheses. *)
Definition well_numbered (re : RegExp) : bool :=
  bool_decide (groups (source re) = seq 1 (length (groups (source re)))).

(** The pattern matches at some index inside [pre], in [pre +:+ s]. *)
Fixpoint matches_before (re : RegExp) (pre s : string) : bool :=
  match pre with
  | EmptyString => false
  | String _ pre' =>
      match match_at re (pre +:+ s) with
      | Some _ => true
      | None => matches_before re pre' s
      end
  end.

(** The five viewport predicates, called one after the other. *)
Definition viewport_predicates : M (bool * bool * bool * bool * bool) :=
  let* landscape := isLandscape in
  let* portrait := isPortrait in
  let* wide := isWideScreen in
  let* small := isSmallScreen in
  let* large := isLargeScreen in
  ret (landscape, portrait, wide, small, large).

(** Their defining comparisons on a viewport, as the specification gives
    them: aspect ratio above 1, its negation, aspect ratio above
    1440 / 1029, width at most 740 (medium), width at least 1150
    (xlarge). *)
Definition viewport_answers (v : Viewport.t) : bool * bool * bool * bool * bool :=
  let ratio := Viewport.aspectRatio v in
  (Number.ltb (Number.of_Z 1) ratio,
   negb (Number.ltb (Number.of_Z 1) ratio),
   Number.ltb (Number.div (Number.of_Z 1440) (Number.of_Z 1029)) ratio,
   Viewport.width v <=? 740,
   Viewport.width v >=? 1150).

(** The [active] field of the breakpoint called [name]. *)
Definition active_of (name : string) (bps : list Breakpoint.t) : option bool :=
  Breakpoint.active <$> List.find (λ b, String.eqb (Breakpoint.name b) name) bps.

(** The names of the active breakpoints. *)
Definition active_names (bps : list Breakpoint.t) : list string :=
  omap (λ b, if Breakpoint.active b then Some (Breakpoint.name b) else None) bps.

(** A host with the given user agent and touch-point count. *)
Definition device (ua : string) (touch : option Z) : Host :=
  mkHost ua touch None None 1280 720 1280 720.

(** A host with the given window size. *)
Definition window (w h : Z) : Host :=
  mkHost EmptyString None None None w h w h.

Definition iphoneUA : string :=
  "Mozilla/5.0 (iPhone; CPU iPhone OS 10_3_1 like Mac OS X) AppleWebKit/603.1.30 (KHTML, like Gecko) Version/10.0 Mobile/14E304 Safari/602.1".
Definition iphoneToken : string := "iPhone; CPU iPhone OS 10_3_1 like Mac OS X".
Definition ipadUA : string :=
  "Mozilla/5.0 (iPad; CPU OS 11_0 like Mac OS X) AppleWebKit/604.1.34 (KHTML, like Gecko) Version/11.0 Mobile/15A5341f Safari/604.1".
Definition macUA : string :=
  "Mozilla/5.0 (Macintosh; Intel Mac OS X 10_14_4) AppleWebKit/537.36 (KHTML, like Gecko) Chrome/74.0.3729.157 Safari/537.36".
Definition kindleFireUA : string :=
  "Mozilla/5.0 (Linux; Android 4.4.3; KFTHWI Build/KTU84M) AppleWebKit/537.36 (KHTML, like Gecko) Silk/3.68 like Chrome/39.0.2171.93 Safari/537.36".
Definition blackberryUA : string :=
  "Mozilla/5.0 (BlackBerry; U; BlackBerry 9900; en) AppleWebKit/534.11+ (KHTML, like Gecko) Version/7.1.0.346 Mobile Safari/534.11+".
Definition unknownUA : string := "curl/7.64.1".
(** A user agent that carries an earlier "CPU OS" token. *)
Definition twoTokenUA : string :=
  "Mozilla/5.0 (CPU OS 9_0; iPhone; CPU iPhone OS 10_3_1 like Mac OS X) AppleWebKit/603.1.30".

End Scenario.

(** ** Observations on the classifier *)

Module Behaviour.
Import Regex RegexSpec CacheSpec StateSpec Scenario.

(** The computation returns [v], in some state. *)
Definition returns {A} (o : outcome A) (v : A) : Prop := ∃ s, o = Return v s.

(** The states the page can be in: what a sequence of calls leaves behind,
    on one device. *)
Definition reachable (h : Host) (s : State) : Prop :=
  ∃ calls : list (Host * call),
    Forall (λ hc : Host * call, same_device h hc.1) calls ∧ s = run calls initial.

(** The functions that keep their result in [cache]. *)
Definition cached_functions : list (M value) :=
  [getOperatingSystem; isMobile; isDesktop; isIpadOs; isIos; isIphone; isAndroid;
   isWebOS; isBlackberry; isKindle; isKindleFire; isWindowsMobile; isMacOs].

(** The subject [testUserAgent] matches against: [ua || getUserAgent()]. *)
Definition subject (h : Host) (ua : option string) : string :=
  match ua with
  | Some u => if String.eqb u EmptyString then userAgent h else u
  | None => userAgent h
  end.

Definition table_names : list string := map fst commonOperatingSystems.

Fixpoint all_chars (P : ascii → bool) (s : string) : bool :=
  match s with
  | EmptyString => true
  | String a s' => P a && all_chars P s'
  end.

Definition is_digit (a : ascii) : bool :=
  ((48 <=? JsString.code a) && (JsString.code a <=? 57))%N.

(** A digit or a dot. *)
Definition version_char (a : ascii) : bool := is_digit a || Ascii.eqb a ".".

(** A digit, a dot or an underscore. *)
Definition raw_version_char (a : ascii) : bool := version_char a || Ascii.eqb a "_".

(** The 256 characters. *)
Definition all_ascii : list ascii := map ascii_of_nat (seq 0 256).

(** [accepts_only P r]: matching with regard to case, [r] only ever
    consumes characters that satisfy [P]. *)
Fixpoint accepts_only (P : ascii → bool) (r : regex) : bool :=
  match r with
  | Empty => true
  | Char c => P c
  | Dot => forallb (λ a, implb (negb (line_terminator a)) (P a)) all_ascii
  | Class invert ranges =>
      forallb (λ a, implb (xorb invert (class_matches false ranges a)) (P a)) all_ascii
  | Seq r1 r2 | Alt r1 r2 => accepts_only P r1 && accepts_only P r2
  | Star r1 | Opt r1 | Group _ r1 => accepts_only P r1
  end.

(** Every [c] turned into [d]. *)
Fixpoint substitute (c d : ascii) (s : string) : string :=
  match s with
  | EmptyString => EmptyString
  | String a s' => String (if Ascii.eqb a c then d else a) (substitute c d s')
  end.

(** ** Observations on the viewport and the resolution *)

(** The queries that read the viewport. *)
Definition reads_viewport (q : query) : bool :=
  match q with
  | GetViewport | IsLandscape | IsPortrait | IsWideScreen | IsSmallScreen
  | IsLargeScreen | GetBreakpoints => true
  | _ => false
  end.

(** The ratio above which a screen is wide. *)
Definition wide_ratio : spec_float :=
  Number.div (Number.of_Z (xxlarge breakpoints)) (Number.of_Z 1029).

(** [devicePixelRatio] is missing, zero or NaN. *)
Definition no_pixel_ratio (h : Host) : bool :=
  match devicePixelRatio h with
  | Some x => negb (Number.truthy x)
  | None => true
  end.

(** ** Observations on the page *)

(** The class that shows a breakpoint, and the one that shows a property
    of [getState]. *)
Definition breakpoint_class (name : string) : string :=
  classNamePrefixes.breakpoint +:+ "-" +:+ name.
Definition state_class (fnName : string) : string :=
  classNamePrefixes.env +:+ "-" +:+ JsString.toLowerCase fnName.

Definition as_value (m : M bool) : M value := let* b := m in ret (VBool b).

(** The functions [getState] calls, under the names of its properties. *)
Definition state_functions (l : Location) : list (string * M value) :=
  [ ("isApp", read (λ h, VBool (isApp l h))); ("isIos", isIos);
    ("isAndroid", isAndroid); ("isIphone", isIphone); ("isMobile", isMobile);
    ("isDesktop", isDesktop); ("isLandscape", as_value isLandscape);
    ("isPortrait", as_value isPortrait); ("isWideScreen", as_value isWideScreen);
    ("isSmallScreen", as_value isSmallScreen);
    ("isLargeScreen", as_value isLargeScreen);
    ("isHighDensity", read (λ h, VBool (isHighDensity h)));
    ("isRetina", read (λ h, VBool (isRetina h))) ].

Definition state_names : list string :=
  [ "isApp"; "isIos"; "isAndroid"; "isIphone"; "isMobile"; "isDesktop";
    "isLandscape"; "isPortrait"; "isWideScreen"; "isSmallScreen"; "isLargeScreen";
    "isHighDensity"; "isRetina" ].

(** The classes [prepEnvironment] manages. *)
Definition managed_classes : list string :=
  (map (λ e : string * Z, breakpoint_class e.1) (entries breakpoints)
   ++ map state_class state_names)%list.

(** What [getState] returns for a host and a viewport. *)
Definition state_values (l : Location) (h : Host) (v : Viewport.t)
    : list (string * value) :=
  let '(landscape, portrait, wide, small, large) := viewport_answers v in
  [ ("isApp", VBool (isApp l h)); ("isIos", VBool (uaTest isIos_regex h));
    ("isAndroid", VBool (uaTest isAndroid_regex h));
    ("isIphone", VBool (uaTest isIphone_regex h)); ("isMobile", VBool (mobile h));
    ("isDesktop", VBool (negb (mobile h))); ("isLandscape", VBool landscape);
    ("isPortrait", VBool portrait); ("isWideScreen", VBool wide);
    ("isSmallScreen", VBool small); ("isLargeScreen", VBool large);
    ("isHighDensity", VBool (isHighDensity h)); ("isRetina", VBool (isRetina h)) ].

(** One step of either loop of [prepEnvironment], on a class, the name
    that is logged and the value that decides. *)
Definition show (log : bool) (d : Document) (item : string * string * value) : Document :=
  let d := if truthy item.2
           then classList.add item.1.1 d
           else classList.remove item.1.1 d in
  if log then console.log item.1.2 item.2 d else d.

(** The steps of the two loops for a viewport width and the values of
    [getState]. *)
Definition shown (width : Z) (values : list (string * value))
    : list (string * string * value) :=
  (map (λ e : string * Z, (breakpoint_class e.1, e.1, VBool (width >=? e.2)))
       (entries breakpoints)
   ++ map (λ e : string * value, (state_class e.1, e.1, e.2)) values)%list.

(** Whether the steps leave a class set or not; [None] when no step is
    about the class. *)
Fixpoint flag (c : string) (items : list (string * string * value)) : option bool :=
  match items with
  | [] => None
  | item :: items' =>
      match flag c items' with
      | Some b => Some b
      | None => if String.eqb item.1.1 c then Some (truthy item.2) else None
      end
  end.

(** The calls [prepEnvironment] makes that touch the state. *)
Definition prepEnvironment_calls (h : Host) : list (Host * call) :=
  (h, Measure)
  :: map (λ q, (h, Ask q))
       [ GetBreakpoints; IsIos; IsAndroid; IsIphone; IsMobile; IsDesktop; IsLandscape;
         IsPortrait; IsWideScreen; IsSmallScreen; IsLargeScreen ].

(** A function to debounce, for the examples: it adds its argument to a
    counter and returns the old count. *)
Definition add_to_counter (a : Z) (w : Z) : Z * Debounce.completion Z :=
  (w + a, Debounce.Normal w).

(** The browser once the window has taken a new size: client width and
    height, inner width and height. *)
Definition resized (size : Z * Z * Z * Z) (h : Host) : Host :=
  mkHost (userAgent h) (maxTouchPoints h) (devicePixelRatio h) (matchMedia h)
    size.1.1.1 size.1.1.2 size.1.2 size.2.

(** A resize: the window takes its new size, and the listener calls the
    debounced [prepEnvironment]. *)
Definition resize (r : Z * (Z * Z * Z * Z)) : list (Z * Debounce.event Page unit) :=
  [ (r.1, Debounce.Change (λ p : Page, (resized r.2 p.1.1, p.1.2, p.2)));
    (r.1, Debounce.Call tt) ].

Definition resizes (rs : list (Z * (Z * Z * Z * Z))) : list (Z * Debounce.event Page unit) :=
  flat_map resize rs.

End Behaviour.

(** ** Observations on debounce *)

Module DebounceSpec.
Import Debounce.

Section Traces.
Context {World Arg : Type}.

(** The last call so far, with its time. *)
Definition latest (prev : option (Z * Arg)) (te : Z * event World Arg)
    : option (Z * Arg) :=
  match te.2 with
  | Call a => Some (te.1, a)
  | Change _ => prev
  end.

Definition last_call (trace : list (Z * event World Arg)) : option (Z * Arg) :=
  foldl latest None trace.

(** What the changes of a trace make of the world, [func] left aside. *)
Definition changes (trace : list (Z * event World Arg)) (w : World) : World :=
  foldl (λ w te, match te.2 with
                 | Change f => f w
                 | Call _ => w
                 end) w trace.

(** A burst: every event comes less than [wait] after the call before
    it. *)
Fixpoint burst (wait : Z) (prev : option (Z * Arg)) (trace : list (Z * event World Arg))
    : Prop :=
  match trace with
  | [] => True
  | te :: trace' =>
      match prev with
      | Some (t, _) => te.1 < t + wait
      | None => True
      end
      ∧ burst wait (latest prev te) trace'
  end.


Definition is_change (te : Z * event World Arg) : bool :=
  match te.2 with
  | Change _ => true
  | Call _ => false
  end.

End Traces.

Section States.
Context {World Arg Res : Type}.

(** No timer is pending. *)
Definition idle (x : t World Arg Res) : Prop := timers x = [] ∧ timeout x = None.

(** The one timer that is pending is the one of the call [prev], and
    [timeout] holds it. *)
Definition waiting (wait : Z) (prev : option (Z * Arg)) (x : t World Arg Res) : Prop :=
  match prev with
  | Some (t, a) => ∃ i, timers x = [mkTimer i (t + wait) a] ∧ timeout x = Some i
  | None => idle x
  end.

(** At most one timer is pending, the one of the last call. *)
Definition one_timer (wait : Z) (prev : option (Z * Arg)) (x : t World Arg Res) : Prop :=
  (idle x ∨ (is_Some prev ∧ waiting wait prev x))
  ∧ Forall (λ tm, (id tm < next_id x)%nat) (timers x).



(** What [result] holds after [func] has ended. *)
Definition assigned (c : completion Res) (before : option Res) : option Res :=
  match c with
  | Normal r => Some r
  | Abrupt => before
  end.

End States.
End DebounceSpec.

(** * Properties *)

(** ** The matcher *)

Module RegexFacts.
Import Regex RegexSpec.

Lemma length_clear ns caps : length (clear ns caps) = length caps.
Proof.
  unfold clear. induction ns as [|n ns IH]; simpl; [done|].
  by rewrite length_insert.
Qed.

Section Results.
Context {A : Type} (ci : bool) (input : string).

(** Whatever a pattern returns was returned by its continuation, called
    on a capture array of the same length. *)
Lemma rmatch_inv r :
  ∀ (k : continuation) pos rest caps (a : A),
    rmatch ci input r k pos rest caps = Some a →
    ∃ pos' rest' caps', length caps' = length caps ∧ k pos' rest' caps' = Some a.
Proof.
  induction r as [|c| |inv rs|r1 IH1 r2 IH2|r1 IH1 r2 IH2|r IH|r IH|n r IH];
    intros k pos rest caps a H; simpl in H.
  - eauto.
  - unfold step in H. destruct rest as [|x rest]; [done|].
    destruct (char_matches ci c x); [eauto|done].
  - unfold step in H. destruct rest as [|x rest]; [done|].
    destruct (negb (line_terminator x)); [eauto|done].
  - unfold step in H. destruct rest as [|x rest]; [done|].
    destruct (xorb inv (class_matches ci rs x)); [eauto|done].
  - apply IH1 in H as (p1 & s1 & c1 & Hl1 & H).
    apply IH2 in H as (p2 & s2 & c2 & Hl2 & H).
    exists p2, s2, c2. split; [congruence|done].
  - destruct (rmatch ci input r1 k pos rest caps) eqn:E.
    + inversion H; subst. eauto.
    + eauto.
  - remember (String.length rest) as fuel eqn:Hfuel. clear Hfuel.
    revert pos rest caps H.
    induction fuel as [|fuel IHf]; intros pos rest caps H; [eauto|].
    cbn [star_loop] in H.
    match type of H with
    | match ?m with _ => _ end = _ => destruct m eqn:E
    end; [|eauto].
    inversion H; subst.
    apply IH in E as (p1 & s1 & c1 & Hl1 & E).
    destruct (Nat.eqb p1 pos); [done|].
    apply IHf in E as (p2 & s2 & c2 & Hl2 & E).
    exists p2, s2, c2. split; [|done].
    rewrite Hl2, Hl1. apply length_clear.
  - match type of H with
    | match ?m with _ => _ end = _ => destruct m eqn:E
    end; [|eauto].
    inversion H; subst.
    apply IH in E as (p1 & s1 & c1 & Hl1 & E).
    destruct (Nat.eqb p1 pos); [done|].
    exists p1, s1, c1. split; [|done].
    rewrite Hl1. apply length_clear.
  - apply IH in H as (p1 & s1 & c1 & Hl1 & H).
    eexists _, _, _. split; [|exact H].
    by rewrite length_insert.
Qed.
End Results.

(** *** The fuel of the star loop *)

Section Fuel.
Context {A : Type} (ci : bool) (input : string).

Lemma rmatch_None r pos rest caps :
  rmatch (A := A) ci input r (λ _ _ _, None) pos rest caps = None.
Proof.
  destruct (rmatch ci input r (λ _ _ _, None) pos rest caps) eqn:E; [|done].
  by apply rmatch_inv in E as (? & ? & ? & _ & ?).
Qed.

Lemma star_loop_ext (m : continuation (A := A) → nat → string → captures → option A) :
  (∀ (k1 k2 : continuation) pos rest caps,
     (∀ pos' rest' caps',
        (pos' + String.length rest' = pos + String.length rest)%nat →
        (pos ≤ pos')%nat →
        k1 pos' rest' caps' = k2 pos' rest' caps') →
     m k1 pos rest caps = m k2 pos rest caps) →
  ∀ fuel (k1 k2 : continuation) pos rest caps,
    (∀ pos' rest' caps',
       (pos' + String.length rest' = pos + String.length rest)%nat →
       (pos ≤ pos')%nat →
       k1 pos' rest' caps' = k2 pos' rest' caps') →
    star_loop m k1 fuel pos rest caps = star_loop m k2 fuel pos rest caps.
Proof.
  intros Hm. induction fuel as [|fuel IHf]; intros k1 k2 pos rest caps Hk;
    cbn [star_loop].
  - apply Hk; lia.
  - rewrite (Hm _ (λ pos' rest' caps',
                     if Nat.eqb pos' pos then None
                     else star_loop m k2 fuel pos' rest' caps')).
    + rewrite (Hk pos rest caps) by lia. done.
    + intros pos1 rest1 caps1 Hlen Hle.
      destruct (Nat.eqb pos1 pos); [done|].
      apply IHf. intros pos2 rest2 caps2 Hlen2 Hle2. apply Hk; lia.
Qed.

(** A pattern calls its continuation further along the same input only:
    two continuations that agree there give the same result. *)
Lemma rmatch_ext r :
  ∀ (k1 k2 : continuation (A := A)) pos rest caps,
    (∀ pos' rest' caps',
       (pos' + String.length rest' = pos + String.length rest)%nat →
       (pos ≤ pos')%nat →
       k1 pos' rest' caps' = k2 pos' rest' caps') →
    rmatch ci input r k1 pos rest caps = rmatch ci input r k2 pos rest caps.
Proof.
  induction r as [|c| |inv rs|r1 IH1 r2 IH2|r1 IH1 r2 IH2|r IH|r IH|n r IH];
    intros k1 k2 pos rest caps Hk; cbn [rmatch].
  - apply Hk; lia.
  - unfold step. destruct rest as [|x rest]; [done|].
    destruct (char_matches ci c x); [|done]. apply Hk; simpl; lia.
  - unfold step. destruct rest as [|x rest]; [done|].
    destruct (negb (line_terminator x)); [|done]. apply Hk; simpl; lia.
  - unfold step. destruct rest as [|x rest]; [done|].
    destruct (xorb inv (class_matches ci rs x)); [|done]. apply Hk; simpl; lia.
  - apply IH1. intros pos1 rest1 caps1 Hlen Hle.
    apply IH2. intros pos2 rest2 caps2 Hlen2 Hle2. apply Hk; lia.
  - rewrite (IH1 k1 k2) by done. by rewrite (IH2 k1 k2).
  - apply star_loop_ext; [|done].
    intros j1 j2 pos1 rest1 caps1 Hj. by apply IH.
  - rewrite (IH _ (λ pos' rest' caps',
                     if Nat.eqb pos' pos then None else k2 pos' rest' caps')).
    + rewrite (Hk pos rest caps) by lia. done.
    + intros pos1 rest1 caps1 Hlen Hle.
      destruct (Nat.eqb pos1 pos); [done|]. apply Hk; lia.
  - apply IH. intros pos1 rest1 caps1 Hlen Hle. apply Hk; lia.
Qed.

(** One more unit of fuel changes nothing once the fuel covers the rest
    of the input. *)
Lemma star_loop_step r (k : continuation (A := A)) :
  ∀ fuel pos rest caps,
    (String.length rest ≤ fuel)%nat →
    star_loop (λ k' pos' rest' caps', rmatch ci input r k' pos' rest' (clear (groups r) caps'))
      k (S fuel) pos rest caps
    = star_loop (λ k' pos' rest' caps', rmatch ci input r k' pos' rest' (clear (groups r) caps'))
        k fuel pos rest caps.
Proof.
  induction fuel as [|fuel IHf]; intros pos rest caps Hlen.
  - cbn [star_loop].
    rewrite (rmatch_ext r _ (λ _ _ _, None)), rmatch_None; [done|].
    intros pos1 rest1 caps1 Hlen1 Hle.
    assert (pos1 = pos) as -> by lia. by rewrite Nat.eqb_refl.
  - cbn [star_loop].
    rewrite (rmatch_ext r _
               (λ pos' rest' caps',
                  if Nat.eqb pos' pos then None
                  else star_loop
                         (λ k' pos'0 rest'0 caps'0,
                            rmatch ci input r k' pos'0 rest'0 (clear (groups r) caps'0))
                         k fuel pos' rest' caps')); [done|].
    intros pos1 rest1 caps1 Hlen1 Hle.
    destruct (Nat.eqb_spec pos1 pos) as [|Hne]; [done|].
    change (star_loop
              (λ k' pos'0 rest'0 caps'0,
                 rmatch ci input r k' pos'0 rest'0 (clear (groups r) caps'0))
              k (S fuel) pos1 rest1 caps1
            = star_loop
                (λ k' pos'0 rest'0 caps'0,
                   rmatch ci input r k' pos'0 rest'0 (clear (groups r) caps'0))
                k fuel pos1 rest1 caps1).
    apply IHf. lia.
Qed.

(** The fuel [rmatch] gives to the loop, the length of the rest, is as
    good as any larger amount: the loop never runs out. *)
Lemma star_loop_fuel r (k : continuation (A := A)) fuel pos rest caps :
  (String.length rest ≤ fuel)%nat →
  star_loop (λ k' pos' rest' caps', rmatch ci input r k' pos' rest' (clear (groups r) caps'))
    k fuel pos rest caps
  = rmatch ci input (Star r) k pos rest caps.
Proof.
  cbn [rmatch]. intros Hlen.
  induction Hlen as [|fuel Hlen IH]; [done|].
  by rewrite star_loop_step.
Qed.
End Fuel.

(** The array of a successful match has one entry per group after the
    matched text. *)
Lemma match_at_length re s m :
  match_at re s = Some m → length m = S (length (groups (source re))).
Proof.
  unfold match_at. intros H.
  apply rmatch_inv in H as (p & r & c & Hl & H).
  inversion H; subst. simpl. by rewrite Hl, length_replicate.
Qed.

(** When a pattern ends with its only capture group, a successful match
    has captured it. *)
Lemma match_at_last_group re s m r body :
  source re = Seq r (Group 1 body) →
  length (groups (source re)) = 1%nat →
  match_at re s = Some m →
  ∃ whole cap, m = [Some whole; Some cap].
Proof.
  unfold match_at. intros -> Hg H. rewrite Hg in H. simpl in H.
  apply rmatch_inv in H as (p1 & s1 & c1 & Hl1 & H).
  apply rmatch_inv in H as (p2 & s2 & c2 & Hl2 & H).
  inversion H; subst; clear H.
  rewrite Hl1 in Hl2. simpl in Hl2.
  destruct c2 as [|x [|y c2]]; simpl in Hl2; try done.
  simpl. eauto.
Qed.

Lemma exec_Some_inv re s m :
  exec re s = Some m →
  ∃ pre suf, s = pre +:+ suf ∧ match_at re suf = Some m.
Proof.
  induction s as [|c s IH]; simpl.
  - destruct (match_at re EmptyString) eqn:E; [|done].
    intros [= <-]. by exists EmptyString, EmptyString.
  - destruct (match_at re (String c s)) eqn:E.
    + intros [= <-]. by exists EmptyString, (String c s).
    + intros H. apply IH in H as (pre & suf & -> & H).
      by exists (String c pre), suf.
Qed.

Lemma exec_is_Some re pre suf :
  is_Some (match_at re suf) → is_Some (exec re (pre +:+ suf)).
Proof.
  intros [m H]. induction pre as [|c pre IH]; simpl.
  - destruct suf; simpl; rewrite H; by eexists.
  - destruct (match_at re (String c _)); [by eexists|done].
Qed.

Lemma exec_length re s m :
  exec re s = Some m → length m = S (length (groups (source re))).
Proof.
  intros H. apply exec_Some_inv in H as (? & ? & _ & H).
  by eapply match_at_length.
Qed.

Lemma exec_last_group re s m r body :
  source re = Seq r (Group 1 body) →
  length (groups (source re)) = 1%nat →
  exec re s = Some m →
  ∃ whole cap, m = [Some whole; Some cap].
Proof.
  intros Hs Hg H. apply exec_Some_inv in H as (? & ? & _ & H).
  by eapply match_at_last_group.
Qed.

Lemma test_true re s : test re s = true ↔ is_Some (exec re s).
Proof.
  unfold test. destruct (exec re s); split; try done.
Qed.

Lemma test_false re s : test re s = false ↔ exec re s = None.
Proof. unfold test. by destruct (exec re s). Qed.

(** A pattern matches somewhere exactly when it matches at the start of
    some suffix. *)
Lemma test_iff re s :
  test re s = true ↔ ∃ pre suf, s = pre +:+ suf ∧ is_Some (match_at re suf).
Proof.
  rewrite test_true. split.
  - intros [m H]. apply exec_Some_inv in H as (pre & suf & -> & H). eauto.
  - intros (pre & suf & -> & H). by apply exec_is_Some.
Qed.

(** *** Literal patterns *)

Lemma strip_Some w s s' : strip w s = Some s' ↔ s = w +:+ s'.
Proof.
  revert s. induction w as [|a w IH]; intros s; simpl.
  - split; [by intros [= ->]|by intros ->].
  - destruct s as [|b s]; [done|].
    destruct (Ascii.eqb_spec a b) as [->|Hne].
    + rewrite IH. split; [by intros ->|by intros [= ->]].
    + split; [done|]. intros [= ? ?]. done.
Qed.

Lemma strip_app w s : strip w (w +:+ s) = Some s.
Proof. by apply strip_Some. Qed.

(** A literal, matched with regard to case, consumes exactly itself. *)
Lemma rmatch_lit {A} input w (k : continuation (A := A)) pos rest caps :
  rmatch false input (lit w) k pos rest caps
  = match strip w rest with
    | Some rest' => k (pos + String.length w)%nat rest' caps
    | None => None
    end.
Proof.
  revert pos rest. induction w as [|a w IH]; intros pos rest.
  - simpl. by rewrite Nat.add_0_r.
  - destruct w as [|a' w].
    + simpl. unfold step, char_matches. simpl.
      destruct rest as [|b rest]; [done|].
      destruct (Ascii.eqb a b); [|done]. by rewrite Nat.add_1_r.
    + change (lit (String a (String a' w))) with (Seq (Char a) (lit (String a' w))).
      cbn [rmatch]. unfold step, char_matches. cbn [canonicalize].
      destruct rest as [|b rest]; [done|].
      change (strip (String a (String a' w)) (String b rest))
        with (if Ascii.eqb a b then strip (String a' w) rest else None).
      destruct (Ascii.eqb a b); [|done].
      rewrite IH. destruct (strip (String a' w) rest); [|done].
      f_equal. cbn [String.length]. lia.
Qed.

Lemma test_lit w s : test (mkRegExp (lit w) false) s = true ↔ occurs w s.
Proof.
  rewrite test_iff. unfold occurs, match_at. simpl. split.
  - intros (pre & suf & -> & [m H]). rewrite rmatch_lit in H.
    destruct (strip w suf) as [post|] eqn:E; [|done].
    apply strip_Some in E as ->. eauto.
  - intros (pre & post & ->). exists pre, (w +:+ post). split; [done|].
    rewrite rmatch_lit, strip_app. done.
Qed.

(** *** Matching with and without regard to case *)

Section Refinement.
Context {A B : Type} (input input' : string).

(** What [p] matches with regard to case, [q] matches ignoring it. *)
Lemma rmatch_refines p :
  ∀ q (k : continuation (A := A)) (k' : continuation (A := B)) pos rest caps caps',
    refines p q = true →
    (∀ pos1 rest1 c c', is_Some (k pos1 rest1 c) → is_Some (k' pos1 rest1 c')) →
    is_Some (rmatch false input p k pos rest caps) →
    is_Some (rmatch true input' q k' pos rest caps').
Proof.
  induction p as [|a| |inv rs|p1 IH1 p2 IH2|p1 IH1 p2 IH2|p IH|p IH|n p IH];
    intros q k k' pos rest caps caps' Hr Hk H; destruct q; simpl in Hr; try done.
  - simpl in *. by eapply Hk.
  - simpl in *. unfold step in *. destruct rest as [|x rest]; [done|].
    unfold char_matches in *. simpl in *.
    destruct (Ascii.eqb_spec a x) as [->|]; [|done].
    rewrite Ascii.eqb_sym, Hr. by eapply Hk.
  - simpl in *. unfold step in *. destruct rest as [|x rest]; [done|].
    destruct (negb (line_terminator x)); [by eapply Hk|done].
  - apply andb_true_iff in Hr as [Hr1 Hr2]. cbn [rmatch] in *.
    eapply IH1; [done| |done].
    intros pos1 rest1 c c'. by apply IH2.
  - apply andb_true_iff in Hr as [Hr1 Hr2]. cbn [rmatch] in *.
    destruct (rmatch false input p1 k pos rest caps) eqn:E.
    + assert (is_Some (rmatch true input' q1 k' pos rest caps')) as [y ->]
        by (eapply IH1; [done..|by rewrite E]).
      done.
    + destruct (rmatch true input' q1 k' pos rest caps'); [done|].
      by eapply IH2.
  - cbn [rmatch] in *.
    remember (String.length rest) as fuel eqn:Hfuel. clear Hfuel.
    revert pos rest caps caps' H.
    induction fuel as [|fuel IHf]; intros pos rest caps caps' H; [by eapply Hk|].
    cbn [star_loop] in *.
    match type of H with
    | is_Some (match ?m with _ => _ end) => destruct m eqn:E
    end.
    + match goal with
      | |- is_Some (match ?m with _ => _ end) =>
          assert (is_Some m) as [y ->]; [|done]
      end.
      eapply IH; [done| |by rewrite E].
      intros pos1 rest1 c c'. cbv beta.
      destruct (Nat.eqb pos1 pos); [by intros [? ?]|]. apply IHf.
    + match goal with
      | |- is_Some (match ?m with _ => _ end) => destruct m; [done|]
      end.
      by eapply Hk.
  - cbn [rmatch] in *.
    match type of H with
    | is_Some (match ?m with _ => _ end) => destruct m eqn:E
    end.
    + match goal with
      | |- is_Some (match ?m with _ => _ end) =>
          assert (is_Some m) as [y ->]; [|done]
      end.
      eapply IH; [done| |by rewrite E].
      intros pos1 rest1 c c'. cbv beta.
      destruct (Nat.eqb pos1 pos); [by intros [? ?]|]. apply Hk.
    + match goal with
      | |- is_Some (match ?m with _ => _ end) => destruct m; [done|]
      end.
      by eapply Hk.
  - cbn [rmatch] in *. eapply IH; [done| |done].
    intros pos1 rest1 c c'. apply Hk.
Qed.
End Refinement.

Lemma test_refines p q s :
  refines p q = true →
  test (mkRegExp p false) s = true → test (mkRegExp q true) s = true.
Proof.
  intros Hr. rewrite !test_iff. intros (pre & suf & -> & H).
  exists pre, suf. split; [done|].
  unfold match_at in *. simpl in *.
  eapply rmatch_refines; [done| |done]. done.
Qed.

(** Contrapositive, in the form the rule tables need. *)
Lemma exec_None_refines p q s :
  refines p q = true →
  exec (mkRegExp q true) s = None → test (mkRegExp p false) s = false.
Proof.
  intros Hr Hq. destruct (test (mkRegExp p false) s) eqn:E; [|done].
  apply (test_refines p q) in E; [|done].
  apply test_true in E as [m E]. congruence.
Qed.

End RegexFacts.

(** ** The rule tables and the version extractors *)

Module ClassifierFacts.
Import Regex RegexSpec RegexFacts.

(** First match wins: the result names the first rule whose pattern
    matches, and no rule before it matches. *)
Lemma testUserAgent_Some h rules m n :
  testUserAgent h rules None = Some (m, n) →
  ∃ before re after,
    rules = (before ++ (n, re) :: after)%list
    ∧ exec re (userAgent h) = Some m
    ∧ Forall (λ e, exec e.2 (userAgent h) = None) before.
Proof.
  unfold testUserAgent, getUserAgent.
  induction rules as [|[n' re'] rules IH]; [done|]. simpl.
  destruct (exec re' (userAgent h)) eqn:E.
  - intros [= <- <-]. by exists [], re', rules.
  - intros H. apply IH in H as (before & re & after & -> & Hm & Hb).
    exists ((n', re') :: before), re, after. split; [done|].
    split; [done|]. by constructor.
Qed.

Lemma testUserAgent_None h rules :
  testUserAgent h rules None = None ↔
  Forall (λ e, exec e.2 (userAgent h) = None) rules.
Proof.
  unfold testUserAgent, getUserAgent.
  induction rules as [|[n' re'] rules IH]; simpl.
  - split; [by constructor|done].
  - destruct (exec re' (userAgent h)) eqn:E.
    + split; [done|]. intros H. inversion H; simpl in *. congruence.
    + rewrite IH. split; [by constructor|]. by intros H; inversion H.
Qed.

(** The result only depends on where the first match is. *)
Lemma testUserAgent_first h before n re after m :
  Forall (λ e, exec e.2 (userAgent h) = None) before →
  exec re (userAgent h) = Some m →
  testUserAgent h (before ++ (n, re) :: after)%list None = Some (m, n).
Proof.
  unfold testUserAgent, getUserAgent. intros Hb Hm.
  induction Hb as [|[n' re'] before Hx Hb IH]; simpl in *.
  - by rewrite Hm.
  - by rewrite Hx.
Qed.

Import operatingSystemVersions.

Lemma split_join_ok whole cap :
  split_join ([Some whole; Some cap] !! 1%nat)
  = Ok (VStr (JsString.join "." (JsString.split "_" cap))).
Proof. done. Qed.

Lemma ios_ok h : ∃ v, ios h = Ok (VStr v).
Proof.
  unfold ios. destruct (exec ios_regex (userAgent h)) as [m|] eqn:E; [|eauto].
  eapply exec_last_group in E as (whole & cap & ->); [|done..].
  simpl. eauto.
Qed.

Lemma mac_os_ok h : ∃ v, mac_os h = Ok (VStr v).
Proof.
  unfold mac_os. destruct (exec mac_os_regex (userAgent h)) as [m|] eqn:E; [|eauto].
  eapply exec_last_group in E as (whole & cap & ->); [|done..].
  simpl. eauto.
Qed.

Lemma chrome_os_ok h : ∃ v, chrome_os h = Ok v.
Proof.
  unfold chrome_os. destruct (exec chrome_os_regex (userAgent h)); [|eauto].
  destruct (length _ =? 2)%nat; eauto.
Qed.

Lemma android_ok h : ∃ v, android h = Ok (VStr v).
Proof.
  unfold android. destruct (testUserAgent h androidVersions None) as [[m n]|]; [|eauto].
  destruct (String.eqb n EmptyString); [eauto|].
  destruct (length m =? 2)%nat; eauto.
Qed.

(** No user agent makes the identification raise: the result is always
    an object whose name is a string. *)
Lemma identifyOperatingSystem_ok h :
  ∃ name version, identifyOperatingSystem h = Ok (VOs (VStr name) version).
Proof.
  unfold identifyOperatingSystem.
  set (name := match testUserAgent h commonOperatingSystems None with
               | Some (_, name) => if String.eqb name EmptyString then "unknown" else name
               | None => "unknown"
               end).
  unfold lookup.
  destruct (String.eqb (slugify name) "android").
  { destruct (android_ok h) as [v ->]. eauto. }
  destruct (String.eqb (slugify name) "ios").
  { destruct (ios_ok h) as [v ->]. eauto. }
  destruct (String.eqb (slugify name) "chrome_os").
  { destruct (chrome_os_ok h) as [v ->]. eauto. }
  destruct (String.eqb (slugify name) "mac_os").
  { destruct (mac_os_ok h) as [v ->]. eauto. }
  eauto.
Qed.

End ClassifierFacts.

(** ** The cache *)

Module CacheFacts.
Import Regex RegexSpec RegexFacts ClassifierFacts CacheSpec.

Ltac ideal_lookup :=
  unfold ideal; repeat (rewrite lookup_insert_ne by done); apply lookup_insert_eq.

Lemma consistent_initial h : consistent h initial.
Proof. apply map_empty_subseteq. Qed.

Lemma osValue_shape h : osValue h = VOs (VStr (osName h)) (match osValue h with VOs _ v => v | _ => VUndefined end).
Proof.
  unfold osName, osValue.
  by destruct (identifyOperatingSystem_ok h) as (n & v & ->).
Qed.

Lemma identify_osValue h : identifyOperatingSystem h = Ok (osValue h).
Proof.
  unfold osValue. by destruct (identifyOperatingSystem_ok h) as (n & v & ->).
Qed.

Section Rules.
Context (h : Host).

Lemma good_ret {A} (v : A) : good h v (ret v).
Proof. intros s Hs. by exists s. Qed.

Lemma good_bind {A B} (a : A) (b : B) m f :
  good h a m → good h b (f a) → good h b (bind m f).
Proof.
  intros Hm Hf s Hs. unfold bind.
  destruct (Hm s Hs) as (s1 & -> & Hs1 & Hv1).
  destruct (Hf s1 Hs1) as (s2 & -> & Hs2 & Hv2).
  exists s2. split; [done|]. split; [done|]. congruence.
Qed.

Lemma good_host_read (f : Host → value) (m : M value) :
  (∀ s, m h s = Return (f h) s) → good h (f h) m.
Proof. intros Hm s Hs. exists s. by rewrite Hm. Qed.

Lemma good_memo k v compute :
  ideal h !! k = Some v → good h v compute → good h v (memo k compute).
Proof.
  intros Hk Hc s Hs. unfold memo, bind, cache_get at 1.
  destruct (truthy (default VUndefined (cache s !! k))) eqn:Ht.
  - exists s. unfold ret, cache_get.
    destruct (cache s !! k) as [v'|] eqn:E; [|done].
    assert (v' = v) as -> by (by eapply lookup_weaken_inv).
    done.
  - destruct (Hc s Hs) as (s1 & -> & Hs1 & Hv1).
    unfold cache_set, cache_get. simpl.
    eexists. split; [by rewrite lookup_insert_eq|].
    split; [|done].
    unfold consistent. simpl. by apply insert_subseteq_l.
Qed.

Lemma good_or_else a b ma mb :
  good h (VBool a) ma → good h (VBool b) mb →
  good h (VBool (a || b)) (or_else ma mb).
Proof.
  intros Ha Hb. unfold or_else. eapply good_bind; [done|].
  destruct a; simpl; [apply good_ret|done].
Qed.

Lemma good_and_then a b ma mb :
  good h (VBool a) ma → good h (VBool b) mb →
  good h (VBool (a && b)) (and_then ma mb).
Proof.
  intros Ha Hb. unfold and_then. eapply good_bind; [done|].
  destruct a; simpl; [done|apply good_ret].
Qed.

Lemma good_regex_test k re :
  ideal h !! k = Some (VBool (uaTest re h)) →
  good h (VBool (uaTest re h)) (memo k (regex_test re)).
Proof. intros Hk. apply good_memo; [done|]. by apply (good_host_read (λ h, VBool (uaTest re h))). Qed.

Lemma good_getOperatingSystem : good h (osValue h) getOperatingSystem.
Proof.
  apply good_memo; [ideal_lookup|].
  intros s Hs. exists s. unfold lift. by rewrite identify_osValue.
Qed.

Lemma good_name_test k p :
  ideal h !! k = Some (VBool (nameHas h p)) →
  good h (VBool (nameHas h p))
    (memo k (let* v := getOperatingSystem in
             let* os := destructure_name v in
             indexOf_gt_minus1 os p)).
Proof.
  intros Hk. apply good_memo; [done|].
  eapply good_bind; [apply good_getOperatingSystem|].
  rewrite osValue_shape. simpl.
  eapply good_bind; [apply good_ret|]. apply good_ret.
Qed.

Lemma good_isIos : good h (VBool (uaTest isIos_regex h)) isIos.
Proof. apply good_regex_test. ideal_lookup. Qed.
Lemma good_isIphone : good h (VBool (uaTest isIphone_regex h)) isIphone.
Proof. apply good_regex_test. ideal_lookup. Qed.
Lemma good_isAndroid : good h (VBool (uaTest isAndroid_regex h)) isAndroid.
Proof. apply good_regex_test. ideal_lookup. Qed.
Lemma good_isWebOS : good h (VBool (uaTest isWebOS_regex h)) isWebOS.
Proof. apply good_regex_test. ideal_lookup. Qed.
Lemma good_isBlackberry : good h (VBool (uaTest isBlackberry_regex h)) isBlackberry.
Proof. apply good_regex_test. ideal_lookup. Qed.
Lemma good_isWindowsMobile :
  good h (VBool (uaTest isWindowsMobile_regex h)) isWindowsMobile.
Proof. apply good_regex_test. ideal_lookup. Qed.

Lemma good_isKindle : good h (VBool (nameHas h "Amazon OS")) isKindle.
Proof. apply good_name_test. ideal_lookup. Qed.
Lemma good_isKindleFire : good h (VBool (nameHas h "Fire OS")) isKindleFire.
Proof. apply good_name_test. ideal_lookup. Qed.
Lemma good_isMacOs : good h (VBool (nameHas h "Mac")) isMacOs.
Proof. apply good_name_test. ideal_lookup. Qed.

Lemma good_isIpadOs : good h (VBool (ipadOs h)) isIpadOs.
Proof.
  apply good_memo; [ideal_lookup|].
  apply good_and_then; [apply good_isMacOs|].
  by apply (good_host_read (λ h, VBool (has_five_touch_points h))).
Qed.

Lemma good_isMobile : good h (VBool (mobile h)) isMobile.
Proof.
  apply good_memo; [ideal_lookup|]. unfold mobile.
  repeat apply good_or_else;
    auto using good_isAndroid, good_isIos, good_isIpadOs, good_isKindleFire,
      good_isKindle, good_isBlackberry, good_isWindowsMobile, good_isWebOS.
Qed.

Lemma good_isDesktop : good h (VBool (negb (mobile h))) isDesktop.
Proof.
  apply good_memo; [ideal_lookup|]. unfold not_.
  eapply good_bind; [apply good_isMobile|]. apply good_ret.
Qed.
End Rules.

End CacheFacts.

(** ** Calls and the two parts of the state *)

Module StateFacts.
Import CacheSpec CacheFacts StateSpec.

Lemma frames_ret {A} (a : A) : frames (ret a).
Proof. done. Qed.

Lemma frames_throw {A} : frames (throw (A := A)).
Proof. done. Qed.

Lemma frames_lift {A} (f : Host → result A) : frames (lift f).
Proof. intros h s. unfold lift. by destruct (f h). Qed.

Lemma frames_bind {A B} (m : M A) (f : A → M B) :
  frames m → (∀ a, frames (f a)) → frames (bind m f).
Proof.
  intros Hm Hf h s. unfold bind. specialize (Hm h s).
  destruct (m h s) as [a s1|s1]; simpl in *; [|done].
  by rewrite Hf.
Qed.

Lemma frames_cache_get k : frames (cache_get k).
Proof. done. Qed.

Lemma frames_cache_set k v : frames (cache_set k v).
Proof. done. Qed.

Lemma frames_memo k compute : frames compute → frames (memo k compute).
Proof.
  intros Hc. unfold memo.
  apply frames_bind; [apply frames_cache_get|]. intros c.
  apply frames_bind; [|intros; apply frames_cache_get].
  destruct (truthy c); [apply frames_ret|].
  apply frames_bind; [done|]. intros; apply frames_cache_set.
Qed.

Lemma frames_or_else a b : frames a → frames b → frames (or_else a b).
Proof.
  intros Ha Hb. apply frames_bind; [done|]. intros v.
  destruct (truthy v); [apply frames_ret|done].
Qed.

Lemma frames_and_then a b : frames a → frames b → frames (and_then a b).
Proof.
  intros Ha Hb. apply frames_bind; [done|]. intros v.
  destruct (truthy v); [done|apply frames_ret].
Qed.

Lemma frames_regex_test re : frames (regex_test re).
Proof. done. Qed.

Lemma frames_five_touch_points : frames five_touch_points.
Proof. done. Qed.

Lemma frames_destructure_name v : frames (destructure_name v).
Proof. by destruct v. Qed.

Lemma frames_indexOf_gt_minus1 v p : frames (indexOf_gt_minus1 v p).
Proof. by destruct v. Qed.

Lemma frames_not_ m : frames m → frames (not_ m).
Proof. intros Hm. apply frames_bind; [done|]. intros; apply frames_ret. Qed.

Create HintDb frames.
#[local] Hint Resolve frames_ret frames_throw frames_lift frames_cache_get
  frames_cache_set frames_memo frames_or_else frames_and_then frames_regex_test
  frames_five_touch_points frames_destructure_name frames_indexOf_gt_minus1
  frames_not_ : frames.
#[local] Hint Extern 2 (frames (bind _ _)) => apply frames_bind; [|intros] : frames.

Lemma frames_getOperatingSystem : frames getOperatingSystem.
Proof. unfold getOperatingSystem. auto with frames. Qed.
#[local] Hint Resolve frames_getOperatingSystem : frames.

Lemma frames_isIos : frames isIos.
Proof. unfold isIos. auto with frames. Qed.
Lemma frames_isIphone : frames isIphone.
Proof. unfold isIphone. auto with frames. Qed.
Lemma frames_isAndroid : frames isAndroid.
Proof. unfold isAndroid. auto with frames. Qed.
Lemma frames_isWebOS : frames isWebOS.
Proof. unfold isWebOS. auto with frames. Qed.
Lemma frames_isBlackberry : frames isBlackberry.
Proof. unfold isBlackberry. auto with frames. Qed.
Lemma frames_isWindowsMobile : frames isWindowsMobile.
Proof. unfold isWindowsMobile. auto with frames. Qed.
Lemma frames_isKindle : frames isKindle.
Proof. unfold isKindle. auto 10 with frames. Qed.
Lemma frames_isKindleFire : frames isKindleFire.
Proof. unfold isKindleFire. auto 10 with frames. Qed.
Lemma frames_isMacOs : frames isMacOs.
Proof. unfold isMacOs. auto 10 with frames. Qed.
#[local] Hint Resolve frames_isIos frames_isIphone frames_isAndroid frames_isWebOS
  frames_isBlackberry frames_isWindowsMobile frames_isKindle frames_isKindleFire
  frames_isMacOs : frames.

Lemma frames_isIpadOs : frames isIpadOs.
Proof. unfold isIpadOs. auto with frames. Qed.
#[local] Hint Resolve frames_isIpadOs : frames.

Lemma frames_isMobile : frames isMobile.
Proof. unfold isMobile. auto 20 with frames. Qed.
#[local] Hint Resolve frames_isMobile : frames.

Lemma frames_isDesktop : frames isDesktop.
Proof. unfold isDesktop. auto with frames. Qed.

(** *** The viewport *)

Lemma setViewport_spec h s :
  setViewport h s = Return tt (mkState (cache s) (Some (measure h))).
Proof. done. Qed.

Lemma getViewport_spec h s :
  getViewport h s = Return (Some (current h s)) (seen h s).
Proof.
  unfold getViewport, bind, seen, current.
  destruct s as [c [v|]]; done.
Qed.

Lemma getAspectRatio_spec h s :
  getAspectRatio h s = Return (Viewport.aspectRatio (current h s)) (seen h s).
Proof. unfold getAspectRatio, bind. by rewrite getViewport_spec. Qed.

Lemma isLandscape_spec h s :
  isLandscape h s
  = Return (Number.ltb (Number.of_Z 1) (Viewport.aspectRatio (current h s))) (seen h s).
Proof. unfold isLandscape, bind. by rewrite getAspectRatio_spec. Qed.

Lemma isPortrait_spec h s :
  isPortrait h s
  = Return (negb (Number.ltb (Number.of_Z 1) (Viewport.aspectRatio (current h s))))
      (seen h s).
Proof. unfold isPortrait, bind. by rewrite isLandscape_spec. Qed.

Lemma isWideScreen_spec h s :
  isWideScreen h s
  = Return (Number.ltb (Number.div (Number.of_Z 1440) (Number.of_Z 1029))
              (Viewport.aspectRatio (current h s))) (seen h s).
Proof. unfold isWideScreen, bind. by rewrite getAspectRatio_spec. Qed.

Lemma isSmallScreen_spec h s :
  isSmallScreen h s = Return (Viewport.width (current h s) <=? 740) (seen h s).
Proof. unfold isSmallScreen, bind. by rewrite getViewport_spec. Qed.

Lemma isLargeScreen_spec h s :
  isLargeScreen h s = Return (Viewport.width (current h s) >=? 1150) (seen h s).
Proof. unfold isLargeScreen, bind. by rewrite getViewport_spec. Qed.

Lemma getBreakpoints_spec h s :
  getBreakpoints h s
  = Return (map (λ e : string * Z,
                   Breakpoint.mk e.2 e.1 (Viewport.width (current h s) >=? e.2))
              (entries breakpoints)) (seen h s).
Proof. unfold getBreakpoints, bind. by rewrite getViewport_spec. Qed.

(** A query never replaces a stored viewport. *)
Lemma ask_keeps_viewport q h s v :
  cachedViewport s = Some v → cachedViewport (ask q h s) = Some v.
Proof.
  intros Hv.
  destruct q; simpl;
    rewrite ?frames_getOperatingSystem, ?frames_isMobile, ?frames_isDesktop,
      ?frames_isIpadOs, ?frames_isIos, ?frames_isIphone, ?frames_isAndroid,
      ?frames_isWebOS, ?frames_isBlackberry, ?frames_isKindle, ?frames_isKindleFire,
      ?frames_isWindowsMobile, ?frames_isMacOs,
      ?getViewport_spec, ?isLandscape_spec, ?isPortrait_spec, ?isWideScreen_spec,
      ?isSmallScreen_spec, ?isLargeScreen_spec, ?getBreakpoints_spec;
    try done; simpl; unfold current; by rewrite Hv.
Qed.

Lemma run_queries_keeps_viewport qs s v :
  cachedViewport s = Some v → cachedViewport (run_queries qs s) = Some v.
Proof.
  revert s. induction qs as [|[h q] qs IH]; intros s Hv; [done|].
  simpl. apply IH. by apply ask_keeps_viewport.
Qed.

(** *** Consistency along a sequence of calls *)

Lemma testUserAgent_same_device h h' rules :
  same_device h h' → testUserAgent h' rules None = testUserAgent h rules None.
Proof. intros [Hua _]. unfold testUserAgent, getUserAgent. by rewrite Hua. Qed.

Lemma identify_same_device h h' :
  same_device h h' → identifyOperatingSystem h' = identifyOperatingSystem h.
Proof.
  intros Hd. unfold identifyOperatingSystem.
  rewrite (testUserAgent_same_device h h') by done.
  unfold operatingSystemVersions.lookup.
  repeat match goal with
         | |- context [if ?b then _ else _] => destruct b
         end; try done.
  - unfold operatingSystemVersions.android.
    by rewrite (testUserAgent_same_device h h').
  - unfold operatingSystemVersions.ios. by rewrite (proj1 Hd).
  - unfold operatingSystemVersions.chrome_os. by rewrite (proj1 Hd).
  - unfold operatingSystemVersions.mac_os. by rewrite (proj1 Hd).
Qed.

Lemma ideal_same_device h h' : same_device h h' → ideal h' = ideal h.
Proof.
  intros Hd.
  assert (osValue h' = osValue h) as Hos
    by (unfold osValue; by rewrite (identify_same_device h h')).
  assert (∀ p, nameHas h' p = nameHas h p) as Hn
    by (intros p; unfold nameHas, osName; by rewrite Hos).
  assert (∀ re, uaTest re h' = uaTest re h) as Ht
    by (intros re; unfold uaTest; by rewrite (proj1 Hd)).
  assert (has_five_touch_points h' = has_five_touch_points h) as Hf
    by (unfold has_five_touch_points; by rewrite (proj2 Hd)).
  unfold ideal, mobile, ipadOs. by rewrite Hos, !Hn, !Ht, Hf.
Qed.

Lemma good_final {A} h h' (v : A) m s :
  same_device h h' → good h' v m → consistent h s →
  consistent h (final_state (m h' s)).
Proof.
  intros Hd Hm Hs. unfold consistent in *.
  rewrite <- (ideal_same_device h h' Hd) in *.
  destruct (Hm s Hs) as (s' & -> & Hs' & _). done.
Qed.

Lemma ask_consistent q h h' s :
  same_device h h' → consistent h s → consistent h (ask q h' s).
Proof.
  intros Hd Hs.
  destruct q; simpl;
    eauto using good_final, good_getOperatingSystem, good_isMobile, good_isDesktop,
      good_isIpadOs, good_isIos, good_isIphone, good_isAndroid, good_isWebOS,
      good_isBlackberry, good_isKindle, good_isKindleFire, good_isWindowsMobile,
      good_isMacOs;
    rewrite ?getViewport_spec, ?isLandscape_spec, ?isPortrait_spec,
      ?isWideScreen_spec, ?isSmallScreen_spec, ?isLargeScreen_spec,
      ?getBreakpoints_spec; done.
Qed.

Lemma perform_consistent c h h' s :
  same_device h h' → consistent h s → consistent h (perform c h' s).
Proof.
  intros Hd Hs. destruct c; [done|]. by apply ask_consistent.
Qed.

(** Every state a page can reach from the initial one is consistent. *)
Lemma run_consistent h calls s :
  Forall (λ hc, same_device h hc.1) calls →
  consistent h s → consistent h (run calls s).
Proof.
  intros Hd. revert s. induction Hd as [|[h' c] calls Hx Hd IH]; intros s Hs; [done|].
  simpl. apply IH. by apply perform_consistent.
Qed.

End StateFacts.

(** ** The operating-system table *)

Module TableFacts.
Import Regex RegexSpec RegexFacts ClassifierFacts CacheSpec CacheFacts Scenario.

Lemma identify_tableName h :
  ∃ version, identifyOperatingSystem h = Ok (VOs (VStr (tableName h)) version).
Proof.
  destruct (identifyOperatingSystem_ok h) as (n & v & H).
  unfold identifyOperatingSystem in *. fold (tableName h) in *.
  destruct (operatingSystemVersions.lookup (slugify (tableName h))) as [f|].
  - destruct (f h); [|done]. eauto.
  - eauto.
Qed.

Lemma osName_tableName h : osName h = tableName h.
Proof.
  unfold osName, osValue. by destruct (identify_tableName h) as [v ->].
Qed.

(** No rule matches: the name is 'unknown' and the version is empty. *)
Lemma osValue_unknown h :
  testUserAgent h commonOperatingSystems None = None →
  osValue h = VOs (VStr "unknown") (VStr EmptyString).
Proof.
  intros H. unfold osValue, identifyOperatingSystem. by rewrite H.
Qed.

Lemma osValue_ios h :
  tableName h = "iOS" →
  ∀ v, operatingSystemVersions.ios h = Ok v → osValue h = VOs (VStr "iOS") v.
Proof.
  intros H v Hv. unfold osValue, identifyOperatingSystem.
  fold (tableName h). rewrite H. simpl. by rewrite Hv.
Qed.

(** A rule whose name, like the names of all rules before it, differs
    from the result did not match. *)
Lemma first_match_skips h rules m n i e :
  testUserAgent h rules None = Some (m, n) →
  rules !! i = Some e →
  (∀ j e', (j ≤ i)%nat → rules !! j = Some e' → e'.1 ≠ n) →
  exec e.2 (userAgent h) = None.
Proof.
  intros H Hi Hn.
  apply testUserAgent_Some in H as (before & re & after & -> & Hm & Hb).
  destruct (decide (i < length before)%nat) as [Hlt|Hge].
  - rewrite lookup_app_l in Hi by done.
    by eapply (Forall_lookup_1 _ _ _ _ Hb).
  - exfalso. apply (Hn (length before) (n, re)); [lia| |done].
    by rewrite list_lookup_middle.
Qed.

Lemma rule_misses h i :
  testUserAgent h commonOperatingSystems None = None →
  is_Some (commonOperatingSystems !! i) →
  exec (nth_rule i) (userAgent h) = None.
Proof.
  intros H [e Hi]. apply testUserAgent_None in H.
  unfold nth_rule. rewrite Hi.
  by eapply (Forall_lookup_1 _ _ _ _ H).
Qed.

Lemma rule_skipped h m n i :
  testUserAgent h commonOperatingSystems None = Some (m, n) →
  is_Some (commonOperatingSystems !! i) →
  (∀ j e', (j ≤ i)%nat → commonOperatingSystems !! j = Some e' → e'.1 ≠ n) →
  exec (nth_rule i) (userAgent h) = None.
Proof.
  intros H [e Hi] Hn. unfold nth_rule. rewrite Hi.
  by eapply first_match_skips.
Qed.

(** A user agent with 'iPhone' in it matches the first rule. *)
Lemma iPhone_matches_ios_rule s :
  test isIphone_regex s = true → is_Some (exec (nth_rule 0) s).
Proof.
  intros H. apply test_lit in H as (pre & post & ->).
  apply exec_is_Some. vm_compute. by eexists.
Qed.

(** The device predicates look for what the rules of the table look
    for: when those rules miss, the predicates are false. *)
Lemma ua_tests_false h :
  exec (nth_rule 0) (userAgent h) = None →
  exec (nth_rule 1) (userAgent h) = None →
  exec (nth_rule 2) (userAgent h) = None →
  exec (nth_rule 3) (userAgent h) = None →
  exec (nth_rule 22) (userAgent h) = None →
  uaTest isIos_regex h = false ∧ uaTest isIphone_regex h = false
  ∧ uaTest isAndroid_regex h = false ∧ uaTest isBlackberry_regex h = false
  ∧ uaTest isWindowsMobile_regex h = false ∧ uaTest isWebOS_regex h = false.
Proof.
  intros H0 H1 H2 H3 H22. unfold uaTest. repeat split.
  - by eapply exec_None_refines; [|exact H0].
  - destruct (test isIphone_regex (userAgent h)) eqn:E; [|done].
    apply iPhone_matches_ios_rule in E as [m E]. congruence.
  - by eapply exec_None_refines; [|exact H1].
  - by eapply exec_None_refines; [|exact H2].
  - by eapply exec_None_refines; [|exact H3].
  - by eapply exec_None_refines; [|exact H22].
Qed.

Lemma unknown_not_mobile h :
  testUserAgent h commonOperatingSystems None = None →
  uaTest isIos_regex h = false ∧ uaTest isIphone_regex h = false
  ∧ uaTest isAndroid_regex h = false ∧ uaTest isBlackberry_regex h = false
  ∧ uaTest isWindowsMobile_regex h = false ∧ uaTest isWebOS_regex h = false.
Proof.
  intros H. apply ua_tests_false; by apply rule_misses.
Qed.

Ltac earlier_names :=
  let j := fresh "j" in
  let e := fresh "e" in
  intros j e ?;
  repeat (destruct j as [|j]; [by intros [= <-]|]); lia.

Lemma mac_not_mobile h m :
  testUserAgent h commonOperatingSystems None = Some (m, "Mac OS") →
  uaTest isIos_regex h = false ∧ uaTest isIphone_regex h = false
  ∧ uaTest isAndroid_regex h = false ∧ uaTest isBlackberry_regex h = false
  ∧ uaTest isWindowsMobile_regex h = false ∧ uaTest isWebOS_regex h = false.
Proof.
  intros H. apply ua_tests_false;
    (eapply rule_skipped; [exact H|done|earlier_names]).
Qed.

(** 'Mac OS' is the only name of the table with 'Mac' in it. *)
Lemma nameHas_Mac h :
  nameHas h "Mac" = true →
  ∃ m, testUserAgent h commonOperatingSystems None = Some (m, "Mac OS").
Proof.
  unfold nameHas. rewrite osName_tableName. unfold tableName.
  destruct (testUserAgent h commonOperatingSystems None) as [[m n]|] eqn:E; [|done].
  intros H. exists m.
  apply testUserAgent_Some in E as (before & re & after & Ht & _ & _).
  assert ((n, re) ∈ commonOperatingSystems) as Hin
    by (rewrite Ht; apply elem_of_app; right; left).
  clear Ht. unfold commonOperatingSystems in Hin.
  repeat (apply elem_of_cons in Hin as [[= -> _]|Hin]; [by vm_compute in H|]).
  by apply not_elem_of_nil in Hin.
Qed.

Lemma nameHas_of_name h name p :
  tableName h = name → nameHas h p = (-1 <? JsString.indexOf name p).
Proof. intros <-. unfold nameHas. by rewrite osName_tableName. Qed.

Lemma tableName_Some h m n :
  testUserAgent h commonOperatingSystems None = Some (m, n) →
  n ≠ EmptyString → tableName h = n.
Proof.
  intros H Hn. unfold tableName. rewrite H.
  destruct (String.eqb_spec n EmptyString); done.
Qed.

Lemma has_five_touch_points_iff h :
  has_five_touch_points h = true ↔ maxTouchPoints h = Some 5.
Proof.
  unfold has_five_touch_points. destruct (maxTouchPoints h) as [n|]; [|done].
  split.
  - intros [_ H%Z.eqb_eq]%andb_true_iff. by subst.
  - by intros [= ->].
Qed.

End TableFacts.

(** ** The user agents quoted in the source *)

Module Examples.
Import Regex RegexSpec Scenario.

(** In every pattern of the source the capture groups are numbered from 1. *)
Lemma patterns_well_numbered :
  forallb well_numbered
    (map snd commonOperatingSystems ++ map snd androidVersions
     ++ [ios_regex; chrome_os_regex; mac_os_regex; isIos_regex; isIphone_regex;
         isAndroid_regex; isWebOS_regex; isBlackberry_regex; isWindowsMobile_regex;
         isRetina_regex])%list
  = true.
Proof. by vm_compute. Qed.

Lemma version_of_iphone :
  operatingSystemVersions.ios (device iphoneUA None) = Ok (VStr "10.3.1").
Proof. by vm_compute. Qed.

Lemma version_of_ipad :
  operatingSystemVersions.ios (device ipadUA None) = Ok (VStr "11.0").
Proof. by vm_compute. Qed.

Lemma version_of_chrome_os_x86 :
  operatingSystemVersions.chrome_os
    (device "Mozilla/5.0 (X11; CrOS x86_64 11895.95.0) AppleWebKit/537.36 (KHTML, like Gecko) Chrome/74.0.3729.125 Safari/537.36" None)
  = Ok (VStr "11895.95.0").
Proof. by vm_compute. Qed.

Lemma version_of_chrome_os_arm :
  operatingSystemVersions.chrome_os
    (device "Mozilla/5.0 (X11; CrOS armv7l 10575.58.0) AppleWebKit/537.36 (KHTML, like Gecko) Chrome/67.0.3396.99 Safari/537.36" None)
  = Ok (VStr "10575.58.0").
Proof. by vm_compute. Qed.

Lemma version_of_mac_chrome :
  operatingSystemVersions.mac_os (device macUA None) = Ok (VStr "10.14.4").
Proof. by vm_compute. Qed.

Lemma version_of_mac_safari :
  operatingSystemVersions.mac_os
    (device "Mozilla/5.0 (Macintosh; Intel Mac OS X 10_12_6) AppleWebKit/605.1.15 (KHTML, like Gecko) Version/12.1.1 Safari/605.1.15" None)
  = Ok (VStr "10.12.6").
Proof. by vm_compute. Qed.

Lemma version_of_mac_firefox :
  operatingSystemVersions.mac_os
    (device "Mozilla/5.0 (Macintosh; Intel Mac OS X 10.13; rv:61.0) Gecko/20100101 Firefox/61.0" None)
  = Ok (VStr "10.13").
Proof. by vm_compute. Qed.

Lemma version_of_android_pie :
  identifyOperatingSystem
    (device "Mozilla/5.0 (Linux; Android 9; Pixel 3) AppleWebKit/537.36 (KHTML, like Gecko) Chrome/74.0.3729.157 Mobile Safari/537.36" None)
  = Ok (VOs (VStr "Android") (VStr "9 (Pie)")).
Proof. by vm_compute. Qed.

Lemma chrome_os_is_named :
  identifyOperatingSystem
    (device "Mozilla/5.0 (X11; CrOS x86_64 11895.95.0) AppleWebKit/537.36 (KHTML, like Gecko) Chrome/74.0.3729.125 Safari/537.36" None)
  = Ok (VOs (VStr "Chrome OS") (VStr "11895.95.0")).
Proof. by vm_compute. Qed.

(** The Silk browser in desktop mode announces a Macintosh; the Fire OS
    rule comes before the Mac OS rule and names it. *)
Lemma silk_desktop_mode :
  identifyOperatingSystem
    (device "Mozilla/5.0 (Macintosh; U; Intel Mac OS X 10_6_3; en-us; Silk/1.0.13.81_10003810) AppleWebKit/533.16 (KHTML, like Gecko) Version/5.0 Safari/533.16 Silk-Accelerated=true" None)
  = Ok (VOs (VStr "Fire OS") (VStr EmptyString)).
Proof. by vm_compute. Qed.

(** 1.3 as a double. *)
Lemma number_1_3 :
  Number.div (Number.of_Z 13) (Number.of_Z 10) = S754_finite false 5854679515581645 (-52).
Proof. by vm_compute. Qed.

End Examples.

(** * The claims *)

Import Regex RegexSpec RegexFacts ClassifierFacts CacheSpec CacheFacts StateSpec
  StateFacts Scenario TableFacts.

(** Supporting fact for C1, for every user agent: when the Android rule
    matches, the name is 'iOS' or 'Android', never 'Fire OS'. *)
Lemma android_rule_shadows_fire_os h :
  is_Some (exec (nth_rule 1) (userAgent h)) →
  (tableName h = "iOS" ∨ tableName h = "Android") ∧ nameHas h "Fire OS" = false.
Proof.
  intros [m Hm].
  assert (tableName h = "iOS" ∨ tableName h = "Android") as Hn.
  { destruct (exec (nth_rule 0) (userAgent h)) as [m0|] eqn:E0.
    - left. apply (tableName_Some h m0); [|done].
      by apply (testUserAgent_first h [] "iOS" (nth_rule 0)
                  (drop 1 commonOperatingSystems)).
    - right. apply (tableName_Some h m); [|done].
      apply (testUserAgent_first h (take 1 commonOperatingSystems) "Android"
               (nth_rule 1) (drop 2 commonOperatingSystems)); [|done].
      by repeat constructor. }
  split; [done|].
  destruct Hn as [Hn|Hn]; by rewrite (nameHas_of_name h _ _ Hn).
Qed.

(** C1 (the code departs from the claim).  The claim: the Fire OS rule
    precedes the generic Android rule, so that a user agent matching both
    is named 'Fire OS' and isKindleFire() is true.  In the table the
    Android rule is at index 1 and the Fire OS rule at index 4; for the
    Kindle Fire user agent below both patterns match, and
    getOperatingSystem() returns the name 'Android' while isKindleFire()
    returns false. *)
Theorem fire_os_rule_after_android_rule :
  let h := device kindleFireUA None in
  (∃ re, commonOperatingSystems !! 1%nat = Some ("Android", re)
         ∧ test re (userAgent h) = true)
  ∧ (∃ re, commonOperatingSystems !! 4%nat = Some ("Fire OS", re)
           ∧ test re (userAgent h) = true)
  ∧ (∃ s, getOperatingSystem h initial
          = Return (VOs (VStr "Android") (VStr "4.4 (KitKat)")) s)
  ∧ (∃ s, isKindleFire h initial = Return (VBool false) s).
Proof.
  repeat split.
  - eexists. split; [reflexivity|]. by vm_compute.
  - eexists. split; [reflexivity|]. by vm_compute.
  - eexists. by vm_compute.
  - eexists. by vm_compute.
Qed.

(** C10.  There is a user agent with 'BlackBerry' in it, without 'BB10'
    and without any other mobile token, that getOperatingSystem() names
    'BlackBerry OS' while isBlackberry() is false, isMobile() is false and
    isDesktop() is true: the predicate looks for 'Blackberry' with regard
    to case, the table for 'BlackBerry' without. *)
Theorem blackberry_classifier_and_predicate_disagree :
  ∃ ua : string,
    let h := device ua None in
    occurs "BlackBerry" ua ∧ ¬ occurs "BB10" ua
    ∧ source isBlackberry_regex = (lit "Blackberry" ∣ lit "BB10")%re
    ∧ ignoreCase isBlackberry_regex = false
    ∧ commonOperatingSystems !! 2%nat
      = Some ("BlackBerry OS", mkRegExp (lit "BlackBerry" ∣ lit "BB10")%re true)
    ∧ (∃ s, getOperatingSystem h initial
            = Return (VOs (VStr "BlackBerry OS") (VStr EmptyString)) s)
    ∧ (∃ s, isBlackberry h initial = Return (VBool false) s)
    ∧ (∃ s, isMobile h initial = Return (VBool false) s)
    ∧ (∃ s, isDesktop h initial = Return (VBool true) s).
Proof.
  exists blackberryUA. cbv zeta. repeat split.
  - apply test_lit. by vm_compute.
  - intros H%test_lit. by vm_compute in H.
  - eexists. by vm_compute.
  - eexists. by vm_compute.
  - eexists. by vm_compute.
  - eexists. by vm_compute.
Qed.

(** ** Breakpoints and sizes *)

Lemma seen_id h s v : cachedViewport s = Some v → seen h s = s.
Proof. unfold seen, current. destruct s as [c o]. simpl. by intros ->. Qed.

Lemma current_stored h s v : cachedViewport s = Some v → current h s = v.
Proof. unfold current. by intros ->. Qed.

(** C4, against the claim as stated: with a viewport of width 600 and
    height 800 the entry 'medium' of getBreakpoints() is not active. *)
Lemma medium_inactive_at_600 :
  let h := window 600 800 in
  let s := final_state (setViewport h initial) in
  ¬ ((∃ s', isSmallScreen h s = Return true s')
     ∧ (∃ s', isLargeScreen h s = Return false s')
     ∧ (∃ bps s', getBreakpoints h s = Return bps s'
                  ∧ active_of "medium" bps = Some true
                  ∧ active_of "large" bps = Some false)).
Proof.
  cbv zeta. intros (_ & _ & bps & s' & Hb & Hm & _).
  vm_compute in Hb. injection Hb as <- _. by vm_compute in Hm.
Qed.

(** C4 (amended).  When the current viewport has width 600 and height
    800, isSmallScreen() returns true, isLargeScreen() returns false, and
    in getBreakpoints() the entry 'small' (threshold 600) is active while
    the entries 'medium' (threshold 740) and 'large' are not. *)
Theorem sizes_at_600_by_800 :
  ∀ (h : Host) (s : State) (v : Viewport.t),
    cachedViewport s = Some v →
    Viewport.width v = 600 → Viewport.height v = 800 →
    isSmallScreen h s = Return true s
    ∧ isLargeScreen h s = Return false s
    ∧ ∃ bps, getBreakpoints h s = Return bps s
             ∧ active_of "small" bps = Some true
             ∧ active_of "medium" bps = Some false
             ∧ active_of "large" bps = Some false.
Proof.
  intros h s v Hv Hw _.
  rewrite isSmallScreen_spec, isLargeScreen_spec, getBreakpoints_spec.
  rewrite (seen_id h s v Hv), (current_stored h s v Hv), Hw.
  split; [done|]. split; [done|]. eexists. split; [reflexivity|]. done.
Qed.

Lemma sizes_at_600_by_800_witness :
  let h := window 600 800 in
  let s := final_state (setViewport h initial) in
  isSmallScreen h s = Return true s
  ∧ isLargeScreen h s = Return false s
  ∧ ∃ bps, getBreakpoints h s = Return bps s
           ∧ active_of "small" bps = Some true
           ∧ active_of "medium" bps = Some false
           ∧ active_of "large" bps = Some false.
Proof.
  cbv zeta.
  apply (sizes_at_600_by_800 (window 600 800)
           (final_state (setViewport (window 600 800) initial))
           (Viewport.mk 600 800 (Number.div (Number.of_Z 600) (Number.of_Z 800))));
    reflexivity.
Defined.

Lemma active_names_map (w : Z) (l : list (string * Z)) :
  active_names (map (λ e : string * Z, Breakpoint.mk e.2 e.1 (w >=? e.2)) l)
  = omap (λ e : string * Z, if w >=? e.2 then Some e.1 else None) l.
Proof.
  unfold active_names. induction l as [|e l IH]; [done|].
  cbn [map omap list_omap Breakpoint.active Breakpoint.name].
  destruct (w >=? e.2); by rewrite IH.
Qed.

(** C9.  Breakpoint activation is monotonic in the viewport width: when
    the width grows, every breakpoint that getBreakpoints() reports as
    active stays active. *)
Theorem breakpoints_monotonic :
  ∀ (h1 h2 : Host) (s1 s2 : State) (v1 v2 : Viewport.t),
    cachedViewport s1 = Some v1 → cachedViewport s2 = Some v2 →
    Viewport.width v1 < Viewport.width v2 →
    ∃ bps1 bps2,
      getBreakpoints h1 s1 = Return bps1 s1
      ∧ getBreakpoints h2 s2 = Return bps2 s2
      ∧ active_names bps1 ⊆ active_names bps2
      ∧ ∀ name, active_of name bps1 = Some true → active_of name bps2 = Some true.
Proof.
  intros h1 h2 s1 s2 v1 v2 H1 H2 Hlt.
  rewrite !getBreakpoints_spec.
  rewrite (seen_id h1 s1 v1 H1), (current_stored h1 s1 v1 H1).
  rewrite (seen_id h2 s2 v2 H2), (current_stored h2 s2 v2 H2).
  generalize (entries breakpoints). intros l.
  exists (map (λ e : string * Z, Breakpoint.mk e.2 e.1 (Viewport.width v1 >=? e.2)) l),
    (map (λ e : string * Z, Breakpoint.mk e.2 e.1 (Viewport.width v2 >=? e.2)) l).
  split; [reflexivity|]. split; [reflexivity|]. split.
  - rewrite !active_names_map. intros name.
    rewrite !list_elem_of_omap. intros (e & He & Ha). exists e. split; [done|].
    destruct (Viewport.width v1 >=? e.2) eqn:E1; [|done].
    assert ((Viewport.width v2 >=? e.2) = true) as -> by lia. done.
  - intros name. unfold active_of. induction l as [|e l IH]; [done|].
    simpl. destruct (String.eqb e.1 name); [|done].
    simpl. intros [= E1]. f_equal. lia.
Qed.

Lemma breakpoints_monotonic_witness :
  let s1 := final_state (setViewport (window 600 800) initial) in
  let s2 := final_state (setViewport (window 1024 768) initial) in
  ∃ bps1 bps2,
    getBreakpoints (window 600 800) s1 = Return bps1 s1
    ∧ getBreakpoints (window 1024 768) s2 = Return bps2 s2
    ∧ active_names bps1 ⊆ active_names bps2
    ∧ ∀ name, active_of name bps1 = Some true → active_of name bps2 = Some true.
Proof.
  cbv zeta.
  apply (breakpoints_monotonic (window 600 800) (window 1024 768)
           (final_state (setViewport (window 600 800) initial))
           (final_state (setViewport (window 1024 768) initial))
           (Viewport.mk 600 800 (Number.div (Number.of_Z 600) (Number.of_Z 800)))
           (Viewport.mk 1024 768 (Number.div (Number.of_Z 1024) (Number.of_Z 768))));
    [reflexivity|reflexivity|simpl; lia].
Defined.

(** ** The viewport after a measurement *)

Lemma viewport_predicates_spec h s v :
  cachedViewport s = Some v →
  viewport_predicates h s = Return (viewport_answers v) s.
Proof.
  intros Hv. unfold viewport_predicates, bind.
  rewrite isLandscape_spec, (seen_id h s v Hv).
  rewrite isPortrait_spec, (seen_id h s v Hv).
  rewrite isWideScreen_spec, (seen_id h s v Hv).
  rewrite isSmallScreen_spec, (seen_id h s v Hv).
  rewrite isLargeScreen_spec, (seen_id h s v Hv).
  by rewrite (current_stored h s v Hv).
Qed.

(** C3.  After every invocation of setViewport, each of isLandscape,
    isPortrait, isWideScreen, isSmallScreen and isLargeScreen answers from
    the viewport measured last, whatever the cache holds, whatever was
    measured before and whichever functions are called in between: for two
    successive measurements, what the predicates return after the first is
    their comparison on the first viewport, and what they return after the
    second is their comparison on the second. *)
Theorem viewport_predicates_follow_last_measurement :
  ∀ (s0 : State) (h1 h2 hq : Host) (between after : list (Host * query)),
    let s1 := run_queries between (final_state (setViewport h1 s0)) in
    let s2 := run_queries after (final_state (setViewport h2 s1)) in
    let measured (h : Host) :=
      let width := Z.max (clientWidth h) (innerWidth h) in
      let height := Z.max (clientHeight h) (innerHeight h) in
      Viewport.mk width height (Number.div (Number.of_Z width) (Number.of_Z height)) in
    viewport_predicates hq s1 = Return (viewport_answers (measured h1)) s1
    ∧ viewport_predicates hq s2 = Return (viewport_answers (measured h2)) s2
    ∧ getViewport hq s2 = Return (Some (measured h2)) s2.
Proof.
  intros s0 h1 h2 hq between after s1 s2 measured.
  assert (cachedViewport s1 = Some (measured h1)) as H1
    by (by apply run_queries_keeps_viewport).
  assert (cachedViewport s2 = Some (measured h2)) as H2
    by (by apply run_queries_keeps_viewport).
  split; [by apply viewport_predicates_spec|].
  split; [by apply viewport_predicates_spec|].
  rewrite getViewport_spec, (seen_id hq s2 _ H2).
  by rewrite (current_stored hq s2 _ H2).
Qed.

(** ** Retina *)

(** The pattern of isRetina matches exactly the user agents in which
    'iPad', 'iPhone' or 'iPod' occurs. *)
Lemma apple_token_iff s :
  test isRetina_regex s = true
  ↔ occurs "iPad" s ∨ occurs "iPhone" s ∨ occurs "iPod" s.
Proof.
  rewrite test_iff. unfold occurs, match_at. cbn [source ignoreCase isRetina_regex cs].
  cbn [rmatch]. split.
  - intros (pre & suf & -> & [m H]).
    rewrite !rmatch_lit in H.
    destruct (strip "iPad" suf) as [post|] eqn:E1.
    { apply strip_Some in E1 as ->. left. eauto. }
    destruct (strip "iPhone" suf) as [post|] eqn:E2.
    { apply strip_Some in E2 as ->. right. left. eauto. }
    destruct (strip "iPod" suf) as [post|] eqn:E3.
    { apply strip_Some in E3 as ->. right. right. eauto. }
    done.
  - intros [(pre & post & ->)|[(pre & post & ->)|(pre & post & ->)]];
      eexists pre, _; (split; [reflexivity|]); rewrite !rmatch_lit;
      rewrite ?strip_app.
    + done.
    + by destruct (strip "iPad" _).
    + destruct (strip "iPad" _); [done|]. by destruct (strip "iPhone" _).
Qed.

(** C8.  isRetina() is only true for a user agent in which 'iPad',
    'iPhone' or 'iPod' occurs.  With a device pixel ratio of 2.0 and no
    media queries, isRetina() is true for every user agent with 'iPad' in
    it; for a user agent with none of the three tokens it is false whatever
    the pixel ratio and the media queries say. *)
Theorem retina_only_on_apple_mobile :
  (∀ h : Host,
     isRetina h = true →
     occurs "iPad" (userAgent h) ∨ occurs "iPhone" (userAgent h)
     ∨ occurs "iPod" (userAgent h))
  ∧ (∀ h : Host,
       devicePixelRatio h = Some (Number.of_Z 2) → matchMedia h = None →
       occurs "iPad" (userAgent h) →
       Number.leb (Number.of_Z 2) (pixelRatio h) = true ∧ isRetina h = true)
  ∧ (∀ h : Host,
       ¬ occurs "iPad" (userAgent h) → ¬ occurs "iPhone" (userAgent h) →
       ¬ occurs "iPod" (userAgent h) →
       isRetina h = false).
Proof.
  split; [|split].
  - intros h H. unfold isRetina in H. apply andb_true_iff in H as [_ H].
    by apply apple_token_iff.
  - intros h Hr Hm Ho. unfold isRetina, media_matches, pixelRatio, getUserAgent.
    rewrite Hr, Hm. split; [done|].
    assert (test isRetina_regex (userAgent h) = true) as ->
      by (apply apple_token_iff; by left).
    done.
  - intros h H1 H2 H3. unfold isRetina, getUserAgent.
    destruct (test isRetina_regex (userAgent h)) eqn:E.
    + apply apple_token_iff in E. tauto.
    + apply andb_false_r.
Qed.

Lemma retina_only_on_apple_mobile_witness :
  let ipad := mkHost ipadUA (Some 5) (Some (Number.of_Z 2)) None 768 1024 768 1024 in
  let desktop := mkHost macUA None (Some (Number.of_Z 2)) None 1280 720 1280 720 in
  isRetina ipad = true
  ∧ (occurs "iPad" (userAgent ipad) ∨ occurs "iPhone" (userAgent ipad)
     ∨ occurs "iPod" (userAgent ipad))
  ∧ Number.leb (Number.of_Z 2) (pixelRatio desktop) = true
  ∧ isRetina desktop = false.
Proof.
  cbv zeta.
  assert (occurs "iPad" ipadUA) as Hipad by (apply test_lit; by vm_compute).
  pose proof retina_only_on_apple_mobile as (Honly & Hipad2 & Hnone).
  split; [|split; [|split]].
  - apply Hipad2; [reflexivity|reflexivity|exact Hipad].
  - apply Honly. apply Hipad2; [reflexivity|reflexivity|exact Hipad].
  - reflexivity.
  - apply Hnone; intros H%test_lit; by vm_compute in H.
Defined.

(** ** Mobile and desktop *)

Lemma reached_consistent h calls :
  Forall (λ hc : Host * call, same_device h hc.1) calls →
  consistent h (run calls initial).
Proof. intros Hd. apply run_consistent; [done|]. apply consistent_initial. Qed.

(** What a cached function returns from a consistent cache. *)
Lemma good_returns {A} h (v : A) (m : M A) s :
  good h v m → consistent h s → ∃ s', m h s = Return v s' ∧ consistent h s'.
Proof. intros Hm Hs. destruct (Hm s Hs) as (s' & ? & ? & _). eauto. Qed.

(** C2.  isMobile() and isDesktop() are complementary, in whichever order
    they are called and whatever was called before: in every state the
    page can reach, one returns a boolean and the other its negation. *)
Theorem isMobile_isDesktop_complementary :
  ∀ (h : Host) (calls : list (Host * call)),
    Forall (λ hc : Host * call, same_device h hc.1) calls →
    let s := run calls initial in
    ∃ b : bool,
      (∃ s1 s2, isMobile h s = Return (VBool b) s1
                ∧ isDesktop h s1 = Return (VBool (negb b)) s2)
      ∧ (∃ s1 s2, isDesktop h s = Return (VBool (negb b)) s1
                  ∧ isMobile h s1 = Return (VBool b) s2).
Proof.
  intros h calls Hd s.
  assert (consistent h s) as Hs by (by apply reached_consistent).
  exists (mobile h). split.
  - destruct (good_returns h _ _ s (good_isMobile h) Hs) as (s1 & Hm & Hs1).
    destruct (good_returns h _ _ s1 (good_isDesktop h) Hs1) as (s2 & Hk & _).
    eauto.
  - destruct (good_returns h _ _ s (good_isDesktop h) Hs) as (s1 & Hk & Hs1).
    destruct (good_returns h _ _ s1 (good_isMobile h) Hs1) as (s2 & Hm & _).
    eauto.
Qed.

Lemma isMobile_isDesktop_complementary_witness :
  let h := device macUA (Some 0) in
  let resized := mkHost macUA (Some 0) None None 600 800 600 800 in
  let calls := [(h, Ask IsDesktop); (resized, Measure); (resized, Ask IsKindle)] in
  Forall (λ hc : Host * call, same_device h hc.1) calls
  ∧ ∃ b : bool,
      (∃ s1 s2, isMobile h (run calls initial) = Return (VBool b) s1
                ∧ isDesktop h s1 = Return (VBool (negb b)) s2)
      ∧ (∃ s1 s2, isDesktop h (run calls initial) = Return (VBool (negb b)) s1
                  ∧ isMobile h s1 = Return (VBool b) s2).
Proof.
  cbv zeta.
  assert (Forall (λ hc : Host * call, same_device (device macUA (Some 0)) hc.1)
            [(device macUA (Some 0), Ask IsDesktop);
             (mkHost macUA (Some 0) None None 600 800 600 800, Measure);
             (mkHost macUA (Some 0) None None 600 800 600 800, Ask IsKindle)]) as Hd
    by (repeat constructor).
  split; [exact Hd|].
  exact (isMobile_isDesktop_complementary (device macUA (Some 0)) _ Hd).
Defined.

(** C5.  For a user agent that no rule of the table matches (the matcher
    returns its absent value), getOperatingSystem() returns the name
    'unknown' with an empty version, and no classification function
    raises: in every state the page can reach, the device predicates all
    return false and isDesktop() returns true. *)
Theorem unrecognised_user_agent_degrades :
  ∀ (h : Host) (calls : list (Host * call)),
    Forall (λ hc : Host * call, same_device h hc.1) calls →
    testUserAgent h commonOperatingSystems None = None →
    let s := run calls initial in
    (∃ s', getOperatingSystem h s
           = Return (VOs (VStr "unknown") (VStr EmptyString)) s')
    ∧ (∀ f : M value,
         f ∈ [isIos; isIphone; isAndroid; isWebOS; isBlackberry; isWindowsMobile;
              isKindle; isKindleFire; isMacOs; isIpadOs; isMobile] →
         ∃ s', f h s = Return (VBool false) s')
    ∧ (∃ s', isDesktop h s = Return (VBool true) s').
Proof.
  intros h calls Hd Hnone s.
  assert (consistent h s) as Hs by (by apply reached_consistent).
  destruct (unknown_not_mobile h Hnone) as (Hios & Hiphone & Handroid & Hbb & Hwm & Hweb).
  assert (tableName h = "unknown") as Hname by (unfold tableName; by rewrite Hnone).
  assert (nameHas h "Amazon OS" = false) as Hk by (by rewrite (nameHas_of_name h _ _ Hname)).
  assert (nameHas h "Fire OS" = false) as Hkf by (by rewrite (nameHas_of_name h _ _ Hname)).
  assert (nameHas h "Mac" = false) as Hmac by (by rewrite (nameHas_of_name h _ _ Hname)).
  assert (ipadOs h = false) as Hipad by (unfold ipadOs; by rewrite Hmac).
  assert (mobile h = false) as Hmob
    by (unfold mobile; by rewrite Hios, Handroid, Hbb, Hwm, Hweb, Hk, Hkf, Hipad).
  split; [|split].
  - destruct (good_returns h _ _ s (good_getOperatingSystem h) Hs) as (s' & H & _).
    rewrite (osValue_unknown h Hnone) in H. eauto.
  - intros f Hf.
    repeat (apply elem_of_cons in Hf as [->|Hf]);
      [ destruct (good_returns h _ _ s (good_isIos h) Hs) as (s' & H & _); rewrite Hios in H
      | destruct (good_returns h _ _ s (good_isIphone h) Hs) as (s' & H & _); rewrite Hiphone in H
      | destruct (good_returns h _ _ s (good_isAndroid h) Hs) as (s' & H & _); rewrite Handroid in H
      | destruct (good_returns h _ _ s (good_isWebOS h) Hs) as (s' & H & _); rewrite Hweb in H
      | destruct (good_returns h _ _ s (good_isBlackberry h) Hs) as (s' & H & _); rewrite Hbb in H
      | destruct (good_returns h _ _ s (good_isWindowsMobile h) Hs) as (s' & H & _); rewrite Hwm in H
      | destruct (good_returns h _ _ s (good_isKindle h) Hs) as (s' & H & _); rewrite Hk in H
      | destruct (good_returns h _ _ s (good_isKindleFire h) Hs) as (s' & H & _); rewrite Hkf in H
      | destruct (good_returns h _ _ s (good_isMacOs h) Hs) as (s' & H & _); rewrite Hmac in H
      | destruct (good_returns h _ _ s (good_isIpadOs h) Hs) as (s' & H & _); rewrite Hipad in H
      | destruct (good_returns h _ _ s (good_isMobile h) Hs) as (s' & H & _); rewrite Hmob in H
      | by apply elem_of_nil in Hf ];
      eauto.
  - destruct (good_returns h _ _ s (good_isDesktop h) Hs) as (s' & H & _).
    rewrite Hmob in H. eauto.
Qed.

Lemma unrecognised_user_agent_degrades_witness :
  let h := device unknownUA None in
  let calls := [(h, Ask IsMobile); (h, Measure); (h, Ask GetOperatingSystem)] in
  (Forall (λ hc : Host * call, same_device h hc.1) calls
   ∧ testUserAgent h commonOperatingSystems None = None)
  ∧ (∃ s', getOperatingSystem h (run calls initial)
           = Return (VOs (VStr "unknown") (VStr EmptyString)) s')
  ∧ (∀ f : M value,
       f ∈ [isIos; isIphone; isAndroid; isWebOS; isBlackberry; isWindowsMobile;
            isKindle; isKindleFire; isMacOs; isIpadOs; isMobile] →
       ∃ s', f h (run calls initial) = Return (VBool false) s')
  ∧ (∃ s', isDesktop h (run calls initial) = Return (VBool true) s').
Proof.
  cbv zeta.
  assert (Forall (λ hc : Host * call, same_device (device unknownUA None) hc.1)
            [(device unknownUA None, Ask IsMobile); (device unknownUA None, Measure);
             (device unknownUA None, Ask GetOperatingSystem)]) as Hd
    by (repeat constructor).
  assert (testUserAgent (device unknownUA None) commonOperatingSystems None = None) as Hn
    by (by vm_compute).
  split; [by split|].
  exact (unrecognised_user_agent_degrades (device unknownUA None) _ Hd Hn).
Defined.

(** ** iPadOS *)

Lemma has_five_touch_points_decide h :
  has_five_touch_points h = bool_decide (maxTouchPoints h = Some 5).
Proof.
  destruct (has_five_touch_points h) eqn:E.
  - apply has_five_touch_points_iff in E. by rewrite bool_decide_eq_true_2.
  - rewrite bool_decide_eq_false_2; [done|]. intros H.
    apply has_five_touch_points_iff in H. congruence.
Qed.

(** C7.  isIpadOs() returns true exactly when isMacOs() returns true and
    the touch-point count is 5.  So a Mac OS user agent with 5 touch
    points gives isIpadOs() = true and isMobile() = true; with a
    touch-point count of 0, or none reported, it gives isIpadOs() = false,
    isMobile() = false and isDesktop() = true. *)
Theorem ipados_needs_mac_and_five_touch_points :
  ∀ (h : Host) (calls : list (Host * call)),
    Forall (λ hc : Host * call, same_device h hc.1) calls →
    let s := run calls initial in
    ∃ mac : bool,
      (∃ s', isMacOs h s = Return (VBool mac) s')
      ∧ (∃ s', isIpadOs h s
               = Return (VBool (mac && bool_decide (maxTouchPoints h = Some 5))) s')
      ∧ (mac = true → maxTouchPoints h = Some 5 →
         (∃ s', isIpadOs h s = Return (VBool true) s')
         ∧ (∃ s', isMobile h s = Return (VBool true) s'))
      ∧ (mac = true → maxTouchPoints h = Some 0 ∨ maxTouchPoints h = None →
         (∃ s', isIpadOs h s = Return (VBool false) s')
         ∧ (∃ s', isMobile h s = Return (VBool false) s')
         ∧ (∃ s', isDesktop h s = Return (VBool true) s')).
Proof.
  intros h calls Hd s.
  assert (consistent h s) as Hs by (by apply reached_consistent).
  destruct (good_returns h _ _ s (good_isMacOs h) Hs) as (sm & Hmac & _).
  destruct (good_returns h _ _ s (good_isIpadOs h) Hs) as (si & Hipad & _).
  destruct (good_returns h _ _ s (good_isMobile h) Hs) as (sb & Hmob & _).
  destruct (good_returns h _ _ s (good_isDesktop h) Hs) as (sd & Hdesk & _).
  unfold ipadOs in Hipad. rewrite has_five_touch_points_decide in Hipad.
  exists (nameHas h "Mac"). split; [eauto|]. split; [eauto|]. split.
  - intros Hm Ht. rewrite Hm, bool_decide_eq_true_2 in Hipad by done.
    split; [eauto|].
    assert (mobile h = true) as Hb.
    { unfold mobile, ipadOs. rewrite Hm, has_five_touch_points_decide.
      rewrite bool_decide_eq_true_2 by done. simpl.
      by rewrite !orb_true_r. }
    rewrite Hb in Hmob. eauto.
  - intros Hm Ht.
    assert (bool_decide (maxTouchPoints h = Some 5) = false) as Hf
      by (apply bool_decide_eq_false_2; destruct Ht as [Ht|Ht]; by rewrite Ht).
    rewrite Hm, Hf in Hipad. split; [eauto|].
    destruct (nameHas_Mac h Hm) as [m Hos].
    destruct (mac_not_mobile h m Hos) as (Hios & _ & Handroid & Hbb & Hwm & Hweb).
    assert (tableName h = "Mac OS") as Hname by (by apply (tableName_Some h m)).
    assert (mobile h = false) as Hb.
    { unfold mobile, ipadOs.
      rewrite Hios, Handroid, Hbb, Hwm, Hweb, Hm, has_five_touch_points_decide, Hf.
      by rewrite !(nameHas_of_name h _ _ Hname). }
    rewrite Hb in Hmob, Hdesk. eauto.
Qed.

Lemma ipados_needs_mac_and_five_touch_points_witness :
  let tablet := device macUA (Some 5) in
  let desktop := device macUA (Some 0) in
  (Forall (λ hc : Host * call, same_device tablet hc.1) [(tablet, Ask IsDesktop)]
   ∧ Forall (λ hc : Host * call, same_device desktop hc.1) [(desktop, Ask IsMobile)])
  ∧ ((∃ s', isIpadOs tablet (run [(tablet, Ask IsDesktop)] initial)
            = Return (VBool true) s')
     ∧ (∃ s', isMobile tablet (run [(tablet, Ask IsDesktop)] initial)
              = Return (VBool true) s'))
  ∧ ((∃ s', isIpadOs desktop (run [(desktop, Ask IsMobile)] initial)
            = Return (VBool false) s')
     ∧ (∃ s', isMobile desktop (run [(desktop, Ask IsMobile)] initial)
              = Return (VBool false) s')
     ∧ (∃ s', isDesktop desktop (run [(desktop, Ask IsMobile)] initial)
              = Return (VBool true) s')).
Proof.
  cbv zeta.
  assert (Forall (λ hc : Host * call, same_device (device macUA (Some 5)) hc.1)
            [(device macUA (Some 5), Ask IsDesktop)]) as Hd5 by (repeat constructor).
  assert (Forall (λ hc : Host * call, same_device (device macUA (Some 0)) hc.1)
            [(device macUA (Some 0), Ask IsMobile)]) as Hd0 by (repeat constructor).
  split; [by split|]. split.
  - destruct (ipados_needs_mac_and_five_touch_points (device macUA (Some 5)) _ Hd5)
      as (mac & [s' Hmac] & _ & H5 & _).
    apply H5; [|reflexivity].
    assert (∃ s'', isMacOs (device macUA (Some 5))
                     (run [(device macUA (Some 5), Ask IsDesktop)] initial)
                   = Return (VBool true) s'') as [s'' Hc]
      by (eexists; by vm_compute).
    rewrite Hc in Hmac. by injection Hmac as <- _.
  - destruct (ipados_needs_mac_and_five_touch_points (device macUA (Some 0)) _ Hd0)
      as (mac & [s' Hmac] & _ & _ & H0).
    apply H0; [|by left].
    assert (∃ s'', isMacOs (device macUA (Some 0))
                     (run [(device macUA (Some 0), Ask IsMobile)] initial)
                   = Return (VBool true) s'') as [s'' Hc]
      by (eexists; by vm_compute).
    rewrite Hc in Hmac. by injection Hmac as <- _.
Defined.

(** ** The iPhone scenario *)

Lemma exec_skip re pre s :
  matches_before re pre s = false → exec re (pre +:+ s) = exec re s.
Proof.
  induction pre as [|c pre IH]; [done|]. simpl.
  change (String c pre +:+ s) with (String c (pre +:+ s)).
  destruct (match_at re (String c (pre +:+ s))); [done|]. exact IH.
Qed.

(** C6, against the claim as stated: a user agent that contains the
    token, and for which the version is not '10.3.1', because the version
    pattern matches an earlier 'CPU OS 9_0'. *)
Lemma ios_version_is_leftmost_match :
  let h := device twoTokenUA None in
  occurs iphoneToken (userAgent h)
  ∧ ¬ (∃ s, getOperatingSystem h initial
            = Return (VOs (VStr "iOS") (VStr "10.3.1")) s).
Proof.
  cbv zeta. split.
  - apply test_lit. by vm_compute.
  - intros [s H]. vm_compute in H. discriminate H.
Qed.

(** C6 (amended).  For every user agent that contains 'iPhone; CPU iPhone
    OS 10_3_1 like Mac OS X', getOperatingSystem() returns the name 'iOS',
    isIos(), isIphone() and isMobile() return true and isDesktop() returns
    false; when moreover the version pattern matches nowhere before that
    token, the version is '10.3.1'. *)
Theorem iphone_scenario :
  ∀ (h : Host) (pre post : string) (calls : list (Host * call)),
    userAgent h = pre +:+ iphoneToken +:+ post →
    Forall (λ hc : Host * call, same_device h hc.1) calls →
    let s := run calls initial in
    (∃ version s', getOperatingSystem h s
                   = Return (VOs (VStr "iOS") (VStr version)) s')
    ∧ (∃ s', isIos h s = Return (VBool true) s')
    ∧ (∃ s', isIphone h s = Return (VBool true) s')
    ∧ (∃ s', isMobile h s = Return (VBool true) s')
    ∧ (∃ s', isDesktop h s = Return (VBool false) s')
    ∧ (matches_before ios_regex pre (iphoneToken +:+ post) = false →
       ∃ s', getOperatingSystem h s = Return (VOs (VStr "iOS") (VStr "10.3.1")) s').
Proof.
  intros h pre post calls Hua Hd s.
  assert (consistent h s) as Hs by (by apply reached_consistent).
  destruct (good_returns h _ _ s (good_getOperatingSystem h) Hs) as (so & Hos & _).
  destruct (good_returns h _ _ s (good_isIos h) Hs) as (si & Hios & _).
  destruct (good_returns h _ _ s (good_isIphone h) Hs) as (sp & Hiphone & _).
  destruct (good_returns h _ _ s (good_isMobile h) Hs) as (sb & Hmob & _).
  destruct (good_returns h _ _ s (good_isDesktop h) Hs) as (sd & Hdesk & _).
  assert (is_Some (exec (nth_rule 0) (userAgent h))) as [m0 Hm0].
  { rewrite Hua. apply exec_is_Some. vm_compute. by eexists. }
  assert (tableName h = "iOS") as Hname.
  { apply (tableName_Some h m0); [|done].
    by apply (testUserAgent_first h [] "iOS" (nth_rule 0) (drop 1 commonOperatingSystems)). }
  assert (uaTest isIos_regex h = true) as Ht1.
  { unfold uaTest. rewrite Hua. apply test_true, exec_is_Some. vm_compute. by eexists. }
  assert (uaTest isIphone_regex h = true) as Ht2.
  { unfold uaTest. rewrite Hua. apply test_true, exec_is_Some. vm_compute. by eexists. }
  assert (mobile h = true) as Hb.
  { unfold mobile. rewrite Ht1. simpl. by rewrite orb_true_r. }
  rewrite Ht1 in Hios. rewrite Ht2 in Hiphone. rewrite Hb in Hmob, Hdesk.
  destruct (ios_ok h) as [v Hv].
  split; [|split; [|split; [|split; [|split]]]]; eauto.
  - rewrite (osValue_ios h Hname _ Hv) in Hos. eauto.
  - intros Hfirst.
    assert (operatingSystemVersions.ios h = Ok (VStr "10.3.1")) as Hv'.
    { unfold operatingSystemVersions.ios. rewrite Hua, (exec_skip _ _ _ Hfirst).
      assert (exec ios_regex (iphoneToken +:+ post)
              = Some [Some "CPU iPhone OS 10_3_1"; Some "10_3_1"]) as ->
        by (by vm_compute).
      done. }
    rewrite (osValue_ios h Hname _ Hv') in Hos. eauto.
Qed.

Lemma iphone_scenario_witness :
  let h := device iphoneUA None in
  let pre := "Mozilla/5.0 (" in
  let post := ") AppleWebKit/603.1.30 (KHTML, like Gecko) Version/10.0 Mobile/14E304 Safari/602.1" in
  let calls := [(h, Ask IsDesktop); (h, Ask IsKindle)] in
  (userAgent h = pre +:+ iphoneToken +:+ post
   ∧ Forall (λ hc : Host * call, same_device h hc.1) calls
   ∧ matches_before ios_regex pre (iphoneToken +:+ post) = false)
  ∧ (∃ s', getOperatingSystem h (run calls initial)
           = Return (VOs (VStr "iOS") (VStr "10.3.1")) s')
  ∧ (∃ s', isIos h (run calls initial) = Return (VBool true) s')
  ∧ (∃ s', isIphone h (run calls initial) = Return (VBool true) s')
  ∧ (∃ s', isMobile h (run calls initial) = Return (VBool true) s')
  ∧ (∃ s', isDesktop h (run calls initial) = Return (VBool false) s').
Proof.
  cbv zeta.
  assert (Forall (λ hc : Host * call, same_device (device iphoneUA None) hc.1)
            [(device iphoneUA None, Ask IsDesktop); (device iphoneUA None, Ask IsKindle)])
    as Hd by (repeat constructor).
  assert (userAgent (device iphoneUA None)
          = "Mozilla/5.0 (" +:+ iphoneToken
            +:+ ") AppleWebKit/603.1.30 (KHTML, like Gecko) Version/10.0 Mobile/14E304 Safari/602.1")
    as Hua by reflexivity.
  assert (matches_before ios_regex "Mozilla/5.0 ("
            (iphoneToken
             +:+ ") AppleWebKit/603.1.30 (KHTML, like Gecko) Version/10.0 Mobile/14E304 Safari/602.1")
          = false) as Hfirst by (by vm_compute).
  split; [by repeat split|].
  destruct (iphone_scenario (device iphoneUA None) _ _ _ Hua Hd)
    as (_ & H1 & H2 & H3 & H4 & H5).
  split; [by apply H5|]. by repeat split.
Defined.

(** * Further properties of the code *)

Import Behaviour.

(** ** The matcher *)

(** X1.  testUserAgent returns the first rule of the list whose pattern
    matches the subject, with the array of that match, and its absent
    value exactly when no pattern matches; an empty [ua] argument falls
    back to the user agent of the host, like a missing one. *)
Theorem testUserAgent_first_match_wins :
  ∀ (h : Host) (rules : list (string * RegExp)) (ua : option string),
    match testUserAgent h rules ua with
    | Some (m, n) =>
        ∃ before re after,
          rules = (before ++ (n, re) :: after)%list
          ∧ exec re (subject h ua) = Some m
          ∧ Forall (λ e : string * RegExp, exec e.2 (subject h ua) = None) before
    | None => Forall (λ e : string * RegExp, exec e.2 (subject h ua) = None) rules
    end
    ∧ testUserAgent h rules (Some EmptyString) = testUserAgent h rules None.
Proof.
  intros h rules ua. split; [|done].
  unfold testUserAgent, getUserAgent. fold (subject h ua).
  induction rules as [|[n' re'] rules IH]; [by constructor|]. simpl.
  destruct (exec re' (subject h ua)) as [m|] eqn:E.
  - by exists [], re', rules.
  - match goal with
    | |- match ?t with _ => _ end => destruct t as [[m n]|] eqn:Et
    end.
    + destruct IH as (before & re & after & -> & Hm & Hb).
      exists ((n', re') :: before), re, after. split; [done|]. split; [done|].
      by constructor.
    + by constructor.
Qed.

(** ** The cached functions *)

Ltac in_list :=
  repeat first [apply list_elem_of_here | apply list_elem_of_further].

Lemma good_cached h (f : M value) :
  f ∈ cached_functions → ∃ v, good h v f.
Proof.
  unfold cached_functions. intros Hf.
  repeat (apply elem_of_cons in Hf as [->|Hf]);
    eauto using good_getOperatingSystem, good_isMobile, good_isDesktop, good_isIpadOs,
      good_isIos, good_isIphone, good_isAndroid, good_isWebOS, good_isBlackberry,
      good_isKindle, good_isKindleFire, good_isWindowsMobile, good_isMacOs.
  by apply elem_of_nil in Hf.
Qed.

Lemma reachable_consistent h s : reachable h s → consistent h s.
Proof. intros (calls & Hd & ->). by apply reached_consistent. Qed.

Lemma reachable_initial h : reachable h initial.
Proof. exists []. split; [constructor|done]. Qed.

Lemma good_returns_value {A} h (v : A) (m : M A) s :
  good h v m → reachable h s → returns (m h s) v.
Proof.
  intros Hm Hs. apply reachable_consistent in Hs.
  destruct (Hm s Hs) as (s' & H & _). by exists s'.
Qed.

Lemma returns_inj {A} (o : outcome A) (v w : A) : returns o v → returns o w → v = w.
Proof. intros [s ->] [s' [= -> _]]. done. Qed.

(** What a cached function returns in a reachable state is its entry of
    the ideal cache. *)
Lemma returns_good {A} h (v w : A) (m : M A) s :
  good h v m → reachable h s → returns (m h s) w → w = v.
Proof.
  intros Hm Hs Hw. eapply returns_inj; [exact Hw|]. by apply good_returns_value.
Qed.

(** X2.  No cached function ever raises, whatever the user agent, and
    what it returns never changes while the page lives: in any two states
    the page can reach, it returns the same value. *)
Theorem cached_functions_return_a_stable_value :
  ∀ (h : Host) (s1 s2 : State) (f : M value),
    reachable h s1 → reachable h s2 → f ∈ cached_functions →
    ∃ v, returns (f h initial) v ∧ returns (f h s1) v ∧ returns (f h s2) v.
Proof.
  intros h s1 s2 f H1 H2 Hf.
  destruct (good_cached h f Hf) as [v Hv]. exists v.
  split; [|split]; eauto using good_returns_value, reachable_initial.
Qed.

Lemma cached_functions_return_a_stable_value_witness :
  let h := device macUA (Some 5) in
  let s1 := run [(h, Ask IsDesktop)] initial in
  let s2 := run [(h, Ask IsKindle); (h, Measure)] initial in
  (reachable h s1 ∧ reachable h s2 ∧ isIpadOs ∈ cached_functions)
  ∧ ∃ v, returns (isIpadOs h initial) v ∧ returns (isIpadOs h s1) v
         ∧ returns (isIpadOs h s2) v.
Proof.
  cbv zeta.
  assert (reachable (device macUA (Some 5))
            (run [(device macUA (Some 5), Ask IsDesktop)] initial)) as H1
    by (eexists; split; [|reflexivity]; repeat constructor).
  assert (reachable (device macUA (Some 5))
            (run [(device macUA (Some 5), Ask IsKindle); (device macUA (Some 5), Measure)]
               initial)) as H2
    by (eexists; split; [|reflexivity]; repeat constructor).
  assert (isIpadOs ∈ cached_functions) as Hf
    by (unfold cached_functions; in_list).
  split; [done|].
  exact (cached_functions_return_a_stable_value _ _ _ _ H1 H2 Hf).
Defined.

(** X3.  isMobile() is true exactly when one of its eight components is
    true, and isDesktop() is its negation. *)
Theorem isMobile_is_the_disjunction :
  ∀ (h : Host) (s : State),
    reachable h s →
    (returns (isMobile h s) (VBool true)
     ↔ ∃ f, f ∈ [isAndroid; isIos; isIpadOs; isKindleFire; isKindle; isBlackberry;
                  isWindowsMobile; isWebOS]
            ∧ returns (f h s) (VBool true))
    ∧ (returns (isDesktop h s) (VBool true) ↔ returns (isMobile h s) (VBool false)).
Proof.
  intros h s Hs.
  pose proof (good_returns_value h _ _ s (good_isMobile h) Hs) as Hm.
  pose proof (good_returns_value h _ _ s (good_isDesktop h) Hs) as Hd.
  pose proof (good_returns_value h _ _ s (good_isAndroid h) Hs) as H1.
  pose proof (good_returns_value h _ _ s (good_isIos h) Hs) as H2.
  pose proof (good_returns_value h _ _ s (good_isIpadOs h) Hs) as H3.
  pose proof (good_returns_value h _ _ s (good_isKindleFire h) Hs) as H4.
  pose proof (good_returns_value h _ _ s (good_isKindle h) Hs) as H5.
  pose proof (good_returns_value h _ _ s (good_isBlackberry h) Hs) as H6.
  pose proof (good_returns_value h _ _ s (good_isWindowsMobile h) Hs) as H7.
  pose proof (good_returns_value h _ _ s (good_isWebOS h) Hs) as H8.
  split; [split|split].
  - intros Ht. pose proof (returns_inj _ _ _ Ht Hm) as [= Hb]. symmetry in Hb.
    unfold mobile in Hb.
    repeat (apply orb_true_iff in Hb as [Hb|Hb]); rewrite Hb in *;
      [ exists isAndroid | exists isIos | exists isIpadOs | exists isKindleFire
      | exists isKindle | exists isBlackberry | exists isWindowsMobile | exists isWebOS ];
      (split; [in_list|done]).
  - intros (f & Hf & Ht).
    assert (mobile h = true) as Hb.
    { unfold mobile.
      repeat (apply elem_of_cons in Hf as [->|Hf]);
        [ pose proof (returns_inj _ _ _ Ht H1) as [= <-]
        | pose proof (returns_inj _ _ _ Ht H2) as [= <-]
        | pose proof (returns_inj _ _ _ Ht H3) as [= <-]
        | pose proof (returns_inj _ _ _ Ht H4) as [= <-]
        | pose proof (returns_inj _ _ _ Ht H5) as [= <-]
        | pose proof (returns_inj _ _ _ Ht H6) as [= <-]
        | pose proof (returns_inj _ _ _ Ht H7) as [= <-]
        | pose proof (returns_inj _ _ _ Ht H8) as [= <-]
        | by apply elem_of_nil in Hf ];
        by rewrite ?orb_true_r. }
    by rewrite Hb in Hm.
  - intros Ht. pose proof (returns_inj _ _ _ Ht Hd) as [= Hb].
    symmetry in Hb. apply negb_true_iff in Hb. by rewrite Hb in Hm.
  - intros Hf. pose proof (returns_inj _ _ _ Hf Hm) as [= Hb].
    by rewrite <- Hb in Hd.
Qed.

Lemma isMobile_is_the_disjunction_witness :
  let h := device iphoneUA None in
  reachable h initial
  ∧ (returns (isMobile h initial) (VBool true)
     ↔ ∃ f, f ∈ [isAndroid; isIos; isIpadOs; isKindleFire; isKindle; isBlackberry;
                  isWindowsMobile; isWebOS]
            ∧ returns (f h initial) (VBool true))
  ∧ (returns (isDesktop h initial) (VBool true)
     ↔ returns (isMobile h initial) (VBool false)).
Proof.
  cbv zeta. split; [apply reachable_initial|].
  apply isMobile_is_the_disjunction, reachable_initial.
Defined.

(** ** Captures *)

Lemma clear_lookup ns (caps : list (option string)) i :
  i ∉ Nat.pred <$> ns → clear ns caps !! i = caps !! i.
Proof.
  unfold clear. induction ns as [|n ns IH]; [done|]. simpl. intros Hi.
  apply not_elem_of_cons in Hi as [Hne Hi].
  rewrite list_lookup_insert_ne by done. by apply IH.
Qed.

(** A capture that a pattern does not contain survives it. *)
Lemma rmatch_keeps {A} ci input r :
  ∀ (k : continuation (A := A)) pos rest caps i x a,
    caps !! i = Some (Some x) → i ∉ Nat.pred <$> groups r →
    rmatch ci input r k pos rest caps = Some a →
    ∃ pos' rest' caps',
      caps' !! i = Some (Some x) ∧ length caps' = length caps
      ∧ k pos' rest' caps' = Some a.
Proof.
  induction r as [|c| |inv rs|r1 IH1 r2 IH2|r1 IH1 r2 IH2|r IH|r IH|n r IH];
    intros k pos rest caps i x a Hc Hi H; cbn [rmatch groups] in *.
  - eauto 10.
  - unfold step in H. destruct rest as [|y rest]; [done|].
    destruct (char_matches ci c y); [eauto 10|done].
  - unfold step in H. destruct rest as [|y rest]; [done|].
    destruct (negb (line_terminator y)); [eauto 10|done].
  - unfold step in H. destruct rest as [|y rest]; [done|].
    destruct (xorb inv (class_matches ci rs y)); [eauto 10|done].
  - rewrite fmap_app in Hi. apply not_elem_of_app in Hi as [Hi1 Hi2].
    eapply IH1 in H as (p1 & s1 & c1 & Hc1 & Hl1 & H); [|done..].
    eapply IH2 in H as (p2 & s2 & c2 & Hc2 & Hl2 & H); [|done..].
    exists p2, s2, c2. split; [done|]. split; [congruence|done].
  - rewrite fmap_app in Hi. apply not_elem_of_app in Hi as [Hi1 Hi2].
    destruct (rmatch ci input r1 k pos rest caps) eqn:E.
    + inversion H; subst. eauto 10.
    + eauto 10.
  - remember (String.length rest) as fuel eqn:Hfuel. clear Hfuel.
    revert pos rest caps Hc H.
    induction fuel as [|fuel IHf]; intros pos rest caps Hc H; [eauto 10|].
    cbn [star_loop] in H.
    match type of H with
    | match ?m with _ => _ end = _ => destruct m eqn:E
    end; [|eauto 10].
    inversion H; subst.
    eapply IH in E as (p1 & s1 & c1 & Hc1 & Hl1 & E); [|by rewrite clear_lookup|done].
    destruct (Nat.eqb p1 pos); [done|].
    apply IHf in E as (p2 & s2 & c2 & Hc2 & Hl2 & E); [|done].
    exists p2, s2, c2. split; [done|]. split; [|done].
    rewrite Hl2, Hl1. apply length_clear.
  - match type of H with
    | match ?m with _ => _ end = _ => destruct m eqn:E
    end; [|eauto 10].
    inversion H; subst.
    eapply IH in E as (p1 & s1 & c1 & Hc1 & Hl1 & E); [|by rewrite clear_lookup|done].
    destruct (Nat.eqb p1 pos); [done|].
    exists p1, s1, c1. split; [done|]. split; [|done].
    rewrite Hl1. apply length_clear.
  - rewrite fmap_cons in Hi. apply not_elem_of_cons in Hi as [Hne Hi].
    eapply IH in H as (p1 & s1 & c1 & Hc1 & Hl1 & H); [|done..].
    eexists _, _, _. split; [|split; [|exact H]].
    + by rewrite list_lookup_insert_ne.
    + by rewrite length_insert.
Qed.

(** When the only capture group of a pattern is followed by a part
    without groups, a successful match has captured it. *)
Lemma exec_group_then re s m r body tail :
  source re = Seq (Seq r (Group 1 body)) tail →
  groups tail = [] →
  length (groups (source re)) = 1%nat →
  exec re s = Some m →
  ∃ whole cap, m = [Some whole; Some cap].
Proof.
  intros Hs Ht Hg H. apply exec_Some_inv in H as (pre & suf & _ & H).
  unfold match_at in H. rewrite Hg, Hs in H. cbn [rmatch] in H.
  apply rmatch_inv in H as (p1 & s1 & c1 & Hl1 & H).
  apply rmatch_inv in H as (p2 & s2 & c2 & Hl2 & H).
  rewrite Hl1 in Hl2. simpl in Hl2.
  destruct c2 as [|y [|z c2]]; simpl in Hl2; try done.
  eapply (rmatch_keeps _ _ tail _ _ _ _ 0%nat) in H as (p3 & s3 & c3 & Hc3 & Hl3 & H);
    [|reflexivity|rewrite Ht; apply not_elem_of_nil].
  inversion H; subst; clear H. simpl in Hl3.
  destruct c3 as [|y3 [|z3 c3]]; simpl in *; try done.
  inversion Hc3; subst. eauto.
Qed.

(** ** The operating system *)

Lemma chrome_os_string h : ∃ v, operatingSystemVersions.chrome_os h = Ok (VStr v).
Proof.
  unfold operatingSystemVersions.chrome_os.
  destruct (exec chrome_os_regex (userAgent h)) as [m|] eqn:E; [|eauto].
  eapply exec_group_then in E as (whole & cap & ->); [|done..].
  simpl. eauto.
Qed.

Lemma tableName_cases h :
  (tableName h = "unknown" ∧ testUserAgent h commonOperatingSystems None = None)
  ∨ (tableName h ∈ table_names
     ∧ ∃ m, testUserAgent h commonOperatingSystems None = Some (m, tableName h)).
Proof.
  unfold tableName.
  destruct (testUserAgent h commonOperatingSystems None) as [[m n]|] eqn:E; [|by left].
  right.
  pose proof E as E'.
  apply testUserAgent_Some in E' as (before & re & after & Ht & _ & _).
  assert (n ∈ table_names) as Hin.
  { unfold table_names. rewrite Ht, map_app. apply elem_of_app. right. left. }
  assert (String.eqb n EmptyString = false) as ->.
  { clear -Hin. unfold table_names in Hin. cbn in Hin.
    repeat (apply elem_of_cons in Hin as [->|Hin]; [done|]).
    by apply elem_of_nil in Hin. }
  eauto.
Qed.

Ltac decide_lookup :=
  match goal with
  | |- context [operatingSystemVersions.lookup (slugify ?n)] =>
      first
        [ replace (operatingSystemVersions.lookup (slugify n))
            with (Some operatingSystemVersions.android) by reflexivity
        | replace (operatingSystemVersions.lookup (slugify n))
            with (Some operatingSystemVersions.ios) by reflexivity
        | replace (operatingSystemVersions.lookup (slugify n))
            with (Some operatingSystemVersions.chrome_os) by reflexivity
        | replace (operatingSystemVersions.lookup (slugify n))
            with (Some operatingSystemVersions.mac_os) by reflexivity
        | replace (operatingSystemVersions.lookup (slugify n))
            with (@None (Host → result value)) by reflexivity ]
  end.

Lemma identify_version h :
  ∃ version,
    identifyOperatingSystem h = Ok (VOs (VStr (tableName h)) (VStr version))
    ∧ (version ≠ EmptyString →
       tableName h ∈ ["iOS"; "Android"; "Chrome OS"; "Mac OS"]).
Proof.
  unfold identifyOperatingSystem. fold (tableName h).
  destruct (android_ok h) as [va Ha]. destruct (ios_ok h) as [vi Hi].
  destruct (chrome_os_string h) as [vc Hc]. destruct (mac_os_ok h) as [vm Hm].
  destruct (tableName_cases h) as [[-> _]|[Hin _]].
  { decide_lookup. eexists. split; [reflexivity|done]. }
  unfold table_names in Hin. cbn in Hin.
  repeat (apply elem_of_cons in Hin as [->|Hin];
          [ decide_lookup; rewrite ?Ha, ?Hi, ?Hc, ?Hm; eexists;
            (split; [reflexivity|]); first [ done | intros _; in_list ] |]).
  by apply elem_of_nil in Hin.
Qed.

(** X4.  getOperatingSystem() always returns an object whose name and
    version are strings.  The name is 'unknown' exactly when no rule
    matches and otherwise a name of the table; the version is empty unless
    the name is one of the four that have a version extractor. *)
Theorem operating_system_identity :
  ∀ h : Host,
    ∃ name version : string,
      identifyOperatingSystem h = Ok (VOs (VStr name) (VStr version))
      ∧ (∀ s, reachable h s →
              returns (getOperatingSystem h s) (VOs (VStr name) (VStr version)))
      ∧ (name = "unknown" ∨ name ∈ table_names)
      ∧ (name = "unknown" ↔ testUserAgent h commonOperatingSystems None = None)
      ∧ (version ≠ EmptyString → name ∈ ["iOS"; "Android"; "Chrome OS"; "Mac OS"]).
Proof.
  intros h. destruct (identify_version h) as (version & Hid & Hv).
  exists (tableName h), version. split; [done|]. split; [|split; [|split]].
  - intros s Hs.
    pose proof (good_returns_value h _ _ s (good_getOperatingSystem h) Hs) as Hr.
    unfold osValue in Hr. by rewrite Hid in Hr.
  - destruct (tableName_cases h) as [[-> _]|[Hin _]]; [by left|by right].
  - destruct (tableName_cases h) as [[Hn Hnone]|[Hin [m Hm]]]; [done|].
    split.
    + intros Hn. rewrite Hn in Hin. unfold table_names in Hin. cbn in Hin.
      repeat (apply elem_of_cons in Hin as [[=]|Hin]).
      by apply elem_of_nil in Hin.
    + intros Hnone. congruence.
  - done.
Qed.

Lemma iPhone_then_iP s : test isIphone_regex s = true → test isIos_regex s = true.
Proof.
  intros H. apply test_lit in H as (pre & post & ->).
  apply test_true, exec_is_Some. vm_compute. by eexists.
Qed.

Lemma isIos_then_named h : uaTest isIos_regex h = true → tableName h = "iOS".
Proof.
  unfold uaTest. intros H.
  apply (test_refines _ (source (nth_rule 0))) in H; [|done].
  apply test_true in H as [m Hm].
  apply (tableName_Some h m); [|done].
  by apply (testUserAgent_first h [] "iOS" (nth_rule 0) (drop 1 commonOperatingSystems)).
Qed.

Lemma isAndroid_then_named h :
  uaTest isAndroid_regex h = true → tableName h = "iOS" ∨ tableName h = "Android".
Proof.
  unfold uaTest. intros H.
  apply (test_refines _ (source (nth_rule 1))) in H; [|done].
  apply test_true in H. by apply android_rule_shadows_fire_os.
Qed.

Lemma osValue_named h : ∃ version, osValue h = VOs (VStr (tableName h)) version.
Proof.
  unfold osValue. destruct (identify_tableName h) as [v ->]. eauto.
Qed.

(** X5.  The device predicates agree with the table in one direction:
    when isIphone() is true so is isIos(); when isIos() is true the
    operating system is named 'iOS'; when isAndroid() is true it is named
    'iOS' or 'Android'. *)
Theorem device_predicates_agree_with_the_table :
  ∀ (h : Host) (s : State),
    reachable h s →
    (returns (isIphone h s) (VBool true) → returns (isIos h s) (VBool true))
    ∧ (returns (isIos h s) (VBool true) →
       ∃ version, returns (getOperatingSystem h s) (VOs (VStr "iOS") version))
    ∧ (returns (isAndroid h s) (VBool true) →
       ∃ name version,
         returns (getOperatingSystem h s) (VOs (VStr name) version)
         ∧ (name = "iOS" ∨ name = "Android")).
Proof.
  intros h s Hs.
  pose proof (good_returns_value h _ _ s (good_isIphone h) Hs) as Hp.
  pose proof (good_returns_value h _ _ s (good_isIos h) Hs) as Hi.
  pose proof (good_returns_value h _ _ s (good_isAndroid h) Hs) as Ha.
  pose proof (good_returns_value h _ _ s (good_getOperatingSystem h) Hs) as Ho.
  destruct (osValue_named h) as [version Hv]. rewrite Hv in Ho.
  split; [|split].
  - intros Ht. pose proof (returns_inj _ _ _ Ht Hp) as [= Hb]. symmetry in Hb.
    apply iPhone_then_iP in Hb. unfold uaTest in Hi. by rewrite Hb in Hi.
  - intros Ht. pose proof (returns_inj _ _ _ Ht Hi) as [= Hb]. symmetry in Hb.
    apply isIos_then_named in Hb. rewrite Hb in Ho. eauto.
  - intros Ht. pose proof (returns_inj _ _ _ Ht Ha) as [= Hb]. symmetry in Hb.
    apply isAndroid_then_named in Hb. eauto.
Qed.

Lemma device_predicates_agree_with_the_table_witness :
  let h := device iphoneUA None in
  reachable h initial
  ∧ returns (isIos h initial) (VBool true)
  ∧ ∃ version, returns (getOperatingSystem h initial) (VOs (VStr "iOS") version).
Proof.
  cbv zeta.
  destruct (device_predicates_agree_with_the_table (device iphoneUA None) initial
              (reachable_initial _)) as (H1 & H2 & _).
  assert (returns (isIphone (device iphoneUA None) initial) (VBool true)) as Hp
    by (eexists; by vm_compute).
  split; [apply reachable_initial|]. split; [by apply H1|]. by apply H2, H1.
Defined.

Lemma name_tests_exclusive h :
  (nameHas h "Amazon OS" && nameHas h "Fire OS" = false)
  ∧ (nameHas h "Amazon OS" && nameHas h "Mac" = false)
  ∧ (nameHas h "Fire OS" && nameHas h "Mac" = false)
  ∧ (nameHas h "Mac" = true → tableName h = "Mac OS")
  ∧ (nameHas h "Fire OS" = true → tableName h = "Fire OS")
  ∧ (nameHas h "Amazon OS" = true → tableName h = "Amazon OS").
Proof.
  rewrite !(nameHas_of_name h (tableName h)) by done.
  destruct (tableName_cases h) as [[-> _]|[Hin _]]; [by vm_compute|].
  unfold table_names in Hin. cbn in Hin.
  repeat (apply elem_of_cons in Hin as [->|Hin]; [by vm_compute|]).
  by apply elem_of_nil in Hin.
Qed.

(** X6.  isKindle(), isKindleFire() and isMacOs() are mutually exclusive.
    When isIpadOs() is true, isMacOs() is true and isIos(), isAndroid(),
    isKindle() and isKindleFire() are false; when isKindleFire() is true,
    isIos() and isAndroid() are false. *)
Theorem os_derived_predicates_are_exclusive :
  ∀ (h : Host) (s : State),
    reachable h s →
    ¬ (returns (isKindle h s) (VBool true) ∧ returns (isKindleFire h s) (VBool true))
    ∧ ¬ (returns (isKindle h s) (VBool true) ∧ returns (isMacOs h s) (VBool true))
    ∧ ¬ (returns (isKindleFire h s) (VBool true) ∧ returns (isMacOs h s) (VBool true))
    ∧ (returns (isIpadOs h s) (VBool true) →
       returns (isMacOs h s) (VBool true)
       ∧ returns (isIos h s) (VBool false) ∧ returns (isAndroid h s) (VBool false)
       ∧ returns (isKindle h s) (VBool false)
       ∧ returns (isKindleFire h s) (VBool false))
    ∧ (returns (isKindleFire h s) (VBool true) →
       returns (isIos h s) (VBool false) ∧ returns (isAndroid h s) (VBool false)).
Proof.
  intros h s Hs.
  pose proof (good_returns_value h _ _ s (good_isKindle h) Hs) as Hk.
  pose proof (good_returns_value h _ _ s (good_isKindleFire h) Hs) as Hf.
  pose proof (good_returns_value h _ _ s (good_isMacOs h) Hs) as Hm.
  pose proof (good_returns_value h _ _ s (good_isIpadOs h) Hs) as Hp.
  pose proof (good_returns_value h _ _ s (good_isIos h) Hs) as Hi.
  pose proof (good_returns_value h _ _ s (good_isAndroid h) Hs) as Ha.
  destruct (name_tests_exclusive h) as (E1 & E2 & E3 & Nm & Nf & Nk).
  assert (∀ name, tableName h = name → name ≠ "iOS" → name ≠ "Android" →
                  uaTest isIos_regex h = false ∧ uaTest isAndroid_regex h = false)
    as Hnot.
  { intros name Hn H1 H2. split.
    - destruct (uaTest isIos_regex h) eqn:E; [|done].
      apply isIos_then_named in E. congruence.
    - destruct (uaTest isAndroid_regex h) eqn:E; [|done].
      apply isAndroid_then_named in E as [E|E]; congruence. }
  split; [|split; [|split; [|split]]].
  - intros [H1 H2]. pose proof (returns_inj _ _ _ H1 Hk) as [= B1].
    pose proof (returns_inj _ _ _ H2 Hf) as [= B2].
    rewrite <- B1, <- B2 in E1. done.
  - intros [H1 H2]. pose proof (returns_inj _ _ _ H1 Hk) as [= B1].
    pose proof (returns_inj _ _ _ H2 Hm) as [= B2].
    rewrite <- B1, <- B2 in E2. done.
  - intros [H1 H2]. pose proof (returns_inj _ _ _ H1 Hf) as [= B1].
    pose proof (returns_inj _ _ _ H2 Hm) as [= B2].
    rewrite <- B1, <- B2 in E3. done.
  - intros Ht. pose proof (returns_inj _ _ _ Ht Hp) as [= Hb]. symmetry in Hb.
    unfold ipadOs in Hb. apply andb_true_iff in Hb as [Hmac _].
    destruct (Hnot "Mac OS" (Nm Hmac)) as [Hi' Ha']; [done..|].
    rewrite Hmac in *. rewrite Hi' in Hi. rewrite Ha' in Ha.
    rewrite andb_true_r in E2. rewrite andb_true_r in E3.
    rewrite E2 in Hk. rewrite E3 in Hf. done.
  - intros Ht. pose proof (returns_inj _ _ _ Ht Hf) as [= Hb]. symmetry in Hb.
    destruct (Hnot "Fire OS" (Nf Hb)) as [Hi' Ha']; [done..|].
    rewrite Hi' in Hi. rewrite Ha' in Ha. done.
Qed.

Lemma os_derived_predicates_are_exclusive_witness :
  let h := device macUA (Some 5) in
  reachable h initial
  ∧ returns (isIpadOs h initial) (VBool true)
  ∧ returns (isMacOs h initial) (VBool true)
  ∧ returns (isIos h initial) (VBool false) ∧ returns (isAndroid h initial) (VBool false)
  ∧ returns (isKindle h initial) (VBool false)
  ∧ returns (isKindleFire h initial) (VBool false).
Proof.
  cbv zeta.
  destruct (os_derived_predicates_are_exclusive (device macUA (Some 5)) initial
              (reachable_initial _)) as (_ & _ & _ & H & _).
  assert (returns (isIpadOs (device macUA (Some 5)) initial) (VBool true)) as Hp
    by (eexists; by vm_compute).
  split; [apply reachable_initial|]. split; [done|]. by apply H.
Defined.

(** ** Strings *)

Lemma string_app_cons x (a b : string) : String x a +:+ b = String x (a +:+ b).
Proof. reflexivity. Qed.

Lemma string_app_assoc (a b c : string) : (a +:+ b) +:+ c = a +:+ b +:+ c.
Proof. induction a as [|x a IH]; [done|]. rewrite !string_app_cons. by rewrite IH. Qed.


Lemma string_length_app (a b : string) :
  String.length (a +:+ b) = (String.length a + String.length b)%nat.
Proof.
  induction a as [|x a IH]; [done|]. rewrite string_app_cons. simpl. by rewrite IH.
Qed.


Lemma substring_prefix (a b : string) :
  String.substring 0 (String.length a) (a +:+ b) = a.
Proof.
  induction a as [|x a IH]; [by destruct b|].
  rewrite string_app_cons. simpl. by rewrite IH.
Qed.

Lemma substring_middle (a b c : string) :
  String.substring (String.length a) (String.length b) (a +:+ b +:+ c) = b.
Proof.
  induction a as [|x a IH]; [exact (substring_prefix b c)|].
  rewrite string_app_cons. simpl. exact IH.
Qed.

Lemma all_chars_app P (a b : string) :
  all_chars P (a +:+ b) = all_chars P a && all_chars P b.
Proof.
  induction a as [|x a IH]; [done|]. rewrite string_app_cons. simpl.
  rewrite IH. by rewrite andb_assoc.
Qed.

Lemma all_chars_impl (P Q : ascii → bool) s :
  (∀ a, P a = true → Q a = true) → all_chars P s = true → all_chars Q s = true.
Proof.
  intros HPQ. induction s as [|x s IH]; [done|]. simpl.
  intros [Hx Hs]%andb_true_iff. rewrite (HPQ x Hx). by apply IH.
Qed.

Lemma all_ascii_complete (a : ascii) : In a all_ascii.
Proof.
  unfold all_ascii. apply in_map_iff. exists (nat_of_ascii a). split.
  - apply ascii_nat_embedding.
  - apply in_seq. pose proof (nat_ascii_bounded a). lia.
Qed.

(** [s.split('_').join('.')] turns every underscore into a dot. *)
Lemma split_nonempty c s : JsString.split c s ≠ [].
Proof.
  induction s as [|x s IH]; [done|]. simpl.
  destruct (Ascii.eqb x c); [done|]. by destruct (JsString.split c s).
Qed.

Lemma join_cons_char sep x w ws :
  JsString.join sep (String x w :: ws) = String x (JsString.join sep (w :: ws)).
Proof. by destruct ws. Qed.

Lemma split_join_substitute (c d : ascii) (s : string) :
  JsString.join (String d EmptyString) (JsString.split c s) = substitute c d s.
Proof.
  induction s as [|x s IH]; [done|]. simpl.
  destruct (Ascii.eqb x c).
  - pose proof (split_nonempty c s) as Hne.
    destruct (JsString.split c s) as [|w ws] eqn:E; [done|].
    change (JsString.join (String d EmptyString) (EmptyString :: w :: ws))
      with (String d (JsString.join (String d EmptyString) (w :: ws))).
    by rewrite IH.
  - pose proof (split_nonempty c s) as Hne.
    destruct (JsString.split c s) as [|w ws] eqn:E; [done|].
    rewrite join_cons_char. by rewrite IH.
Qed.

Lemma substitute_length c d s : String.length (substitute c d s) = String.length s.
Proof. induction s as [|x s IH]; [done|]. simpl. by rewrite IH. Qed.

Lemma substitute_version_chars s :
  all_chars raw_version_char s = true →
  all_chars version_char (substitute "_" "." s) = true.
Proof.
  induction s as [|x s IH]; [done|]. simpl.
  intros [Hx Hs]%andb_true_iff. rewrite (IH Hs), andb_true_r.
  destruct (Ascii.eqb_spec x "_") as [->|Hne]; [done|].
  unfold raw_version_char in Hx. apply orb_true_iff in Hx as [Hx|Hx]; [done|].
  by apply Ascii.eqb_eq in Hx.
Qed.

(** ** What a pattern consumes *)

Lemma rmatch_consumes {A} input P r :
  accepts_only P r = true →
  ∀ (k : continuation (A := A)) pos rest caps a,
    rmatch false input r k pos rest caps = Some a →
    ∃ consumed pos' rest' caps',
      rest = consumed +:+ rest'
      ∧ pos' = (pos + String.length consumed)%nat
      ∧ all_chars P consumed = true
      ∧ length caps' = length caps
      ∧ k pos' rest' caps' = Some a.
Proof.
  induction r as [|c| |inv rs|r1 IH1 r2 IH2|r1 IH1 r2 IH2|r IH|r IH|n r IH];
    intros Hr k pos rest caps a H; cbn [rmatch accepts_only] in *.
  - exists EmptyString, pos, rest, caps. by rewrite Nat.add_0_r.
  - unfold step in H. destruct rest as [|y rest]; [done|].
    unfold char_matches in H. simpl in H.
    destruct (Ascii.eqb_spec c y) as [->|]; [|done].
    exists (String y EmptyString), (S pos), rest, caps. simpl.
    rewrite Hr, Nat.add_1_r. done.
  - unfold step in H. destruct rest as [|y rest]; [done|].
    destruct (negb (line_terminator y)) eqn:E; [|done].
    exists (String y EmptyString), (S pos), rest, caps. simpl.
    rewrite forallb_forall in Hr. specialize (Hr y (all_ascii_complete y)).
    rewrite E in Hr. simpl in Hr. rewrite Hr, Nat.add_1_r. done.
  - unfold step in H. destruct rest as [|y rest]; [done|].
    destruct (xorb inv (class_matches false rs y)) eqn:E; [|done].
    exists (String y EmptyString), (S pos), rest, caps. simpl.
    rewrite forallb_forall in Hr. specialize (Hr y (all_ascii_complete y)).
    rewrite E in Hr. simpl in Hr. rewrite Hr, Nat.add_1_r. done.
  - apply andb_true_iff in Hr as [Hr1 Hr2].
    apply IH1 in H as (c1 & p1 & s1 & k1 & -> & -> & Hc1 & Hl1 & H); [|done].
    apply IH2 in H as (c2 & p2 & s2 & k2 & -> & -> & Hc2 & Hl2 & H); [|done].
    exists (c1 +:+ c2), (pos + String.length (c1 +:+ c2))%nat, s2, k2.
    rewrite string_app_assoc, all_chars_app, Hc1, Hc2, string_length_app.
    split; [done|]. split; [done|]. split; [done|]. split; [congruence|].
    by rewrite Nat.add_assoc.
  - apply andb_true_iff in Hr as [Hr1 Hr2].
    destruct (rmatch false input r1 k pos rest caps) eqn:E.
    + inversion H; subst. by apply IH1.
    + by apply IH2.
  - remember (String.length rest) as fuel eqn:Hfuel. clear Hfuel.
    revert pos rest caps H.
    induction fuel as [|fuel IHf]; intros pos rest caps H; cbn [star_loop] in H.
    { exists EmptyString, pos, rest, caps. by rewrite Nat.add_0_r. }
    match type of H with
    | match ?m with _ => _ end = _ => destruct m eqn:E
    end.
    + inversion H; subst.
      apply IH in E as (c1 & p1 & s1 & k1 & -> & -> & Hc1 & Hl1 & E); [|done].
      destruct (Nat.eqb _ pos); [done|].
      apply IHf in E as (c2 & p2 & s2 & k2 & -> & -> & Hc2 & Hl2 & E).
      exists (c1 +:+ c2), (pos + String.length (c1 +:+ c2))%nat, s2, k2.
      rewrite string_app_assoc, all_chars_app, Hc1, Hc2, string_length_app.
      split; [done|]. split; [done|]. split; [done|].
      split; [by rewrite Hl2, Hl1, length_clear|].
      by rewrite Nat.add_assoc.
    + exists EmptyString, pos, rest, caps. by rewrite Nat.add_0_r.
  - match type of H with
    | match ?m with _ => _ end = _ => destruct m eqn:E
    end.
    + inversion H; subst.
      apply IH in E as (c1 & p1 & s1 & k1 & -> & -> & Hc1 & Hl1 & E); [|done].
      destruct (Nat.eqb _ pos); [done|].
      exists c1, (pos + String.length c1)%nat, s1, k1.
      split; [done|]. split; [done|]. split; [done|].
      split; [by rewrite Hl1, length_clear|done].
    + exists EmptyString, pos, rest, caps. by rewrite Nat.add_0_r.
  - apply IH in H as (c1 & p1 & s1 & k1 & -> & -> & Hc1 & Hl1 & H); [|done].
    eexists c1, _, s1, _. split; [done|]. split; [done|]. split; [done|].
    split; [|exact H]. by rewrite length_insert.
Qed.

(** A capture group holds what its body consumed. *)
Lemma group_captures {A} input P body (k : continuation (A := A)) before rest caps a :
  accepts_only P body = true →
  input = before +:+ rest →
  (0 < length caps)%nat →
  rmatch false input (Group 1 body) k (String.length before) rest caps = Some a →
  ∃ cap pos' rest' caps',
    all_chars P cap = true
    ∧ caps' !! 0%nat = Some (Some cap)
    ∧ length caps' = length caps
    ∧ k pos' rest' caps' = Some a.
Proof.
  intros Hb -> Hl H. cbn [rmatch] in H.
  eapply rmatch_consumes in H as (c1 & p1 & s1 & k1 & -> & -> & Hc1 & Hl1 & H); [|done].
  exists c1. eexists _, _, _. split; [done|]. split; [|split; [|exact H]].
  - rewrite list_lookup_insert_eq by lia. simpl. do 2 f_equal.
    replace (String.length before + String.length c1 - String.length before)%nat
      with (String.length c1) by lia.
    apply substring_middle.
  - by rewrite length_insert.
Qed.

Lemma rmatch_seq {A} ci input r1 r2 (k : continuation (A := A)) pos rest caps :
  rmatch ci input (Seq r1 r2) k pos rest caps
  = rmatch ci input r1 (rmatch ci input r2 k) pos rest caps.
Proof. reflexivity. Qed.

(** The capture of a pattern that ends with its only group. *)
Lemma exec_last_group_chars re s m r body P :
  source re = Seq r (Group 1 body) → ignoreCase re = false →
  length (groups (source re)) = 1%nat →
  accepts_only (λ _, true) r = true → accepts_only P body = true →
  exec re s = Some m →
  ∃ whole cap, m = [Some whole; Some cap] ∧ all_chars P cap = true.
Proof.
  intros Hs Hi Hg Hr Hb H. apply exec_Some_inv in H as (pre & suf & _ & H).
  unfold match_at in H. rewrite Hg, Hs, Hi, rmatch_seq in H.
  eapply rmatch_consumes in H as (c1 & p1 & s1 & k1 & -> & -> & _ & Hl1 & H); [|exact Hr].
  change (0 + String.length c1)%nat with (String.length c1) in H.
  cbn [length replicate] in Hl1.
  eapply group_captures in H as (cap & p2 & s2 & k2 & Hc & Hk & Hl2 & H);
    [|exact Hb|reflexivity|lia].
  inversion H; subst; clear H. rewrite Hl1 in Hl2.
  destruct k2 as [|y [|z k2]]; simpl in *; try done.
  inversion Hk; subst. eauto.
Qed.

(** The capture of a pattern whose only group is followed by a part
    without groups. *)
Lemma exec_group_then_chars re s m r body tail P :
  source re = Seq (Seq r (Group 1 body)) tail → ignoreCase re = false →
  groups tail = [] →
  length (groups (source re)) = 1%nat →
  accepts_only (λ _, true) r = true → accepts_only P body = true →
  exec re s = Some m →
  ∃ whole cap, m = [Some whole; Some cap] ∧ all_chars P cap = true.
Proof.
  intros Hs Hi Ht Hg Hr Hb H. apply exec_Some_inv in H as (pre & suf & _ & H).
  unfold match_at in H. rewrite Hg, Hs, Hi, !rmatch_seq in H.
  eapply rmatch_consumes in H as (c1 & p1 & s1 & k1 & -> & -> & _ & Hl1 & H); [|exact Hr].
  change (0 + String.length c1)%nat with (String.length c1) in H.
  cbn [length replicate] in Hl1.
  eapply group_captures in H as (cap & p2 & s2 & k2 & Hc & Hk & Hl2 & H);
    [|exact Hb|reflexivity|lia].
  eapply rmatch_keeps in H as (p3 & s3 & k3 & Hk3 & Hl3 & H);
    [|exact Hk|rewrite Ht; apply not_elem_of_nil].
  inversion H; subst; clear H. rewrite Hl2, Hl1 in Hl3.
  destruct k3 as [|y [|z k3]]; simpl in *; try done.
  inversion Hk3; subst. eauto.
Qed.

Lemma split_join_version cap :
  all_chars raw_version_char cap = true →
  ∃ v, split_join (Some (Some cap)) = Ok (VStr v) ∧ all_chars version_char v = true.
Proof.
  intros Hc. eexists. split; [reflexivity|].
  rewrite (split_join_substitute "_" "." cap). by apply substitute_version_chars.
Qed.

Lemma version_char_raw a : version_char a = true → raw_version_char a = true.
Proof. unfold raw_version_char. by intros ->. Qed.

Lemma ios_version_chars h v :
  operatingSystemVersions.ios h = Ok (VStr v) → all_chars version_char v = true.
Proof.
  unfold operatingSystemVersions.ios.
  destruct (exec ios_regex (userAgent h)) as [m|] eqn:E; [|by intros [= <-]].
  eapply (exec_last_group_chars _ _ _ _ _ raw_version_char) in E
    as (whole & cap & -> & Hc); [|done|done|done|by vm_compute|by vm_compute].
  destruct (split_join_version cap Hc) as (v' & Hv & Hv').
  cbn [length Nat.eqb lookup list_lookup]. rewrite Hv. by intros [= <-].
Qed.

Lemma mac_os_version_chars h v :
  operatingSystemVersions.mac_os h = Ok (VStr v) → all_chars version_char v = true.
Proof.
  unfold operatingSystemVersions.mac_os.
  destruct (exec mac_os_regex (userAgent h)) as [m|] eqn:E; [|by intros [= <-]].
  eapply (exec_last_group_chars _ _ _ _ _ raw_version_char) in E
    as (whole & cap & -> & Hc); [|done|done|done|by vm_compute|by vm_compute].
  destruct (split_join_version cap Hc) as (v' & Hv & Hv').
  cbn [length Nat.eqb lookup list_lookup]. rewrite Hv. by intros [= <-].
Qed.

Lemma chrome_os_version_chars h v :
  operatingSystemVersions.chrome_os h = Ok (VStr v) → all_chars version_char v = true.
Proof.
  unfold operatingSystemVersions.chrome_os.
  destruct (exec chrome_os_regex (userAgent h)) as [m|] eqn:E; [|by intros [= <-]].
  eapply (exec_group_then_chars _ _ _ _ _ _ version_char) in E
    as (whole & cap & -> & Hc); [|done|done|done|done|by vm_compute|by vm_compute].
  simpl. by intros [= <-].
Qed.

(** X7.  Apart from Android, the version getOperatingSystem() reports
    consists of digits and dots only (it may be empty): the underscores of
    the iOS and Mac OS tokens have all become dots. *)
Theorem versions_are_dotted_digits :
  ∀ (h : Host) (s : State) (name version : string),
    reachable h s →
    returns (getOperatingSystem h s) (VOs (VStr name) (VStr version)) →
    name ≠ "Android" →
    all_chars version_char version = true.
Proof.
  intros h s name version Hs Hr Hn.
  pose proof (returns_good h _ _ _ s (good_getOperatingSystem h) Hs Hr) as Ho.
  assert (identifyOperatingSystem h = Ok (VOs (VStr name) (VStr version))) as Hid
    by (by rewrite identify_osValue, <- Ho).
  assert (tableName h = name) as Ht.
  { destruct (identify_tableName h) as [v Hv]. congruence. }
  unfold identifyOperatingSystem in Hid. fold (tableName h) in Hid.
  pose proof (ios_version_chars h) as Hi.
  pose proof (mac_os_version_chars h) as Hm.
  pose proof (chrome_os_version_chars h) as Hc.
  destruct (tableName_cases h) as [[Hu _]|[Hin _]].
  { rewrite Hu in Hid. by injection Hid as <- <-. }
  rewrite Ht in *. clear Ht. unfold table_names in Hin. cbn in Hin.
  repeat (apply elem_of_cons in Hin as [->|Hin];
          [ first
              [ done
              | revert Hid; decide_lookup; intros Hid;
                first
                  [ by injection Hid as <-
                  | destruct (operatingSystemVersions.ios h) as [[]|] eqn:E;
                    try done; injection Hid as <-; by apply Hi
                  | destruct (operatingSystemVersions.mac_os h) as [[]|] eqn:E;
                    try done; injection Hid as <-; by apply Hm
                  | destruct (operatingSystemVersions.chrome_os h) as [[]|] eqn:E;
                    try done; injection Hid as <-; by apply Hc ] ] |]).
  by apply elem_of_nil in Hin.
Qed.

Lemma versions_are_dotted_digits_witness :
  let h := device macUA None in
  (reachable h initial
   ∧ returns (getOperatingSystem h initial) (VOs (VStr "Mac OS") (VStr "10.14.4"))
   ∧ "Mac OS" ≠ "Android")
  ∧ all_chars version_char "10.14.4" = true.
Proof.
  cbv zeta.
  assert (returns (getOperatingSystem (device macUA None) initial)
            (VOs (VStr "Mac OS") (VStr "10.14.4"))) as Hr
    by (eexists; by vm_compute).
  split; [split; [apply reachable_initial|done]|].
  by apply (versions_are_dotted_digits (device macUA None) initial "Mac OS" "10.14.4"
              (reachable_initial _) Hr).
Defined.

(** X8.  The Android version is empty when no release pattern matches,
    and otherwise the captured release number followed by the release
    name in parentheses; it is never the bare name, and never the text
    'undefined'. *)
Theorem android_version_shape :
  ∀ h : Host,
    (testUserAgent h androidVersions None = None
     ∧ operatingSystemVersions.android h = Ok (VStr EmptyString))
    ∨ (∃ whole release name,
         testUserAgent h androidVersions None = Some ([Some whole; Some release], name)
         ∧ name ∈ map fst androidVersions
         ∧ operatingSystemVersions.android h
           = Ok (VStr (release +:+ " (" +:+ name +:+ ")"))).
Proof.
  intros h. unfold operatingSystemVersions.android.
  destruct (testUserAgent h androidVersions None) as [[m n]|] eqn:E; [|by left].
  right. pose proof E as E'.
  apply testUserAgent_Some in E' as (before & re & after & Ht & Hm & _).
  assert ((n, re) ∈ androidVersions) as Hin
    by (rewrite Ht; apply elem_of_app; right; left).
  clear Ht. unfold androidVersions in Hin.
  repeat (apply elem_of_cons in Hin as [[= -> ->]|Hin];
          [ eapply exec_last_group in Hm as (whole & cap & ->); [|done..];
            exists whole, cap; eexists; split; [done|]; split; [in_list|done] |]).
  by apply elem_of_nil in Hin.
Qed.


(** ** The viewport *)

Lemma returns_Return {A} (a : A) s : returns (Return a s) a.
Proof. by exists s. Qed.

(** X10.  The viewport is measured lazily and once: on a page where it
    has not been measured, a query measures it exactly when it reads the
    viewport, with the geometry of that moment; afterwards no query
    measures again, whatever the geometry has become. *)
Theorem viewport_is_measured_once :
  ∀ (h1 h2 : Host) (s : State) (q : query) (later : list (Host * query)),
    cachedViewport s = None →
    cachedViewport (ask q h1 s) = (if reads_viewport q then Some (measure h1) else None)
    ∧ (reads_viewport q = true →
       returns (getViewport h2 (run_queries later (ask q h1 s))) (Some (measure h1))).
Proof.
  intros h1 h2 s q later Hs.
  assert (cachedViewport (ask q h1 s)
          = if reads_viewport q then Some (measure h1) else None) as Hq.
  { destruct q; cbn [ask reads_viewport];
      try (rewrite <- Hs;
           first [ apply frames_getOperatingSystem | apply frames_isMobile
                 | apply frames_isDesktop | apply frames_isIpadOs | apply frames_isIos
                 | apply frames_isIphone | apply frames_isAndroid | apply frames_isWebOS
                 | apply frames_isBlackberry | apply frames_isKindle
                 | apply frames_isKindleFire | apply frames_isWindowsMobile
                 | apply frames_isMacOs ]);
      rewrite ?getViewport_spec, ?isLandscape_spec, ?isPortrait_spec, ?isWideScreen_spec,
        ?isSmallScreen_spec, ?isLargeScreen_spec, ?getBreakpoints_spec;
      cbn [final_state seen cachedViewport]; unfold current; by rewrite Hs. }
  split; [exact Hq|]. intros Hr. rewrite Hr in Hq.
  pose proof (run_queries_keeps_viewport later _ _ Hq) as Hl.
  rewrite getViewport_spec. unfold current. rewrite Hl. apply returns_Return.
Qed.

Lemma viewport_is_measured_once_witness :
  let h1 := window 600 800 in
  let h2 := window 1024 768 in
  cachedViewport initial = None
  ∧ cachedViewport (ask IsLandscape h1 initial) = Some (measure h1)
  ∧ returns (getViewport h2 (run_queries [(h2, IsSmallScreen)] (ask IsLandscape h1 initial)))
      (Some (measure h1)).
Proof.
  cbv zeta. split; [reflexivity|].
  destruct (viewport_is_measured_once (window 600 800) (window 1024 768) initial
              IsLandscape [(window 1024 768, IsSmallScreen)] eq_refl) as [H1 H2].
  split; [exact H1|exact (H2 eq_refl)].
Defined.

(** Comparison with a positive finite constant. *)
Lemma ltb_finite_inv m e a :
  Number.ltb (S754_finite false m e) a = true →
  a = S754_infinity false
  ∨ ∃ m' e', a = S754_finite false m' e' ∧ (e < e' ∨ e = e' ∧ (m < m')%positive).
Proof.
  unfold Number.ltb, SFltb. destruct a as [sa|sa| |sa ma ea]; simpl; try done.
  - destruct sa; [done|]. by left.
  - destruct sa; [done|].
    destruct (Z.compare_spec e ea) as [->|Hlt|Hgt]; intros H; [|by eauto 10|done].
    right. exists ma, ea. split; [done|]. right. split; [done|].
    unfold Pos.lt, Pos.compare. by destruct (Pos.compare_cont Eq m ma).
Qed.

Lemma leb_finite_inv m e a :
  Number.leb (S754_finite false m e) a = true →
  a = S754_infinity false
  ∨ ∃ m' e', a = S754_finite false m' e' ∧ (e < e' ∨ e = e' ∧ (m ≤ m')%positive).
Proof.
  unfold Number.leb, SFleb. destruct a as [sa|sa| |sa ma ea]; simpl; try done.
  - destruct sa; [done|]. by left.
  - destruct sa; [done|].
    destruct (Z.compare_spec e ea) as [->|Hlt|Hgt]; intros H; [|by eauto 10|done].
    right. exists ma, ea. split; [done|]. right. split; [done|].
    unfold Pos.le, Pos.compare. by destruct (Pos.compare_cont Eq m ma).
Qed.

Lemma ltb_finite_intro m e m' e' :
  e < e' ∨ e = e' ∧ (m < m')%positive →
  Number.ltb (S754_finite false m e) (S754_finite false m' e') = true.
Proof.
  intros H. unfold Number.ltb, SFltb. simpl.
  destruct (Z.compare_spec e e') as [->|Hlt|Hgt]; [|done|lia].
  destruct H as [H|[_ H]]; [lia|].
  unfold Pos.lt, Pos.compare in H. by rewrite H.
Qed.

(** Replace a closed number by its value. *)
Ltac evaluate t :=
  let v := eval vm_compute in t in
  replace t with v by (vm_compute; reflexivity).

Lemma wide_is_landscape a :
  Number.ltb wide_ratio a = true → Number.ltb (Number.of_Z 1) a = true.
Proof.
  evaluate wide_ratio. evaluate (Number.of_Z 1).
  intros [->|(m' & e' & -> & H)]%ltb_finite_inv; [done|].
  apply ltb_finite_intro. lia.
Qed.

(** X11.  A wide screen is a landscape screen: isWideScreen() is only
    true when isLandscape() is, and then isPortrait() is false.  None of
    the three ever fails, measured viewport or not. *)
Theorem wide_screen_is_landscape :
  ∀ (h : Host) (s : State),
    ∃ landscape wide : bool,
      returns (isLandscape h s) landscape
      ∧ returns (isPortrait h s) (negb landscape)
      ∧ returns (isWideScreen h s) wide
      ∧ (wide = true → landscape = true).
Proof.
  intros h s. rewrite isLandscape_spec, isPortrait_spec, isWideScreen_spec.
  eexists _, _. split; [apply returns_Return|]. split; [apply returns_Return|].
  split; [apply returns_Return|]. apply wide_is_landscape.
Qed.

(** X12.  getBreakpoints() lists the seven breakpoints of the table in
    the table's order, and the active ones are a prefix of the list: a
    breakpoint is never active unless every smaller one is. *)
Theorem active_breakpoints_are_a_prefix :
  ∀ (h : Host) (s : State),
    ∃ (bps : list Breakpoint.t) (n : nat),
      returns (getBreakpoints h s) bps
      ∧ map (λ b, (Breakpoint.name b, Breakpoint.width b)) bps = entries breakpoints
      ∧ (n ≤ 7)%nat
      ∧ map Breakpoint.active bps = (replicate n true ++ replicate (7 - n) false)%list.
Proof.
  intros h s. rewrite getBreakpoints_spec.
  set (w := Viewport.width (current h s)).
  eexists. 
  assert (∃ n, (n ≤ 7)%nat
               ∧ map (λ e : string * Z, w >=? e.2) (entries breakpoints)
                 = (replicate n true ++ replicate (7 - n) false)%list) as (n & Hn & Hl).
  { cbn [map entries breakpoints xxsmall xsmall small medium large xlarge xxlarge snd].
    repeat match goal with
           | |- context [?a >=? ?b] => destruct (Z.geb_spec a b)
           end;
      try lia;
      first [ by exists 0%nat; split; [lia|] | by exists 1%nat; split; [lia|]
            | by exists 2%nat; split; [lia|] | by exists 3%nat; split; [lia|]
            | by exists 4%nat; split; [lia|] | by exists 5%nat; split; [lia|]
            | by exists 6%nat; split; [lia|] | by exists 7%nat; split; [lia|] ]. }
  exists n. split; [apply returns_Return|]. split; [done|]. split; [done|].
  rewrite <- Hl. by rewrite map_map.
Qed.

(** X13.  isSmallScreen() and isLargeScreen() are never both true;
    isLargeScreen() is the 'xlarge' entry of getBreakpoints(), and a
    screen that is not small has 'medium' active.  The converse of the
    last fails at width 740 only, where the screen is small and 'medium'
    is active. *)
Theorem size_predicates_and_breakpoints :
  ∀ (h : Host) (s : State),
    ∃ (small large : bool) (bps : list Breakpoint.t) (v : Viewport.t),
      returns (isSmallScreen h s) small
      ∧ returns (isLargeScreen h s) large
      ∧ returns (getBreakpoints h s) bps
      ∧ returns (getViewport h s) (Some v)
      ∧ small && large = false
      ∧ active_of "xlarge" bps = Some large
      ∧ (small = false → active_of "medium" bps = Some true)
      ∧ (small = true ∧ active_of "medium" bps = Some true ↔ Viewport.width v = 740).
Proof.
  intros h s.
  rewrite isSmallScreen_spec, isLargeScreen_spec, getBreakpoints_spec, getViewport_spec.
  set (w := Viewport.width (current h s)).
  eexists _, _, _, _. do 4 (split; [apply returns_Return|]).
  fold w. unfold active_of. cbn.
  destruct (Z.leb_spec w 740), (Z.geb_spec w 1150), (Z.geb_spec w 740);
    try lia; repeat split; try done; try lia; intros; try lia; try (intros []; done).
  - destruct H2; done.
Qed.

(** ** Resolution *)

Lemma two_is_more_than_1_3 a :
  Number.leb (Number.of_Z 2) a = true →
  Number.ltb (Number.div (Number.of_Z 13) (Number.of_Z 10)) a = true.
Proof.
  evaluate (Number.of_Z 2). evaluate (Number.div (Number.of_Z 13) (Number.of_Z 10)).
  intros [->|(m' & e' & -> & H)]%leb_finite_inv; [done|].
  apply ltb_finite_intro. lia.
Qed.

(** X14.  A retina screen is a high-density screen, as long as the
    browser's media queries are coherent: whenever one of the two retina
    queries matches, one of the two high-density queries does.  Without
    window.matchMedia nothing has to be assumed. *)
Theorem retina_is_high_density :
  ∀ h : Host,
    (∀ matches, matchMedia h = Some matches →
       matches retina_query1 || matches retina_query2 = true →
       matches highDensity_query1 || matches highDensity_query2 = true) →
    isRetina h = true → isHighDensity h = true.
Proof.
  intros h Hm. unfold isRetina, isHighDensity, media_matches.
  intros [Hr _]%andb_true_iff. apply orb_true_iff in Hr as [Hr|Hr].
  - destruct (matchMedia h) as [matches|]; [|done].
    by rewrite (Hm matches eq_refl Hr).
  - rewrite (two_is_more_than_1_3 _ Hr). apply orb_true_r.
Qed.

Lemma retina_is_high_density_witness :
  let h := mkHost iphoneUA None (Some (Number.of_Z 2)) None 375 667 375 667 in
  isRetina h = true ∧ isHighDensity h = true.
Proof.
  cbv zeta. split; [by vm_compute|].
  apply retina_is_high_density; [|by vm_compute].
  intros matches H. discriminate H.
Defined.

(** X15.  pixelRatio() is never zero or NaN: a missing, zero or NaN
    devicePixelRatio counts as 1.  On such a browser without
    window.matchMedia the screen is neither high-density nor retina. *)
Theorem pixel_ratio_defaults_to_one :
  ∀ h : Host,
    Number.truthy (pixelRatio h) = true
    ∧ (no_pixel_ratio h = true →
       pixelRatio h = Number.of_Z 1
       ∧ (matchMedia h = None → isHighDensity h = false ∧ isRetina h = false))
    ∧ (no_pixel_ratio h = false → devicePixelRatio h = Some (pixelRatio h)).
Proof.
  intros h. unfold no_pixel_ratio, isHighDensity, isRetina, media_matches, pixelRatio.
  destruct (devicePixelRatio h) as [x|]; [destruct (Number.truthy x) eqn:E|].
  - split; [done|]. split; [done|]. done.
  - split; [done|]. split; [|done]. intros _. split; [done|].
    intros ->. split; [done|]. done.
  - split; [done|]. split; [|done]. intros _. split; [done|].
    intros ->. split; [done|]. done.
Qed.

(** ** Environment *)

Lemma startsWith_spec p s : JsString.startsWith p s = true ↔ ∃ post, s = p +:+ post.
Proof.
  revert s. induction p as [|a p IH]; intros s; simpl.
  - split; [by exists s|done].
  - destruct s as [|b s]; [split; [done|by intros [? ?]]|].
    destruct (Ascii.eqb_spec a b) as [->|Hne].
    + rewrite IH. split; intros [post H]; exists post; [by rewrite H|].
      by injection H.
    + split; [done|]. intros [post H]. injection H as ? ?. done.
Qed.

Lemma occurs_cases p s :
  occurs p s ↔
  JsString.startsWith p s = true
  ∨ ∃ c s', s = String c s' ∧ occurs p s'.
Proof.
  split.
  - intros ([|c pre] & post & ->).
    + left. apply startsWith_spec. by exists post.
    + right. exists c, (pre +:+ p +:+ post). split; [done|]. by exists pre, post.
  - intros [H|(c & s' & -> & pre & post & ->)].
    + apply startsWith_spec in H as [post ->]. by exists EmptyString, post.
    + by exists (String c pre), post.
Qed.

Lemma indexOf_from_spec p s from :
  0 ≤ from →
  (JsString.indexOf_from p s from = -1 ∧ ¬ occurs p s)
  ∨ (from ≤ JsString.indexOf_from p s from ∧ occurs p s
     ∧ (JsString.indexOf_from p s from = from ↔ JsString.startsWith p s = true)).
Proof.
  revert from. induction s as [|c s IH]; intros from Hf.
  - cbn [JsString.indexOf_from].
    destruct (JsString.startsWith p EmptyString) eqn:E.
    + right. split; [lia|]. split; [apply occurs_cases; by left|done].
    + left. split; [done|]. intros [H|(c & s' & ? & _)]%occurs_cases; congruence.
  - cbn [JsString.indexOf_from].
    destruct (JsString.startsWith p (String c s)) eqn:E.
    + right. split; [lia|]. split; [apply occurs_cases; by left|done].
    + destruct (IH (from + 1)) as [[-> Hn]|(Hle & Ho & _)]; [lia| |].
      * left. split; [done|].
        intros [H|(c' & s' & [= <- <-] & H)]%occurs_cases; [congruence|done].
      * right. split; [lia|]. split; [apply occurs_cases; right; eauto|].
        split; [lia|done].
Qed.

Lemma indexOf_found s p : (-1 <? JsString.indexOf s p) = true ↔ occurs p s.
Proof.
  unfold JsString.indexOf.
  destruct (indexOf_from_spec p s 0) as [[-> Hn]|(Hle & Ho & _)]; [lia| |].
  - split; [done|]. intros; done.
  - split; [done|]. intros _. lia.
Qed.

Lemma indexOf_found_later s p :
  (0 <? JsString.indexOf s p) = true
  ↔ occurs p s ∧ JsString.startsWith p s = false.
Proof.
  unfold JsString.indexOf.
  destruct (indexOf_from_spec p s 0) as [[-> Hn]|(Hle & Ho & Hi)]; [lia| |].
  - split; [done|]. by intros [? _].
  - split.
    + intros H. split; [done|].
      destruct (JsString.startsWith p s); [|done].
      destruct Hi as [_ Hi]. rewrite Hi in H; [lia|done].
    + intros [_ Hs]. apply Z.ltb_lt.
      destruct (decide (JsString.indexOf_from p s 0 = 0)) as [H0|H0]; [|lia].
      apply Hi in H0. congruence.
Qed.

Lemma matched_test re s : matched (exec re s) = test re s.
Proof. unfold matched, test. by destruct (exec re s). Qed.

(** X16.  isApp() is true in four cases and no other: 'app.html' occurs
    in the address but not at its very start, 'nytapp' occurs in the
    query string, the user agent carries an nyt-ios or nyt-android token,
    or it names android while window.__HYBRID__ is truthy.  An address
    that begins with 'app.html' does not count, even if 'app.html' occurs
    in it again. *)
Theorem isApp_has_four_signals :
  ∀ (l : Location) (h : Host),
    (isApp l h = true ↔
       (occurs "app.html" (href l) ∧ JsString.startsWith "app.html" (href l) = false)
       ∨ occurs "nytapp" (search l)
       ∨ test isApp_regex (userAgent h) = true
       ∨ (test isApp_android_regex (userAgent h) = true
          ∧ truthy (__HYBRID__ l) = true))
    ∧ (∀ rest, href l = "app.html" +:+ rest → search l = EmptyString →
               test isApp_android_regex (userAgent h) = false →
               test isApp_regex (userAgent h) = false → isApp l h = false).
Proof.
  intros l h.
  assert (isApp l h = true ↔
       (occurs "app.html" (href l) ∧ JsString.startsWith "app.html" (href l) = false)
       ∨ occurs "nytapp" (search l)
       ∨ test isApp_regex (userAgent h) = true
       ∨ (test isApp_android_regex (userAgent h) = true
          ∧ truthy (__HYBRID__ l) = true)) as Hiff.
  { unfold isApp, getUserAgent. rewrite !matched_test, !orb_true_iff, andb_true_iff.
    rewrite indexOf_found_later, indexOf_found. tauto. }
  split; [exact Hiff|].
  intros rest Hh Hs Ha Hn. apply not_true_iff_false. intros E.
  apply Hiff in E as [[_ E]|[E|[E|[E _]]]]; try congruence.
  - assert (JsString.startsWith "app.html" (href l) = true) as H
      by (apply startsWith_spec; eauto). congruence.
  - rewrite Hs in E. destruct E as (pre & post & E). by destruct pre.
Qed.

Lemma android_hybrid h :
  test isAndroid_regex (userAgent h) = true →
  test isApp_android_regex (userAgent h) = true.
Proof. by apply (test_refines (lit "Android") (lit "android")). Qed.

(** X17.  Whatever isAndroid() recognises is an app once
    window.__HYBRID__ is truthy, and so is every user agent that contains
    one of the tokens nytios, nyt-ios, nyt_ios, nytandroid, nyt-android,
    nyt_android, whatever the address. *)
Theorem hybrid_android_and_nyt_tokens_are_apps :
  ∀ (l : Location) (h : Host) (s : State),
    reachable h s →
    (returns (isAndroid h s) (VBool true) → truthy (__HYBRID__ l) = true →
     isApp l h = true)
    ∧ (∀ sep os, sep ∈ [EmptyString; "-"; "_"] → os ∈ ["ios"; "android"] →
                 occurs ("nyt" +:+ sep +:+ os) (userAgent h) → isApp l h = true).
Proof.
  intros l h s Hs. split.
  - intros Hr Ht.
    pose proof (returns_good h _ _ _ s (good_isAndroid h) Hs Hr) as [= Ha].
    unfold isApp, getUserAgent. rewrite !matched_test.
    unfold uaTest in Ha. rewrite (android_hybrid h) by done. rewrite Ht.
    by rewrite !orb_true_r.
  - intros sep os Hsep Hos (pre & post & Hu).
    unfold isApp, getUserAgent. rewrite !matched_test.
    assert (test isApp_regex (userAgent h) = true) as ->; [|by rewrite !orb_true_r].
    apply test_iff. exists pre, ("nyt" +:+ sep +:+ os +:+ post).
    split; [by rewrite Hu, !string_app_assoc|].
    repeat (apply elem_of_cons in Hsep as [->|Hsep]);
      [| | |by apply elem_of_nil in Hsep];
      (repeat (apply elem_of_cons in Hos as [->|Hos]);
       [| |by apply elem_of_nil in Hos]);
      vm_compute; by eexists.
Qed.

Lemma hybrid_android_and_nyt_tokens_are_apps_witness :
  let l := mkLocation "https://www.nytimes.com/article.html" EmptyString
             "www.nytimes.com" (VBool true) in
  let h := device "Mozilla/5.0 (Linux; Android 9; Pixel 3) AppleWebKit/537.36" None in
  isApp l h = true.
Proof.
  cbv zeta.
  set (l := mkLocation _ _ _ _). set (h := device _ _).
  destruct (hybrid_android_and_nyt_tokens_are_apps l h initial (reachable_initial h))
    as [H _].
  apply H; [|reflexivity]. eexists. by vm_compute.
Defined.

(** X18.  getEnvironment() returns 'development' exactly when the host
    name contains 'localhost', 'preview' exactly when it is
    preview.nyt.net, and 'production' otherwise: the order of the two tests
    does not matter. *)
Theorem getEnvironment_cases :
  ∀ l : Location,
    (getEnvironment l = "development" ↔ occurs "localhost" (hostname l))
    ∧ (getEnvironment l = "preview" ↔ hostname l = "preview.nyt.net")
    ∧ (getEnvironment l = "production"
       ↔ ¬ occurs "localhost" (hostname l) ∧ hostname l ≠ "preview.nyt.net").
Proof.
  intros l. unfold getEnvironment.
  pose proof (indexOf_found (hostname l) "localhost") as Hl.
  destruct (-1 <? JsString.indexOf (hostname l) "localhost") eqn:E.
  - assert (occurs "localhost" (hostname l)) as Ho by (by apply Hl).
    split; [done|]. split; [|split; [done|by intros [? _]]].
    split; [done|]. intros Hp. rewrite Hp in E. by vm_compute in E.
  - assert (¬ occurs "localhost" (hostname l)) as Ho
      by (intros Ho; apply Hl in Ho; congruence).
    destruct (String.eqb_spec (hostname l) "preview.nyt.net") as [Hp|Hp].
    + split; [done|]. split; [done|]. split; [done|]. by intros [_ ?].
    + split; [done|]. split; [done|]. done.
Qed.

(** ** The classes of the page *)

Lemma bind_Return {A B} (m : M A) (f : A → M B) h s a s' :
  m h s = Return a s' → bind m f h s = f a h s'.
Proof. unfold bind. by intros ->. Qed.

Lemma foldl_map {A B C} (f : A → C → A) (g : B → C) (a : A) (l : list B) :
  foldl f a (map g l) = foldl (λ a b, f a (g b)) a l.
Proof. revert a. induction l as [|b l IH]; intros a; [done|]. simpl. by rewrite IH. Qed.

Lemma foldl_ext {A B} (f g : A → B → A) (a : A) (l : list B) :
  (∀ a b, f a b = g a b) → foldl f a l = foldl g a l.
Proof.
  intros H. revert a. induction l as [|b l IH]; intros a; [done|]. simpl.
  by rewrite H, IH.
Qed.

(** What a sequence of steps does to a class. *)
Lemma show_classes log c items d :
  c ∈ classList (foldl (show log) d items)
  ↔ match flag c items with
    | Some b => b = true
    | None => c ∈ classList d
    end.
Proof.
  revert d. induction items as [|item items IH]; intros d; [done|].
  cbn [foldl flag]. rewrite IH. destruct (flag c items) as [b|]; [done|].
  unfold show. destruct (String.eqb_spec item.1.1 c) as [<-|Hne].
  - destruct (truthy item.2), log; cbn;
      rewrite ?elem_of_union, ?elem_of_difference, ?elem_of_singleton;
      intuition congruence.
  - destruct (truthy item.2), log; cbn;
      rewrite ?elem_of_union, ?elem_of_difference, ?elem_of_singleton;
      intuition congruence.
Qed.

Lemma show_console log items d :
  console (foldl (show log) d items)
  = (console d ++ if log then map (λ i : string * string * value, (i.1.2, i.2)) items
                  else [])%list.
Proof.
  revert d. induction items as [|item items IH]; intros d.
  - destruct log; by rewrite app_nil_r.
  - cbn [foldl]. rewrite IH. unfold show.
    destruct (truthy item.2), log; cbn; by rewrite <- ?app_assoc.
Qed.

Lemma flag_None c items : flag c items = None ↔ c ∉ map (λ i, i.1.1) items.
Proof.
  induction items as [|item items IH]; cbn [flag map].
  - split; [intros _; apply not_elem_of_nil|done].
  - rewrite not_elem_of_cons. destruct (flag c items) as [b|].
    + split; [done|]. intros [_ H]. by apply IH in H.
    + destruct (String.eqb_spec item.1.1 c) as [<-|Hne].
      * split; [done|]. by intros [? _].
      * split; [|done]. intros _. split; [done|]. by apply IH.
Qed.

(** [getState] from a consistent cache and a measured viewport. *)
Lemma getState_spec l h s v :
  consistent h s → cachedViewport s = Some v →
  ∃ s', getState l h s = Return (state_values l h v) s'
        ∧ consistent h s' ∧ cachedViewport s' = Some v
        ∧ s' = run (map (λ q, (h, Ask q))
                      [ IsIos; IsAndroid; IsIphone; IsMobile; IsDesktop; IsLandscape;
                        IsPortrait; IsWideScreen; IsSmallScreen; IsLargeScreen ]) s.
Proof.
  intros Hc Hv. unfold getState.
  rewrite (bind_Return (read (isApp l)) _ h s (isApp l h) s) by done.
  destruct (good_isIos h s Hc) as (s1 & E1 & C1 & V1).
  rewrite (bind_Return _ _ _ _ _ _ E1).
  destruct (good_isAndroid h s1 C1) as (s2 & E2 & C2 & V2).
  rewrite (bind_Return _ _ _ _ _ _ E2).
  destruct (good_isIphone h s2 C2) as (s3 & E3 & C3 & V3).
  rewrite (bind_Return _ _ _ _ _ _ E3).
  destruct (good_isMobile h s3 C3) as (s4 & E4 & C4 & V4).
  rewrite (bind_Return _ _ _ _ _ _ E4).
  destruct (good_isDesktop h s4 C4) as (s5 & E5 & C5 & V5).
  rewrite (bind_Return _ _ _ _ _ _ E5).
  assert (cachedViewport s5 = Some v) as Hv5 by congruence.
  pose proof (seen_id h s5 v Hv5) as Hseen.
  pose proof (current_stored h s5 v Hv5) as Hcur.
  assert (isLandscape h s5 = Return (viewport_answers v).1.1.1.1 s5) as L1
    by (by rewrite isLandscape_spec, Hseen, Hcur).
  assert (isPortrait h s5 = Return (viewport_answers v).1.1.1.2 s5) as L2
    by (by rewrite isPortrait_spec, Hseen, Hcur).
  assert (isWideScreen h s5 = Return (viewport_answers v).1.1.2 s5) as L3
    by (by rewrite isWideScreen_spec, Hseen, Hcur).
  assert (isSmallScreen h s5 = Return (viewport_answers v).1.2 s5) as L4
    by (by rewrite isSmallScreen_spec, Hseen, Hcur).
  assert (isLargeScreen h s5 = Return (viewport_answers v).2 s5) as L5
    by (by rewrite isLargeScreen_spec, Hseen, Hcur).
  rewrite (bind_Return _ _ _ _ _ _ L1), (bind_Return _ _ _ _ _ _ L2),
    (bind_Return _ _ _ _ _ _ L3), (bind_Return _ _ _ _ _ _ L4),
    (bind_Return _ _ _ _ _ _ L5).
  rewrite (bind_Return (read isHighDensity) _ h s5 (isHighDensity h) s5) by done.
  rewrite (bind_Return (read isRetina) _ h s5 (isRetina h) s5) by done.
  exists s5. split; [done|]. split; [done|]. split; [done|].
  cbn [run map foldl perform ask fst snd].
  rewrite E1. cbn [final_state]. rewrite E2. cbn [final_state].
  rewrite E3. cbn [final_state]. rewrite E4. cbn [final_state].
  rewrite E5. cbn [final_state]. rewrite L1. cbn [final_state].
  rewrite L2. cbn [final_state]. rewrite L3. cbn [final_state].
  rewrite L4. cbn [final_state]. rewrite L5. done.
Qed.

(** [prepEnvironment] from a consistent cache. *)
Lemma prepEnvironment_spec dbg l h s d :
  consistent h s →
  ∃ s', prepEnvironment dbg l h s d
        = Done s' (foldl (show (truthy dbg)) d
                     (shown (Viewport.width (measure h)) (state_values l h (measure h))))
        ∧ consistent h s' ∧ cachedViewport s' = Some (measure h)
        ∧ s' = run (prepEnvironment_calls h) s.
Proof.
  intros Hc. unfold prepEnvironment.
  set (s0 := mkState (cache s) (Some (measure h))).
  assert ((setViewport;;; getBreakpoints) h s
          = Return (map (λ e : string * Z,
                           Breakpoint.mk e.2 e.1 (Viewport.width (measure h) >=? e.2))
                      (entries breakpoints)) s0) as ->.
  { unfold bind at 1. rewrite setViewport_spec, getBreakpoints_spec. done. }
  destruct (getState_spec l h s0 (measure h) Hc eq_refl) as (s' & -> & Hc' & Hv' & Hr).
  exists s'. split; [|split; [done|split; [done|]]].
  - f_equal. unfold shown. rewrite foldl_app, !foldl_map.
    assert (truthy (if truthy dbg then dbg else debug) = truthy dbg) as ->
      by (by destruct (truthy dbg) eqn:E).
    done.
  - rewrite Hr. unfold prepEnvironment_calls.
    cbn [run map foldl perform ask fst snd].
    rewrite setViewport_spec. cbn [final_state]. fold s0.
    rewrite getBreakpoints_spec. cbn [final_state].
    by rewrite (seen_id h s0 (measure h)).
Qed.

Lemma reachable_run h calls s :
  Forall (λ hc : Host * call, same_device h hc.1) calls →
  reachable h s → reachable h (run calls s).
Proof.
  intros Hd (calls0 & Hd0 & ->). exists (calls0 ++ calls)%list.
  split; [by apply Forall_app|]. unfold run. by rewrite foldl_app.
Qed.

Lemma same_device_refl h : same_device h h.
Proof. done. Qed.

Lemma prepEnvironment_calls_same_device h :
  Forall (λ hc : Host * call, same_device h hc.1) (prepEnvironment_calls h).
Proof. unfold prepEnvironment_calls. repeat constructor. Qed.

(** What the functions of [getState] return once the viewport is
    measured. *)
Lemma state_functions_return l h s v fn f :
  reachable h s → cachedViewport s = Some v →
  (fn, f) ∈ state_functions l →
  ∃ x, (fn, x) ∈ state_values l h v ∧ returns (f h s) x
       ∧ flag (state_class fn) (shown (Viewport.width v) (state_values l h v))
         = Some (truthy x).
Proof.
  intros Hs Hv Hf.
  pose proof (seen_id h s v Hv) as Hseen.
  pose proof (current_stored h s v Hv) as Hcur.
  unfold state_functions in Hf. unfold state_values, shown.
  destruct (viewport_answers v) as [[[[a1 a2] a3] a4] a5] eqn:Ha.
  unfold viewport_answers in Ha. injection Ha as <- <- <- <- <-.
  repeat (apply elem_of_cons in Hf as [[= -> ->]|Hf]);
    [..|by apply elem_of_nil in Hf];
    (eexists; split; [in_list|]; split;
     [ first [ by eexists
             | apply good_returns_value; [|done];
               first [apply good_isIos|apply good_isAndroid|apply good_isIphone
                     |apply good_isMobile|apply good_isDesktop]
             | unfold as_value;
               first [ erewrite bind_Return by apply isLandscape_spec
                     | erewrite bind_Return by apply isPortrait_spec
                     | erewrite bind_Return by apply isWideScreen_spec
                     | erewrite bind_Return by apply isSmallScreen_spec
                     | erewrite bind_Return by apply isLargeScreen_spec ];
               rewrite Hcur; by eexists ]
     | ]).
  all: generalize (isApp l h), (uaTest isIos_regex h), (uaTest isAndroid_regex h),
         (uaTest isIphone_regex h), (mobile h), (isHighDensity h), (isRetina h),
         (Number.ltb (Number.of_Z 1) (Viewport.aspectRatio v)),
         (Number.ltb (Number.div (Number.of_Z 1440) (Number.of_Z 1029))
            (Viewport.aspectRatio v)),
         (Viewport.width v); intros; by vm_compute.
Qed.

Lemma breakpoint_flag l h v name width :
  (name, width) ∈ entries breakpoints →
  flag (breakpoint_class name) (shown (Viewport.width v) (state_values l h v))
  = Some (Viewport.width v >=? width).
Proof.
  intros He. unfold state_values, shown.
  destruct (viewport_answers v) as [[[[a1 a2] a3] a4] a5].
  unfold entries, breakpoints in He. cbn in He.
  repeat (apply elem_of_cons in He as [[= -> ->]|He]);
    [..|by apply elem_of_nil in He];
    generalize (isApp l h), (uaTest isIos_regex h), (uaTest isAndroid_regex h),
      (uaTest isIphone_regex h), (mobile h), (isHighDensity h), (isRetina h),
      (Viewport.width v); intros; by vm_compute.
Qed.

Lemma shown_classes l h v :
  map (λ i : string * string * value, i.1.1)
      (shown (Viewport.width v) (state_values l h v)) = managed_classes.
Proof.
  unfold state_values, shown. by destruct (viewport_answers v) as [[[[a1 a2] a3] a4] a5].
Qed.

Lemma state_values_bool l h v fn x :
  (fn, x) ∈ state_values l h v → ∃ b, x = VBool b.
Proof.
  unfold state_values. destruct (viewport_answers v) as [[[[a1 a2] a3] a4] a5].
  intros H. repeat (apply elem_of_cons in H as [[= -> ->]|H]); eauto.
  by apply elem_of_nil in H.
Qed.

(** X19.  From every state of the page prepEnvironment() returns, with
    the viewport measured anew, and leaves on the html element: the class
    of a breakpoint exactly when the measured width reaches it; the class
    of a property of getState() exactly when the function of that name
    now returns true; every other class as it was. *)
Theorem prepEnvironment_sets_the_classes :
  ∀ (dbg : value) (l : Location) (h : Host) (s : State) (d : Document),
    reachable h s →
    ∃ (s' : State) (d' : Document),
      prepEnvironment dbg l h s d = Done s' d'
      ∧ reachable h s'
      ∧ returns (getViewport h s') (Some (measure h))
      ∧ (∀ name width, (name, width) ∈ entries breakpoints →
           (breakpoint_class name ∈ classList d' ↔ width ≤ Viewport.width (measure h)))
      ∧ (∀ fn f, (fn, f) ∈ state_functions l →
           (state_class fn ∈ classList d' ↔ returns (f h s') (VBool true)))
      ∧ (∀ c, c ∉ managed_classes → (c ∈ classList d' ↔ c ∈ classList d)).
Proof.
  intros dbg l h s d Hs.
  destruct (prepEnvironment_spec dbg l h s d (reachable_consistent h s Hs))
    as (s' & -> & Hc' & Hv' & Hr).
  assert (reachable h s') as Hs'.
  { rewrite Hr. apply reachable_run; [apply prepEnvironment_calls_same_device|done]. }
  eexists _, _. split; [reflexivity|]. split; [done|]. split; [|split; [|split]].
  - rewrite getViewport_spec, (current_stored h s' _ Hv'). by eexists.
  - intros name width He. rewrite show_classes, (breakpoint_flag l h _ name width He).
    destruct (Z.geb_spec (Viewport.width (measure h)) width); split; try done; lia.
  - intros fn f Hf.
    destruct (state_functions_return l h s' (measure h) fn f Hs' Hv' Hf)
      as (x & Hx & Hret & Hflag).
    rewrite show_classes, Hflag.
    destruct (state_values_bool l h _ fn x Hx) as [b ->]. simpl. split.
    + by intros ->.
    + intros H. by injection (returns_inj _ _ _ H Hret).
  - intros c Hn. rewrite show_classes.
    rewrite <- shown_classes with (l := l) (h := h) (v := measure h) in Hn.
    apply flag_None in Hn. by rewrite Hn.
Qed.

Lemma prepEnvironment_sets_the_classes_witness :
  let l := mkLocation "https://www.nytimes.com/" EmptyString "www.nytimes.com" VUndefined in
  let h := device iphoneUA None in
  let d := mkDocument {[ "story" ]} [] in
  reachable h initial
  ∧ ∃ (s' : State) (d' : Document),
      prepEnvironment VUndefined l h initial d = Done s' d'
      ∧ reachable h s'
      ∧ returns (getViewport h s') (Some (measure h))
      ∧ (∀ name width, (name, width) ∈ entries breakpoints →
           (breakpoint_class name ∈ classList d' ↔ width ≤ Viewport.width (measure h)))
      ∧ (∀ fn f, (fn, f) ∈ state_functions l →
           (state_class fn ∈ classList d' ↔ returns (f h s') (VBool true)))
      ∧ (∀ c, c ∉ managed_classes → (c ∈ classList d' ↔ c ∈ classList d)).
Proof.
  cbv zeta. split; [apply reachable_initial|].
  apply prepEnvironment_sets_the_classes, reachable_initial.
Defined.

Lemma document_eq d d' :
  classList d = classList d' → console d = console d' → d = d'.
Proof. destruct d, d'. simpl. by intros -> ->. Qed.

(** X20.  The classes prepEnvironment() leaves depend on the browser, the
    address and the unmanaged classes only: not on the cache, on an older
    viewport, on the debug flag or on the managed classes that were set
    before.  So a second call changes no class, and without debugging
    nothing at all in the document. *)
Theorem prepEnvironment_is_idempotent :
  ∀ (dbg dbg' : value) (l : Location) (h : Host) (s s' : State) (d d' : Document),
    reachable h s → reachable h s' →
    (∀ c, c ∉ managed_classes → (c ∈ classList d ↔ c ∈ classList d')) →
    classList (page_document (prepEnvironment dbg l h s d))
    = classList (page_document (prepEnvironment dbg' l h s' d'))
    ∧ ∃ s1 d1 s2 d2,
        prepEnvironment dbg l h s d = Done s1 d1
        ∧ prepEnvironment dbg' l h s1 d1 = Done s2 d2
        ∧ classList d2 = classList d1
        ∧ (truthy dbg' = false → d2 = d1).
Proof.
  intros dbg dbg' l h s s' d d' Hs Hs' Hd.
  assert (∀ b b' e e',
            (∀ c, c ∉ managed_classes → (c ∈ classList e ↔ c ∈ classList e')) →
            classList (foldl (show b) e
                         (shown (Viewport.width (measure h))
                            (state_values l h (measure h))))
            = classList (foldl (show b') e'
                           (shown (Viewport.width (measure h))
                              (state_values l h (measure h))))) as Hsame.
  { intros b b' e e' He. apply set_eq. intros c. rewrite !show_classes.
    destruct (flag c _) as [x|] eqn:E; [done|].
    apply flag_None in E. rewrite shown_classes in E. by apply He. }
  destruct (prepEnvironment_spec dbg l h s d (reachable_consistent h s Hs))
    as (s1 & E1 & C1 & V1 & R1).
  destruct (prepEnvironment_spec dbg' l h s' d' (reachable_consistent h s' Hs'))
    as (s1' & E1' & _).
  destruct (prepEnvironment_spec dbg' l h s1
              (foldl (show (truthy dbg)) d
                 (shown (Viewport.width (measure h)) (state_values l h (measure h)))) C1)
    as (s2 & E2 & _).
  split.
  - rewrite E1, E1'. cbn [page_document]. by apply Hsame.
  - eexists _, _, _, _. split; [exact E1|]. split; [exact E2|].
    assert (∀ c, c ∉ managed_classes →
                 c ∈ classList
                       (foldl (show (truthy dbg')) (foldl (show (truthy dbg)) d
                          (shown (Viewport.width (measure h))
                             (state_values l h (measure h))))
                          (shown (Viewport.width (measure h))
                             (state_values l h (measure h))))
                 ↔ c ∈ classList (foldl (show (truthy dbg)) d
                          (shown (Viewport.width (measure h))
                             (state_values l h (measure h))))) as Hkeep.
    { intros c Hc. rewrite show_classes.
      rewrite <- shown_classes with (l := l) (h := h) (v := measure h) in Hc.
      apply flag_None in Hc. by rewrite Hc. }
    assert (classList
              (foldl (show (truthy dbg')) (foldl (show (truthy dbg)) d
                 (shown (Viewport.width (measure h)) (state_values l h (measure h))))
                 (shown (Viewport.width (measure h)) (state_values l h (measure h))))
            = classList (foldl (show (truthy dbg)) d
                 (shown (Viewport.width (measure h)) (state_values l h (measure h)))))
      as Hcl.
    { apply set_eq. intros c. rewrite (show_classes (truthy dbg')).
      destruct (flag c _) as [x|] eqn:E.
      - rewrite show_classes, E. done.
      - done. }
    split; [exact Hcl|].
    intros Hq. apply document_eq; [exact Hcl|].
    rewrite (show_console (truthy dbg')), Hq. by rewrite app_nil_r.
Qed.

Lemma prepEnvironment_is_idempotent_witness :
  let l := mkLocation "https://www.nytimes.com/" EmptyString "www.nytimes.com" VUndefined in
  let h := device iphoneUA None in
  let d := mkDocument {[ "story" ]} [] in
  ∃ s1 d1 s2 d2,
    prepEnvironment VUndefined l h initial d = Done s1 d1
    ∧ prepEnvironment VUndefined l h s1 d1 = Done s2 d2
    ∧ classList d2 = classList d1
    ∧ (truthy VUndefined = false → d2 = d1).
Proof.
  cbv zeta.
  set (l := mkLocation _ _ _ _). set (h := device _ _). set (d := mkDocument _ _).
  exact (proj2 (prepEnvironment_is_idempotent VUndefined VUndefined l h initial initial
                  d d (reachable_initial h) (reachable_initial h) (λ c _, iff_refl _))).
Defined.

(** X21.  prepEnvironment writes to the console only when it is called
    with a truthy argument, the module's own debug flag being false: then
    it logs the seven breakpoints and the thirteen properties of
    getState(), in this order, each with the value the page now reports. *)
Theorem prepEnvironment_logs_only_when_asked :
  ∀ (dbg : value) (l : Location) (h : Host) (s : State) (d : Document),
    reachable h s →
    ∃ (s' : State) (d' : Document) (bps : list Breakpoint.t)
      (testResults : list (string * value)),
      prepEnvironment dbg l h s d = Done s' d'
      ∧ returns (getBreakpoints h s') bps
      ∧ returns (getState l h s') testResults
      ∧ console d'
        = (console d
           ++ if truthy dbg
              then map (λ b, (Breakpoint.name b, VBool (Breakpoint.active b))) bps
                   ++ testResults
              else [])%list.
Proof.
  intros dbg l h s d Hs.
  destruct (prepEnvironment_spec dbg l h s d (reachable_consistent h s Hs))
    as (s' & -> & Hc' & Hv' & Hr).
  destruct (getState_spec l h s' (measure h) Hc' Hv') as (s'' & Hg & _).
  eexists _, _, _, _. split; [reflexivity|].
  split; [rewrite getBreakpoints_spec; by eexists|].
  split; [rewrite Hg; by eexists|].
  rewrite show_console. f_equal. destruct (truthy dbg); [|done].
  unfold shown. rewrite map_app, !map_map, (current_stored h s' _ Hv'). f_equal.
Qed.

Lemma prepEnvironment_logs_only_when_asked_witness :
  let l := mkLocation "https://www.nytimes.com/" EmptyString "www.nytimes.com" VUndefined in
  let h := device iphoneUA None in
  let d := mkDocument ∅ [] in
  ∃ (s' : State) (d' : Document) (bps : list Breakpoint.t)
    (testResults : list (string * value)),
    prepEnvironment (VBool true) l h initial d = Done s' d'
    ∧ returns (getBreakpoints h s') bps
    ∧ returns (getState l h s') testResults
    ∧ console d'
      = (map (λ b, (Breakpoint.name b, VBool (Breakpoint.active b))) bps
         ++ testResults)%list.
Proof.
  cbv zeta.
  set (l := mkLocation _ _ _ _). set (h := device _ _). set (d := mkDocument _ _).
  exact (prepEnvironment_logs_only_when_asked (VBool true) l h initial d
           (reachable_initial h)).
Defined.

(** The classes of the thirteen properties and the seven breakpoints,
    after the two loops. *)
Lemma page_classes log l h v d :
  let cl := classList (foldl (show log) d
                         (shown (Viewport.width v) (state_values l h v))) in
  ("g-page-isios" ∈ cl ↔ uaTest isIos_regex h = true)
  ∧ ("g-page-isandroid" ∈ cl ↔ uaTest isAndroid_regex h = true)
  ∧ ("g-page-isiphone" ∈ cl ↔ uaTest isIphone_regex h = true)
  ∧ ("g-page-ismobile" ∈ cl ↔ mobile h = true)
  ∧ ("g-page-isdesktop" ∈ cl ↔ negb (mobile h) = true)
  ∧ ("g-page-islandscape" ∈ cl
     ↔ Number.ltb (Number.of_Z 1) (Viewport.aspectRatio v) = true)
  ∧ ("g-page-isportrait" ∈ cl
     ↔ negb (Number.ltb (Number.of_Z 1) (Viewport.aspectRatio v)) = true)
  ∧ ("g-page-iswidescreen" ∈ cl ↔ Number.ltb wide_ratio (Viewport.aspectRatio v) = true)
  ∧ ("g-page-issmallscreen" ∈ cl ↔ (Viewport.width v <=? 740) = true)
  ∧ ("g-page-islargescreen" ∈ cl ↔ (Viewport.width v >=? 1150) = true)
  ∧ ("g-page-isretina" ∈ cl ↔ isRetina h = true)
  ∧ ("g-viewport-xlarge" ∈ cl ↔ (Viewport.width v >=? 1150) = true).
Proof.
  cbv zeta. unfold state_values, shown, viewport_answers.
  change wide_ratio with (Number.div (Number.of_Z 1440) (Number.of_Z 1029)).
  split_and!; rewrite show_classes;
    generalize (isApp l h), (uaTest isIos_regex h), (uaTest isAndroid_regex h),
      (uaTest isIphone_regex h), (mobile h), (isHighDensity h), (isRetina h),
      (Number.ltb (Number.of_Z 1) (Viewport.aspectRatio v)),
      (Number.ltb (Number.div (Number.of_Z 1440) (Number.of_Z 1029))
         (Viewport.aspectRatio v)),
      (Viewport.width v); intros; by vm_compute.
Qed.

Lemma apple_token_then_iP s : test isRetina_regex s = true → test isIos_regex s = true.
Proof.
  intros [H|[H|H]]%apple_token_iff; destruct H as (pre & post & ->);
    apply test_true, exec_is_Some; vm_compute; by eexists.
Qed.

(** X22.  The classes prepEnvironment() leaves are coherent: exactly one
    of g-page-ismobile and g-page-isdesktop, exactly one of
    g-page-islandscape and g-page-isportrait; a wide screen is landscape;
    an iPhone is iOS, a retina screen is iOS, iOS and Android are mobile;
    a screen is never both small and large, and it is large exactly when
    the xlarge breakpoint is on; and with a breakpoint every smaller
    breakpoint is on. *)
Theorem page_classes_are_coherent :
  ∀ (dbg : value) (l : Location) (h : Host) (s : State) (d : Document),
    reachable h s →
    let cl := classList (page_document (prepEnvironment dbg l h s d)) in
    ("g-page-ismobile" ∈ cl ↔ "g-page-isdesktop" ∉ cl)
    ∧ ("g-page-islandscape" ∈ cl ↔ "g-page-isportrait" ∉ cl)
    ∧ ("g-page-iswidescreen" ∈ cl → "g-page-islandscape" ∈ cl)
    ∧ ("g-page-isiphone" ∈ cl → "g-page-isios" ∈ cl)
    ∧ ("g-page-isretina" ∈ cl → "g-page-isios" ∈ cl)
    ∧ ("g-page-isios" ∈ cl ∨ "g-page-isandroid" ∈ cl → "g-page-ismobile" ∈ cl)
    ∧ ¬ ("g-page-issmallscreen" ∈ cl ∧ "g-page-islargescreen" ∈ cl)
    ∧ ("g-page-islargescreen" ∈ cl ↔ "g-viewport-xlarge" ∈ cl)
    ∧ (∀ n1 w1 n2 w2,
         (n1, w1) ∈ entries breakpoints → (n2, w2) ∈ entries breakpoints → w1 ≤ w2 →
         breakpoint_class n2 ∈ cl → breakpoint_class n1 ∈ cl).
Proof.
  intros dbg l h s d Hs. cbv zeta.
  destruct (prepEnvironment_spec dbg l h s d (reachable_consistent h s Hs))
    as (s' & -> & _).
  cbn [page_document]. set (cl := classList _).
  destruct (page_classes (truthy dbg) l h (measure h) d)
    as (Hios & Hand & Hiph & Hmob & Hdesk & Hland & Hport & Hwide & Hsmall & Hlarge
        & Hret & Hxl).
  fold cl in Hios, Hand, Hiph, Hmob, Hdesk, Hland, Hport, Hwide, Hsmall, Hlarge, Hret, Hxl.
  split_and!.
  - rewrite Hmob, Hdesk. by destruct (mobile h).
  - rewrite Hland, Hport. by destruct (Number.ltb _ _).
  - rewrite Hwide, Hland. apply wide_is_landscape.
  - rewrite Hiph, Hios. apply iPhone_then_iP.
  - rewrite Hret, Hios. unfold isRetina, getUserAgent.
    intros [_ H]%andb_true_iff. by apply apple_token_then_iP.
  - rewrite Hios, Hand, Hmob. unfold mobile. intros [->| ->]; [|done].
    by rewrite orb_true_r.
  - rewrite Hsmall, Hlarge. lia.
  - by rewrite Hlarge, Hxl.
  - intros n1 w1 n2 w2 H1 H2 Hle. unfold cl.
    rewrite !show_classes, (breakpoint_flag l h _ _ _ H1), (breakpoint_flag l h _ _ _ H2).
    lia.
Qed.

Lemma page_classes_are_coherent_witness :
  let l := mkLocation "https://www.nytimes.com/" EmptyString "www.nytimes.com" VUndefined in
  let h := device iphoneUA None in
  let cl := classList (page_document (prepEnvironment VUndefined l h initial
                                        (mkDocument ∅ []))) in
  "g-page-ismobile" ∈ cl ↔ "g-page-isdesktop" ∉ cl.
Proof.
  cbv zeta.
  set (l := mkLocation _ _ _ _). set (h := device _ _). set (d := mkDocument _ _).
  exact (proj1 (page_classes_are_coherent VUndefined l h initial d (reachable_initial h))).
Defined.

(** X23.  Loading the module leaves the class of the environment on the
    html element, next to the classes of prepEnvironment(); the classes
    of the other two environments are as they were. *)
Theorem load_sets_the_environment_class :
  ∀ (l : Location) (h : Host) (d : Document),
    ∃ (s' : State) (d' : Document),
      load l h d = Done s' d'
      ∧ reachable h s'
      ∧ getEnvironment l ∈ ["development"; "preview"; "production"]
      ∧ ("g-page-" +:+ getEnvironment l) ∈ classList d'
      ∧ (∀ env, env ∈ ["development"; "preview"; "production"] →
                env ≠ getEnvironment l →
                ("g-page-" +:+ env) ∈ classList d' ↔ ("g-page-" +:+ env) ∈ classList d)
      ∧ (∀ c, c ∈ classList d' →
              c ∈ classList d ∨ c = "g-page-" +:+ getEnvironment l ∨ c ∈ managed_classes).
Proof.
  intros l h d. unfold load.
  destruct (prepEnvironment_spec VUndefined l h initial
              (classList.add (classNamePrefixes.env +:+ "-" +:+ getEnvironment l) d)
              (consistent_initial h)) as (s' & -> & _ & _ & Hr).
  eexists _, _. split; [reflexivity|].
  assert (getEnvironment l ∈ ["development"; "preview"; "production"]) as He.
  { unfold getEnvironment. destruct (_ <? _); [in_list|].
    destruct (String.eqb _ _); in_list. }
  assert (∀ env, env ∈ ["development"; "preview"; "production"] →
                 flag ("g-page-" +:+ env)
                   (shown (Viewport.width (measure h)) (state_values l h (measure h)))
                 = None) as Hnone.
  { intros env Henv. apply flag_None. rewrite shown_classes.
    repeat (apply elem_of_cons in Henv as [->|Henv]);
      [..|by apply elem_of_nil in Henv];
      refine (bool_decide_unpack _ _); by vm_compute. }
  split; [|split; [done|split; [|split]]].
  - rewrite Hr. apply reachable_run; [apply prepEnvironment_calls_same_device|].
    apply reachable_initial.
  - rewrite show_classes, (Hnone _ He). cbn. apply elem_of_union. left.
    by apply elem_of_singleton.
  - intros env Henv Hne. rewrite show_classes, (Hnone _ Henv). cbn.
    rewrite elem_of_union, elem_of_singleton. split; [|by right].
    intros [H|H]; [|done]. change (classNamePrefixes.env +:+ "-") with "g-page-" in H.
    exfalso. apply Hne. clear -H. by injection H.
  - intros c. rewrite show_classes.
    destruct (flag c _) as [b|] eqn:E.
    + intros _. right. right. rewrite <- (shown_classes l h (measure h)).
      destruct (decide (c ∈ map (λ i : string * string * value, i.1.1)
                              (shown (Viewport.width (measure h))
                                 (state_values l h (measure h))))) as [|Hn]; [done|].
      apply flag_None in Hn. congruence.
    + cbn. rewrite elem_of_union, elem_of_singleton. intros [->|H]; [|by left].
      right. by left.
Qed.

(** ** debounce *)

Module DebounceFacts.
Import Debounce DebounceSpec.

Section Facts.
Context {World Arg Res : Type}.
Variable func : Arg → World → World * completion Res.
Variable wait : Z.
Variable immediate : value.


Lemma state_eta (x : t World Arg Res) :
  mk (world x) (result x) (timeout x) (timers x) (next_id x) = x.
Proof. by destruct x. Qed.

Lemma advance_idle now (x : t World Arg Res) : timers x = [] → advance func immediate now x = x.
Proof. intros H. unfold advance. rewrite H. simpl. rewrite <- H. apply state_eta. Qed.

Lemma advance_early now (x : t World Arg Res) tm :
  timers x = [tm] → now < due tm → advance func immediate now x = x.
Proof.
  intros H Hd. unfold advance. rewrite H. simpl.
  destruct (Z.leb_spec (due tm) now); [lia|]. simpl. rewrite <- H. apply state_eta.
Qed.

Lemma advance_due now (x : t World Arg Res) tm :
  timers x = [tm] → due tm ≤ now →
  advance func immediate now x
  = later func immediate (args tm) (mk (world x) (result x) (timeout x) [] (next_id x)).
Proof.
  intros H Hd. unfold advance. rewrite H. simpl.
  destruct (Z.leb_spec (due tm) now); [done|lia].
Qed.

Lemma later_spec a (x : t World Arg Res) :
  later func immediate a x
  = if truthy immediate
    then mk (world x) (result x) None (timers x) (next_id x)
    else mk (func a (world x)).1 (assigned (func a (world x)).2 (result x)) None
           (timers x) (next_id x).
Proof.
  unfold later, apply. destruct (truthy immediate); [done|]. simpl.
  by destruct (func a (world x)) as [w [r|]].
Qed.

(** A call on a state with at most one timer, which [timeout] holds. *)
Lemma debounced_spec now a (x : t World Arg Res) prev :
  waiting wait prev x →
  debounced func wait immediate now a x
  = if truthy immediate && negb (bool_decide (is_Some prev))
    then (match (func a (world x)).2 with
          | Normal r => Normal (Some r)
          | Abrupt => Abrupt
          end,
          mk (func a (world x)).1 (assigned (func a (world x)).2 (result x))
             (Some (next_id x)) [mkTimer (next_id x) (now + wait) a] (S (next_id x)))
    else (Normal (result x),
          mk (world x) (result x) (Some (next_id x))
             [mkTimer (next_id x) (now + wait) a] (S (next_id x))).
Proof.
  intros Hw. unfold debounced.
  assert (timers (clearTimeout (timeout x) x) = []
          ∧ bool_decide (is_Some (timeout x)) = bool_decide (is_Some prev)) as [Hc Hb].
  { destruct prev as [[t0 a0]|]; simpl in Hw.
    - destruct Hw as (i & Ht & Hi). rewrite Hi. simpl. rewrite Ht. split; [|done].
      cbn. rewrite decide_False; [done|]. simpl. intros H. by apply H.
    - destruct Hw as [Ht Hi]. rewrite Hi. by split. }
  rewrite Hb.
  assert (∀ f, world (clearTimeout f x) = world x ∧ result (clearTimeout f x) = result x
               ∧ next_id (clearTimeout f x) = next_id x) as Hk
    by (by intros [i|]).
  destruct (Hk (timeout x)) as (Hkw & Hkr & Hkn).
  unfold setTimeout. rewrite Hc, Hkw, Hkr, Hkn. cbn [enqueue world result timers next_id].
  destruct (truthy immediate && negb (bool_decide (is_Some prev))); [|done].
  unfold apply. cbn [world result timeout timers next_id].
  by destruct (func a (world x)) as [w [r|]].
Qed.

Lemma waiting_world prev (x : t World Arg Res) (w : World) (r : option Res) n :
  waiting wait prev x →
  waiting wait prev (mk w r (timeout x) (timers x) n).
Proof. by destruct prev as [[t0 a0]|]. Qed.

Lemma play_app (tr1 tr2 : list (Z * event World Arg)) (x : t World Arg Res) :
  play func wait immediate (tr1 ++ tr2) x
  = let '(r1, y) := play func wait immediate tr1 x in
    let '(r2, z) := play func wait immediate tr2 y in
    ((r1 ++ r2)%list, z).
Proof.
  revert x. induction tr1 as [|te tr1 IH]; intros x.
  - simpl. by destruct (play func wait immediate tr2 x).
  - cbn [play app]. destruct (handle func wait immediate x te) as [r y].
    rewrite IH. destruct (play func wait immediate tr1 y) as [r1 y1].
    destruct (play func wait immediate tr2 y1) as [r2 y2]. by rewrite app_assoc.
Qed.

(** Before the timer is due nothing runs. *)
Lemma advance_waiting now prev (x : t World Arg Res) :
  waiting wait prev x →
  match prev with
  | Some (t0, _) => now < t0 + wait
  | None => True
  end →
  advance func immediate now x = x.
Proof.
  destruct prev as [[t0 a0]|]; simpl.
  - intros (i & Ht & _) Hn. by apply (advance_early now x _ Ht).
  - intros [Ht _] _. by apply advance_idle.
Qed.

(** Once it is due the timer runs, and none is left. *)
Lemma advance_fires now t0 a0 (x : t World Arg Res) :
  waiting wait (Some (t0, a0)) x → t0 + wait ≤ now →
  advance func immediate now x
  = if truthy immediate
    then mk (world x) (result x) None [] (next_id x)
    else mk (func a0 (world x)).1 (assigned (func a0 (world x)).2 (result x)) None []
           (next_id x).
Proof.
  intros (i & Ht & _) Hn. rewrite (advance_due now x _ Ht) by done.
  by rewrite later_spec.
Qed.

(** During a burst only the changes happen, and every call returns
    what [result] held before. *)
Lemma burst_play (tr : list (Z * event World Arg)) :
  ∀ (x : t World Arg Res) prev,
    waiting wait prev x → burst wait prev tr →
    truthy immediate = false ∨ is_Some prev →
    ∃ y, play func wait immediate tr x
         = (replicate (length (filter (λ te, negb (is_change te)) tr))
              (Normal (result x)), y)
         ∧ world y = changes tr (world x) ∧ result y = result x
         ∧ waiting wait (foldl latest prev tr) y.
Proof.
  induction tr as [|[now e] tr IH]; intros x prev Hw Hb Hi.
  - exists x. by split.
  - destruct Hb as [Hnow Hb]. cbn [play]. unfold handle. cbn [fst snd] in *.
    rewrite (advance_waiting now prev x Hw Hnow).
    destruct e as [a|f].
    + rewrite (debounced_spec now a x prev Hw).
      assert (truthy immediate && negb (bool_decide (is_Some prev)) = false) as ->.
      { destruct Hi as [->|Hi]; [done|]. rewrite bool_decide_true by done.
        apply andb_false_r. }
      set (x1 := mk _ _ _ _ _).
      destruct (IH x1 (Some (now, a))) as (y & -> & Hy1 & Hy2 & Hy3);
        [by exists (next_id x)|done|right; by eexists|].
      exists y. split; [done|]. split; [done|]. split; [done|]. done.
    + set (x1 := mk _ _ _ _ _).
      destruct (IH x1 prev) as (y & -> & Hy1 & Hy2 & Hy3);
        [by apply waiting_world|done|done|].
      exists y. split; [done|]. split; [done|]. split; [done|]. done.
Qed.

(** Only changes: nothing pending, nothing runs. *)
Lemma changes_play (tr : list (Z * event World Arg)) :
  ∀ x : t World Arg Res,
    idle x → forallb is_change tr = true →
    ∃ y, play func wait immediate tr x = ([], y)
         ∧ world y = changes tr (world x) ∧ result y = result x ∧ idle y
         ∧ next_id y = next_id x.
Proof.
  induction tr as [|[now e] tr IH]; intros x Hx Hc.
  - exists x. by split.
  - cbn [forallb] in Hc. apply andb_true_iff in Hc as [He Hc].
    destruct e as [a|f]; [done|].
    cbn [play]. unfold handle. cbn [fst snd].
    rewrite (advance_idle now x) by apply Hx.
    set (x1 := mk _ _ _ _ _).
    destruct (IH x1) as (y & -> & Hy1 & Hy2 & Hy3 & Hy4); [done|done|].
    exists y. by split.
Qed.

Lemma one_timer_advance now prev x :
  one_timer wait prev x → one_timer wait prev (advance func immediate now x).
Proof.
  intros [[Hi|[Hp Hw]] Hn].
  - rewrite (advance_idle now x) by apply Hi. split; [by left|done].
  - destruct prev as [[t0 a0]|]; [|by destruct Hp].
    destruct (Z.lt_ge_cases now (t0 + wait)) as [Hlt|Hge].
    + rewrite (advance_waiting now _ x Hw Hlt). split; [right|]; done.
    + rewrite (advance_fires now t0 a0 x Hw Hge).
      destruct (truthy immediate); (split; [by left|constructor]).
Qed.

Lemma one_timer_handle prev x te :
  one_timer wait prev x → one_timer wait (latest prev te) (handle func wait immediate x te).2.
Proof.
  intros H. apply (one_timer_advance te.1) in H. unfold handle.
  set (x1 := advance func immediate te.1 x) in *. destruct te as [now [a|f]].
  - cbn [fst snd latest].
    assert (∃ prev', waiting wait prev' x1) as [prev' Hw].
    { destruct H as [[Hi|[_ Hw]] _]; [by exists None|by exists prev]. }
    rewrite (debounced_spec now a x1 prev' Hw).
    destruct (truthy immediate && negb (bool_decide (is_Some prev'))); cbn [snd].
    + split; [right; split; [by eexists|by eexists]|]. repeat constructor.
    + split; [right; split; [by eexists|by eexists]|]. repeat constructor.
  - cbn [fst snd latest]. destruct H as [[Hi|[Hp Hw]] Hn].
    + split; [by left|done].
    + split; [right; split; [done|by apply waiting_world]|done].
Qed.

Lemma one_timer_play (tr : list (Z * event World Arg)) :
  ∀ prev x, one_timer wait prev x →
            one_timer wait (foldl latest prev tr) (play func wait immediate tr x).2.
Proof.
  induction tr as [|te tr IH]; intros prev x H; [exact H|].
  cbn [play foldl]. pose proof (one_timer_handle prev x te H) as H1.
  destruct (handle func wait immediate x te) as [r y]. cbn [snd] in H1.
  specialize (IH _ _ H1). destruct (play func wait immediate tr y) as [rs z].
  exact IH.
Qed.



End Facts.
End DebounceFacts.

Import DebounceSpec DebounceFacts.

(** X24.  Whatever happens, and whatever func does, the function
    debounce returns keeps at most one timer pending: the one its last
    call has set, due wait after that call, which the variable timeout
    holds. *)
Theorem debounce_keeps_one_timer :
  ∀ (World Arg Res : Type) (func : Arg → World → World * Debounce.completion Res)
    (wait : Z) (immediate : value) (trace : list (Z * Debounce.event World Arg))
    (w : World),
    let x := (Debounce.play func wait immediate trace (Debounce.start w)).2 in
    idle x
    ∨ ∃ t a i,
        last_call trace = Some (t, a)
        ∧ Debounce.timers x = [Debounce.mkTimer i (t + wait) a]
        ∧ Debounce.timeout x = Some i
        ∧ (i < Debounce.next_id x)%nat.
Proof.
  intros World Arg Res func wait immediate trace w x.
  assert (one_timer wait None (Debounce.start (Arg := Arg) (Res := Res) w)) as H0
    by (split; [by left|constructor]).
  apply (one_timer_play func wait immediate trace) in H0. fold x in H0.
  destruct H0 as [[Hi|[Hp Hw]] Hn]; [by left|]. right.
  fold (last_call trace) in *. destruct (last_call trace) as [[t a]|]; [|by destruct Hp].
  destruct Hw as (i & Ht & Hi). exists t, a, i. split; [done|]. split; [done|].
  split; [done|]. rewrite Ht in Hn. by inversion Hn.
Qed.

(** X25.  Without immediate, a burst of calls, each less than wait after
    the one before, runs func once: not during the burst, where every
    call returns the result of an earlier run (undefined at first), but
    wait after the last call, and with the arguments of the last call. *)
Theorem debounce_runs_once_after_a_burst :
  ∀ (World Arg Res : Type) (func : Arg → World → World * Debounce.completion Res)
    (wait : Z) (immediate : value) (trace : list (Z * Debounce.event World Arg))
    (x : Debounce.t World Arg Res) (t : Z) (a : Arg) (T : Z),
    truthy immediate = false → idle x →
    burst wait None trace → last_call trace = Some (t, a) → t + wait ≤ T →
    ∃ y,
      Debounce.play func wait immediate trace x
      = (replicate (length (filter (λ te, negb (is_change te)) trace))
           (Debounce.Normal (Debounce.result x)), y)
      ∧ Debounce.world y = changes trace (Debounce.world x)
      ∧ let z := Debounce.advance func immediate T y in
        idle z
        ∧ Debounce.world z = (func a (Debounce.world y)).1
        ∧ Debounce.result z = assigned (func a (Debounce.world y)).2 (Debounce.result x).
Proof.
  intros World Arg Res func wait immediate trace x t a T Hi Hx Hb Hl HT.
  destruct (burst_play func wait immediate trace x None Hx Hb (or_introl Hi))
    as (y & Hp & Hw & Hr & Hy).
  exists y. split; [done|]. split; [done|].
  fold (last_call trace) in Hy. rewrite Hl in Hy.
  rewrite (advance_fires func wait immediate T t a y Hy HT), Hi. cbn.
  split; [done|]. by rewrite Hr.
Qed.

Lemma debounce_runs_once_after_a_burst_witness :
  let trace := [(0, Debounce.Call 1); (100, Debounce.Change (Z.mul 2));
                (200, Debounce.Call 5); (400, Debounce.Call 7)] in
  ∃ y,
    Debounce.play add_to_counter 250 VUndefined trace (Debounce.start 10)
    = ([Debounce.Normal None; Debounce.Normal None; Debounce.Normal None], y)
    ∧ Debounce.world y = 20
    ∧ Debounce.world (Debounce.advance add_to_counter VUndefined 650 y) = 27.
Proof.
  cbv zeta.
  destruct (debounce_runs_once_after_a_burst Z Z Z add_to_counter 250 VUndefined
              [(0, Debounce.Call 1); (100, Debounce.Change (Z.mul 2));
               (200, Debounce.Call 5); (400, Debounce.Call 7)]
              (Debounce.start 10) 400 7 650)
    as (y & Hp & Hw & _ & Hz & _);
    [reflexivity|by split|simpl; lia|reflexivity|lia|].
  exists y. split; [exact Hp|]. split; [exact Hw|]. rewrite Hz, Hw. reflexivity.
Defined.

(** X26.  With immediate, func runs at the first call of a burst, with
    the arguments of that call, and never again in the burst: the later
    calls return what the first one returned, and the timer only clears
    timeout, wait after the last call. *)
Theorem debounce_immediate_runs_the_first_call :
  ∀ (World Arg Res : Type) (func : Arg → World → World * Debounce.completion Res)
    (wait : Z) (immediate : value) (pre post : list (Z * Debounce.event World Arg))
    (x : Debounce.t World Arg Res) (t1 : Z) (a1 : Arg),
    truthy immediate = true → idle x →
    forallb is_change pre = true → burst wait (Some (t1, a1)) post →
    let first := func a1 (changes pre (Debounce.world x)) in
    ∃ y,
      Debounce.play func wait immediate (pre ++ (t1, Debounce.Call a1) :: post) x
      = (match first.2 with
         | Debounce.Normal r => Debounce.Normal (Some r)
         | Debounce.Abrupt => Debounce.Abrupt
         end
         :: replicate (length (filter (λ te, negb (is_change te)) post))
              (Debounce.Normal (assigned first.2 (Debounce.result x))), y)
      ∧ Debounce.world y = changes post first.1
      ∧ ∀ t a T,
          foldl latest (Some (t1, a1)) post = Some (t, a) → t + wait ≤ T →
          let z := Debounce.advance func immediate T y in
          idle z ∧ Debounce.world z = Debounce.world y
          ∧ Debounce.result z = Debounce.result y.
Proof.
  intros World Arg Res func wait immediate pre post x t1 a1 Hi Hx Hpre Hb first.
  rewrite play_app.
  destruct (changes_play func wait immediate pre x Hx Hpre)
    as (x1 & -> & Hw1 & Hr1 & Hx1 & _).
  cbn [Debounce.play]. unfold Debounce.handle. cbn [fst snd].
  rewrite (advance_idle func immediate t1 x1) by apply Hx1.
  rewrite (debounced_spec func wait immediate t1 a1 x1 None Hx1), Hi. cbn [andb negb].
  rewrite bool_decide_false by (by intros [? ?]). cbn [negb].
  set (x2 := Debounce.mk _ _ _ _ _).
  destruct (burst_play func wait immediate post x2 (Some (t1, a1)))
    as (y & -> & Hw & Hr & Hy); [by exists (Debounce.next_id x1)|done|right; by eexists|].
  exists y. unfold first. rewrite <- Hw1, <- Hr1. split; [done|]. split; [done|].
  intros t a T Hl HT. rewrite Hl in Hy.
  rewrite (advance_fires func wait immediate T t a y Hy HT), Hi. by cbn.
Qed.

Lemma debounce_immediate_runs_the_first_call_witness :
  ∃ y,
    Debounce.play add_to_counter 250 (VBool true)
      ([(0, Debounce.Change (Z.mul 2))]
       ++ (10, Debounce.Call 1) :: [(100, Debounce.Call 5); (300, Debounce.Call 7)])
      (Debounce.start 10)
    = ([Debounce.Normal (Some 20); Debounce.Normal (Some 20); Debounce.Normal (Some 20)], y)
    ∧ Debounce.world y = 21.
Proof.
  destruct (debounce_immediate_runs_the_first_call Z Z Z add_to_counter 250 (VBool true)
              [(0, Debounce.Change (Z.mul 2))]
              [(100, Debounce.Call 5); (300, Debounce.Call 7)]
              (Debounce.start 10) 10 1)
    as (y & Hp & Hw & _); [reflexivity|by split|reflexivity|simpl; lia|].
  exists y. split; [exact Hp|exact Hw].
Defined.



(** ** Resizing *)

Lemma same_device_resized size h : same_device h (resized size h).
Proof. done. Qed.

Lemma reachable_same_device h h' s : same_device h h' → reachable h s → reachable h' s.
Proof.
  intros [Hu Ht] (calls & Hd & ->). exists calls. split; [|done].
  eapply Forall_impl; [exact Hd|]. intros [h1 c] [H1 H2]. simpl in *.
  split; congruence.
Qed.

Lemma resized_resized size size' h : resized size (resized size' h) = resized size h.
Proof. done. Qed.

Lemma resized_foldl rs size h :
  resized size (foldl (λ (h : Host) (r : Z * (Z * Z * Z * Z)), resized r.2 h) h rs)
  = resized size h.
Proof. revert h. induction rs as [|r rs IH]; intros h; [done|]. cbn. by rewrite IH. Qed.

Lemma changes_resizes rs h s d :
  changes (resizes rs) (h, s, d) = (foldl (λ h r, resized r.2 h) h rs, s, d).
Proof. revert h. induction rs as [|r rs IH]; intros h; [done|]. cbn. by rewrite <- IH. Qed.

Lemma calls_resizes rs :
  length (filter (λ te, negb (is_change te)) (resizes rs)) = length rs.
Proof.
  induction rs as [|r rs IH]; [done|].
  unfold resizes. cbn [flat_map resize app]. fold (resizes rs).
  rewrite filter_cons_False by (intros H; exact H).
  rewrite filter_cons_True by exact I.
  cbn [length]. by rewrite IH.
Qed.

Lemma resizes_last rs t size h s d :
  last rs = Some (t, size) →
  last_call (resizes rs) = Some (t, tt)
  ∧ changes (resizes rs) (h, s, d) = (resized size h, s, d).
Proof.
  intros (rs' & ->)%last_Some. split.
  - unfold last_call, resizes. rewrite flat_map_app, foldl_app. reflexivity.
  - rewrite changes_resizes, foldl_app. cbn [foldl snd]. f_equal. f_equal.
    apply resized_foldl.
Qed.

(** X28.  A burst of resizes, each less than 250 ms after the one before,
    leaves the page alone while it lasts; 250 ms after the last one
    prepEnvironment() runs once, for the window as it then is, and the
    breakpoint classes are those of the final width. *)
Theorem classes_follow_the_last_resize :
  ∀ (l : Location) (h : Host) (s : State) (d : Document)
    (rs : list (Z * (Z * Z * Z * Z))) (t : Z) (size : Z * Z * Z * Z) (T : Z),
    reachable h s →
    burst 250 None (resizes rs) → last rs = Some (t, size) → t + 250 ≤ T →
    ∃ y s' d',
      Debounce.play (prepEnvironment_func l) 250 VUndefined (resizes rs)
        (Debounce.start (h, s, d))
      = (replicate (length rs) (Debounce.Normal None), y)
      ∧ Debounce.world y = (resized size h, s, d)
      ∧ prepEnvironment VUndefined l (resized size h) s d = Done s' d'
      ∧ Debounce.world (Debounce.advance (prepEnvironment_func l) VUndefined T y)
        = (resized size h, s', d')
      ∧ reachable h s'
      ∧ ∀ name width, (name, width) ∈ entries breakpoints →
          (breakpoint_class name ∈ classList d'
           ↔ width ≤ Z.max size.1.1.1 size.1.2).
Proof.
  intros l h s d rs t size T Hs Hb Hl HT.
  destruct (resizes_last rs t size h s d Hl) as [Hcall Hch].
  destruct (burst_play (prepEnvironment_func l) 250 VUndefined (resizes rs)
              (Debounce.start (h, s, d)) None) as (y & Hp & Hw & Hr & Hy);
    [done|done|by left|].
  fold (last_call (resizes rs)) in Hy. rewrite Hcall in Hy.
  cbn [Debounce.start Debounce.world Debounce.result] in Hp, Hw, Hr.
  rewrite calls_resizes in Hp. rewrite Hch in Hw.
  assert (reachable (resized size h) s) as Hs'
    by (by apply (reachable_same_device h)).
  destruct (prepEnvironment_spec VUndefined l (resized size h) s d
              (reachable_consistent _ s Hs')) as (s' & Hprep & _ & _ & Hrun).
  exists y, s'. eexists. split; [exact Hp|]. split; [exact Hw|].
  split; [exact Hprep|]. split; [|split].
  - rewrite (advance_fires (prepEnvironment_func l) 250 VUndefined T t tt y Hy HT).
    cbn [truthy]. cbn [Debounce.world]. rewrite Hw.
    unfold prepEnvironment_func. by rewrite Hprep.
  - apply (reachable_same_device (resized size h)); [done|].
    rewrite Hrun. apply reachable_run; [apply prepEnvironment_calls_same_device|done].
  - intros name width He.
    rewrite show_classes, (breakpoint_flag l _ _ name width He).
    change (Viewport.width (measure (resized size h)))
      with (Z.max size.1.1.1 size.1.2).
    destruct (Z.geb_spec (Z.max size.1.1.1 size.1.2) width); split; try done; lia.
Qed.

Lemma classes_follow_the_last_resize_witness :
  let l := mkLocation "https://www.nytimes.com/" EmptyString "www.nytimes.com" VUndefined in
  let h := device iphoneUA None in
  let d := mkDocument ∅ [] in
  let rs := [(0, (600, 800, 600, 800)); (100, (1024, 768, 1024, 768))] in
  ∃ y s' d',
    Debounce.play (prepEnvironment_func l) 250 VUndefined (resizes rs)
      (Debounce.start (h, initial, d))
    = ([Debounce.Normal None; Debounce.Normal None], y)
    ∧ Debounce.world (Debounce.advance (prepEnvironment_func l) VUndefined 350 y)
      = (resized (1024, 768, 1024, 768) h, s', d')
    ∧ (breakpoint_class "large" ∈ classList d' ↔ 1024 ≤ 1024).
Proof.
  cbv zeta.
  set (l := mkLocation _ _ _ _). set (h := device _ _). set (d := mkDocument _ _).
  destruct (classes_follow_the_last_resize l h initial d
              [(0, (600, 800, 600, 800)); (100, (1024, 768, 1024, 768))]
              100 (1024, 768, 1024, 768) 350)
    as (y & s' & d' & Hp & _ & _ & Hz & _ & Hc);
    [apply reachable_initial|simpl; lia|reflexivity|lia|].
  exists y, s', d'. split; [exact Hp|]. split; [exact Hz|].
  apply (Hc "large" 1024). in_list.
Defined.
